(** * pyRofex.clients.websocket_rfx : the WebSocketClient

    A shallow embedding of [WebSocketClient] (src/pyRofex/clients/websocket_rfx.py)
    and the properties of its dispatch, subscription ledger, order encoding,
    connection and reconnection logic.

    The client is stateful and talks to collaborators that live outside the
    file (the socket library, the listener thread, the REST client, the
    consumer callbacks).  Its methods are written in a state-and-exception
    monad over the client object; the collaborators are a [World] of oracles
    that the methods consult; every externally visible action is appended to
    a trace. *)

From Stdlib Require Import List String Ascii ZArith QArith Qabs Bool Lia DecimalString.
Import ListNotations.
Close Scope Q_scope.
Open Scope string_scope.

(** ** Python values *)

(** Exceptions.  All of them derive from [Exception], so every [except
    Exception] clause of the client catches them. *)
Inductive exn :=
| ApiException (msg : string)
| TypeError
| KeyError
| AttributeError
| ValueError
| OverflowError
| JSONDecodeError
| CallbackError (tag : nat)      (* raised by a consumer callback *)
| TransportError (tag : nat).    (* raised by the socket library or the REST client *)

(** What [simplejson.loads] returns. *)
#[local] Unset Elimination Schemes.
Inductive json :=
| JNull
| JBool (b : bool)
| JNum (text : string)
| JStr (s : string)
| JArr (items : list json)
| JObj (fields : list (string * json)).
#[local] Set Elimination Schemes.

(** Scalars handed to [str.format]. *)
Inductive pyval :=
| PyNone
| PyBool (b : bool)
| PyInt (z : Z)
| PyFloat (repr : string)
| PyStr (s : string).

Definition str_of_bool (b : bool) : string := if b then "True" else "False".
Definition str_of_int (z : Z) : string := NilZero.string_of_int (Z.to_int z).

(** [str(v)] *)
Definition str (v : pyval) : string :=
  match v with
  | PyNone => "None"
  | PyBool b => str_of_bool b
  | PyInt z => str_of_int z
  | PyFloat r => r
  | PyStr s => s
  end.

(** [v is not None] *)
Definition is_not_None (v : pyval) : bool :=
  match v with PyNone => false | _ => true end.

Definition upper_ascii (c : ascii) : ascii :=
  let n := nat_of_ascii c in
  if (97 <=? n)%nat && (n <=? 122)%nat then ascii_of_nat (n - 32) else c.

Definition lower_ascii (c : ascii) : ascii :=
  let n := nat_of_ascii c in
  if (65 <=? n)%nat && (n <=? 90)%nat then ascii_of_nat (n + 32) else c.

Fixpoint map_string (f : ascii -> ascii) (s : string) : string :=
  match s with
  | EmptyString => EmptyString
  | String c r => String (f c) (map_string f r)
  end.

(** [s.upper()] and [s.lower()].  Only the ASCII letters are mapped; no
    non-ASCII character has [M], [D], [O] or [R] as its upper case, so the
    comparisons the client makes on the result are not affected. *)
Definition upper : string -> string := map_string upper_ascii.
Definition lower : string -> string := map_string lower_ascii.

(** [needle in hay] on two strings *)
Fixpoint is_infix (needle hay : string) : bool :=
  String.prefix needle hay ||
  match hay with
  | EmptyString => false
  | String _ r => is_infix needle r
  end.

(** [v == s] for a string literal [s] *)
Definition eq_str (v : json) (s : string) : bool :=
  match v with JStr t => String.eqb t s | _ => false end.

(** [",".join(l)] *)
Fixpoint join (sep : string) (l : list string) : string :=
  match l with
  | [] => ""
  | [x] => x
  | x :: r => x ++ sep ++ join sep r
  end.

(** ** Enumerations and message templates (pyRofex.components) *)

(** Modelled from the spec: the enum definitions of components.enums are
    external to the file.  A member is represented by its [value]; two
    members are the same object exactly when their values agree. *)
Record Enum := { value : string }.

Definition Market := Enum.
Definition MarketDataEntry := Enum.
Definition Side := Enum.
Definition OrderType := Enum.
Definition TimeInForce := Enum.

(** [a is b] / [a == b] on enum members *)
Definition enum_eqb (a b : Enum) : bool := String.eqb (value a) (value b).

(** A template of components.messages: literal text with named fields.
    [F] is the set of field names the corresponding [format] call supplies. *)
Inductive piece (F : Type) :=
| Lit (text : string)
| Field (name : F).
Arguments Lit {F} text.
Arguments Field {F} name.

Definition template (F : Type) := list (piece F).

(** [t.format(name=value, ...)] *)
Fixpoint format {F : Type} (t : template F) (args : F -> string) : string :=
  match t with
  | [] => ""
  | Lit s :: r => s ++ format r args
  | Field n :: r => args n ++ format r args
  end.

Inductive instrument_field := f_ticker | f_market.
Inductive quotes_field := f_item.
Inductive md_field := f_depth | f_entries | f_symbols.
Inductive os_field := f_a | f_snapshot.
Inductive cancel_field := f_id | f_p.
Inductive opt_field := f_price | f_iceberg | f_expire_date | f_display_quantity | f_wsClOrdID.
Inductive order_field :=
| o_market | o_ticker | o_size | o_side | o_time_force | o_account
| o_cancel_previous | o_all_or_none | o_order_type | o_optional_params.

(** Modelled from the spec: the constants of components.messages that the
    client uses.  Their text is not part of the file; each is a template
    over the fields its [format] call supplies. *)
Record Messages := {
  INSTRUMENT : template instrument_field;
  DOUBLE_QUOTES : template quotes_field;
  MARKET_DATA_SUBSCRIPTION : template md_field;
  ORDER_SUBSCRIPTION : template os_field;
  CANCEL_ORDER : template cancel_field;
  SEND_ORDER : template order_field;
  GOOD_TILL_DATE : template opt_field;
  ICEBERG : template opt_field;
  WS_CLIENT_ORDER_ID : template opt_field;
  PRICE : template opt_field
}.

(** ** The client object *)

(** Callables and collaborators are known by their identity. *)
Definition handler := nat.
Definition ClientId := nat.
Definition RestId := nat.
Definition EnvKey := nat.

(** An entry of [active_subscriptions['market_data']].  The entry holds the
    caller's [tickers] and [entries] lists themselves; the model records
    their contents at the time of the call, so it describes callers that
    leave these lists as they are afterwards. *)
Record MarketDataSub := {
  sub_tickers : list string;
  sub_entries : list MarketDataEntry;
  sub_market : Market;
  sub_depth : Z
}.

(** An entry of [active_subscriptions['order_report']] *)
Record OrderReportSub := {
  sub_account : string;
  sub_snapshot : bool
}.

(** [active_subscriptions]: a dict with the two keys ['market_data'] and
    ['order_report'], each holding a list. *)
Record Subscriptions := {
  market_data : list MarketDataSub;
  order_report : list OrderReportSub
}.

Record WebSocketClient := {
  self_id : ClientId;
  environment : EnvKey;
  market_data_handlers : list handler;
  order_report_handlers : list handler;
  error_handlers : list handler;
  exception_handler : option handler;
  ws_connection : option nat;
  ws_thread : option nat;
  connected : bool;
  auto_reconnect : bool;
  max_reconnect_attempts : Z;
  reconnect_delay : Q;
  active_subscriptions : Subscriptions
}.

(** An entry of [globals.environment_config], as far as the client reads it:
    [env_config.get('ws_client')] and [env_config.get('rest_client')]. *)
Record EnvConfig := {
  ws_client : option ClientId;
  rest_client : option RestId
}.

(** ** Trace and world *)

Inductive category := MarketData | OrderReport | Error.

(** What a handler receives: the decoded frame, or a text. *)
Inductive payload :=
| PMsg (msg : json)
| PText (text : string).

(** The calls of [logging]. *)
Inductive log_record :=
| LogClosed (code : Z)
| LogClosed1008
| LogSavedMD (tickers : list string) (market : string)
| LogSavedOR (account : string)
| LogAttempt (attempt max_attempts : Z)
| LogSimple
| LogSimpleDone
| LogReauth
| LogTokenUpdated
| LogReauthDone
| LogAttemptFailed (attempt : Z) (e : exn)
| LogExhausted (max_attempts : Z)
| LogConfigured (enabled : bool) (max_attempts : Z) (delay : Q)
| LogDisabled
| LogRestoringMD (tickers : list string) (market : string)
| LogRestoringOR (account : string)
| LogRestored
| LogRestoreFailed (e : exn)
| LogCleared.

Inductive event :=
| EvHandler (c : category) (h : handler) (arg : payload)   (* a registered handler is called *)
| EvExceptionHandler (h : handler) (e : exn)               (* the exception handler is called *)
| EvSleep (seconds : Q)                                    (* time.sleep *)
| EvConnect                                                (* the reconnection loop calls connect() *)
| EvSocket (env : EnvKey) (id : nat)                       (* websocket.WebSocketApp(...) *)
| EvThreadStart (id : nat)                                 (* ws_thread.start() *)
| EvSend (conn : nat) (message : string)                   (* ws_connection.send *)
| EvCloseSocket (conn : nat)                               (* ws_connection.close *)
| EvUpdateToken (r : RestId)                               (* rest_client.update_token *)
| EvSpawnReconnection                                      (* Thread(target=_attempt_reconnection).start() *)
| EvLog (r : log_record).

(** Callbacks of the client that the listener thread runs and that write
    the client's fields. *)
Inductive callback :=
| CbOpen
| CbClose (close_status_code : Z).

(** The collaborators.  External actions are numbered by a logical clock
    ([now] below) that advances at every sleep and every external call; the
    oracles say what the client observes at each instant. *)
Record World := {
  loads : string -> json + exn;                    (* simplejson.loads *)
  repr : json -> string;                           (* str() of a decoded frame *)
  run_handler : handler -> payload -> option exn;  (* None: the callback returns *)
  run_exception_handler : handler -> exn -> option exn;
  thread_alive : nat -> nat -> bool;               (* thread, instant: is_alive() *)
  sock_connected : nat -> nat -> bool;             (* socket, instant: sock is not None and sock.connected *)
  listener : nat -> list callback;                 (* callbacks run while the client sleeps at an instant *)
  send_outcome : nat -> string -> option exn;      (* instant, message *)
  update_token_outcome : nat -> RestId -> option exn;
  environment_has : EnvKey -> string -> nat -> bool (* environment, key, instant: key in self.environment *)
}.

(** The program state: the client, the process-wide environment registry
    (a dict, in insertion order), the clock and the trace. *)
Record Sys := {
  self : WebSocketClient;
  environment_config : list (EnvKey * EnvConfig);
  now : nat;
  trace : list event
}.

(** ** The monad *)

Inductive res (A : Type) :=
| Ok (a : A)
| Raise (e : exn).
Arguments Ok {A} a.
Arguments Raise {A} e.

Definition M (A : Type) := Sys -> res A * Sys.

Definition ret {A} (a : A) : M A := fun s => (Ok a, s).

Definition bind {A B} (m : M A) (f : A -> M B) : M B :=
  fun s => match m s with
           | (Ok a, s') => f a s'
           | (Raise e, s') => (Raise e, s')
           end.

Definition raise {A} (e : exn) : M A := fun s => (Raise e, s).

(** [try: m  except Exception as e: h e] *)
Definition try_except {A} (m : M A) (h : exn -> M A) : M A :=
  fun s => match m s with
           | (Ok a, s') => (Ok a, s')
           | (Raise e, s') => h e s'
           end.

Declare Scope monad_scope.
Delimit Scope monad_scope with monad.
Notation "x <- c1 ;; c2" := (bind c1 (fun x => c2))
  (at level 61, c1 at next level, right associativity) : monad_scope.
Notation "c1 ;; c2" := (bind c1 (fun _ => c2))
  (at level 61, right associativity) : monad_scope.
Open Scope monad_scope.

Definition get_self : M WebSocketClient := fun s => (Ok (self s), s).
Definition get_now : M nat := fun s => (Ok (now s), s).
Definition get_registry : M (list (EnvKey * EnvConfig)) :=
  fun s => (Ok (environment_config s), s).

Definition put_self (c : WebSocketClient) : M unit :=
  fun s => (Ok tt, {| self := c; environment_config := environment_config s;
                      now := now s; trace := trace s |}).

Definition emit (e : event) : M unit :=
  fun s => (Ok tt, {| self := self s; environment_config := environment_config s;
                      now := now s; trace := trace s ++ [e] |}).

Definition tick : M unit :=
  fun s => (Ok tt, {| self := self s; environment_config := environment_config s;
                      now := S (now s); trace := trace s |}).

Definition log (r : log_record) : M unit := emit (EvLog r).

(** [for x in l: f x] *)
Fixpoint for_each {A} (f : A -> M unit) (l : list A) : M unit :=
  match l with
  | [] => ret tt
  | x :: r => f x ;; for_each f r
  end.

(** Field assignments on the client. *)
Definition set_handlers (md orh err : list handler) (c : WebSocketClient) : WebSocketClient :=
  {| self_id := self_id c; environment := environment c;
     market_data_handlers := md; order_report_handlers := orh; error_handlers := err;
     exception_handler := exception_handler c;
     ws_connection := ws_connection c; ws_thread := ws_thread c; connected := connected c;
     auto_reconnect := auto_reconnect c; max_reconnect_attempts := max_reconnect_attempts c;
     reconnect_delay := reconnect_delay c; active_subscriptions := active_subscriptions c |}.

Definition set_exception_handler_field (h : option handler) (c : WebSocketClient) : WebSocketClient :=
  {| self_id := self_id c; environment := environment c;
     market_data_handlers := market_data_handlers c;
     order_report_handlers := order_report_handlers c; error_handlers := error_handlers c;
     exception_handler := h;
     ws_connection := ws_connection c; ws_thread := ws_thread c; connected := connected c;
     auto_reconnect := auto_reconnect c; max_reconnect_attempts := max_reconnect_attempts c;
     reconnect_delay := reconnect_delay c; active_subscriptions := active_subscriptions c |}.

Definition set_ws_connection (conn : option nat) (c : WebSocketClient) : WebSocketClient :=
  {| self_id := self_id c; environment := environment c;
     market_data_handlers := market_data_handlers c;
     order_report_handlers := order_report_handlers c; error_handlers := error_handlers c;
     exception_handler := exception_handler c;
     ws_connection := conn; ws_thread := ws_thread c; connected := connected c;
     auto_reconnect := auto_reconnect c; max_reconnect_attempts := max_reconnect_attempts c;
     reconnect_delay := reconnect_delay c; active_subscriptions := active_subscriptions c |}.

Definition set_ws_thread (t : option nat) (c : WebSocketClient) : WebSocketClient :=
  {| self_id := self_id c; environment := environment c;
     market_data_handlers := market_data_handlers c;
     order_report_handlers := order_report_handlers c; error_handlers := error_handlers c;
     exception_handler := exception_handler c;
     ws_connection := ws_connection c; ws_thread := t; connected := connected c;
     auto_reconnect := auto_reconnect c; max_reconnect_attempts := max_reconnect_attempts c;
     reconnect_delay := reconnect_delay c; active_subscriptions := active_subscriptions c |}.

Definition set_connected (b : bool) (c : WebSocketClient) : WebSocketClient :=
  {| self_id := self_id c; environment := environment c;
     market_data_handlers := market_data_handlers c;
     order_report_handlers := order_report_handlers c; error_handlers := error_handlers c;
     exception_handler := exception_handler c;
     ws_connection := ws_connection c; ws_thread := ws_thread c; connected := b;
     auto_reconnect := auto_reconnect c; max_reconnect_attempts := max_reconnect_attempts c;
     reconnect_delay := reconnect_delay c; active_subscriptions := active_subscriptions c |}.

Definition set_reconnect (enabled : bool) (max_attempts : Z) (delay : Q)
    (c : WebSocketClient) : WebSocketClient :=
  {| self_id := self_id c; environment := environment c;
     market_data_handlers := market_data_handlers c;
     order_report_handlers := order_report_handlers c; error_handlers := error_handlers c;
     exception_handler := exception_handler c;
     ws_connection := ws_connection c; ws_thread := ws_thread c; connected := connected c;
     auto_reconnect := enabled; max_reconnect_attempts := max_attempts;
     reconnect_delay := delay; active_subscriptions := active_subscriptions c |}.

Definition set_active_subscriptions (subs : Subscriptions) (c : WebSocketClient) : WebSocketClient :=
  {| self_id := self_id c; environment := environment c;
     market_data_handlers := market_data_handlers c;
     order_report_handlers := order_report_handlers c; error_handlers := error_handlers c;
     exception_handler := exception_handler c;
     ws_connection := ws_connection c; ws_thread := ws_thread c; connected := connected c;
     auto_reconnect := auto_reconnect c; max_reconnect_attempts := max_reconnect_attempts c;
     reconnect_delay := reconnect_delay c; active_subscriptions := subs |}.

(** [WebSocketClient.__init__] *)
Definition init (id : ClientId) (env : EnvKey) : WebSocketClient :=
  {| self_id := id; environment := env;
     market_data_handlers := []; order_report_handlers := []; error_handlers := [];
     exception_handler := None;
     ws_connection := None; ws_thread := None; connected := false;
     auto_reconnect := true; max_reconnect_attempts := 3; reconnect_delay := 2;
     active_subscriptions := {| market_data := []; order_report := [] |} |}.

(** ** The methods of the client *)

Section Client.

Variable w : World.
Variable messages : Messages.

(** [TimeInForce.GoodTillDate] and [OrderType.LIMIT] *)
Variable GoodTillDate : TimeInForce.
Variable LIMIT : OrderType.

(** *** Handler registry *)

(** [h in l] *)
Definition mem (h : handler) (l : list handler) : bool := existsb (Nat.eqb h) l.

(** [l.remove(h)], for [h] in [l]: drops the first occurrence *)
Fixpoint remove_first (h : handler) (l : list handler) : list handler :=
  match l with
  | [] => []
  | x :: r => if Nat.eqb x h then r else x :: remove_first h r
  end.

Definition add_market_data_handler (h : handler) : M unit :=
  c <- get_self ;;
  if negb (mem h (market_data_handlers c))
  then put_self (set_handlers (market_data_handlers c ++ [h])
                              (order_report_handlers c) (error_handlers c) c)
  else ret tt.

Definition remove_market_data_handler (h : handler) : M unit :=
  c <- get_self ;;
  if mem h (market_data_handlers c)
  then put_self (set_handlers (remove_first h (market_data_handlers c))
                              (order_report_handlers c) (error_handlers c) c)
  else ret tt.

Definition add_order_report_handler (h : handler) : M unit :=
  c <- get_self ;;
  if negb (mem h (order_report_handlers c))
  then put_self (set_handlers (market_data_handlers c)
                              (order_report_handlers c ++ [h]) (error_handlers c) c)
  else ret tt.

Definition remove_order_report_handler (h : handler) : M unit :=
  c <- get_self ;;
  if mem h (order_report_handlers c)
  then put_self (set_handlers (market_data_handlers c)
                              (remove_first h (order_report_handlers c)) (error_handlers c) c)
  else ret tt.

Definition add_error_handler (h : handler) : M unit :=
  c <- get_self ;;
  if negb (mem h (error_handlers c))
  then put_self (set_handlers (market_data_handlers c)
                              (order_report_handlers c) (error_handlers c ++ [h]) c)
  else ret tt.

Definition remove_error_handler (h : handler) : M unit :=
  c <- get_self ;;
  if mem h (error_handlers c)
  then put_self (set_handlers (market_data_handlers c)
                              (order_report_handlers c) (remove_first h (error_handlers c)) c)
  else ret tt.

Definition set_exception_handler (h : option handler) : M unit :=
  c <- get_self ;;
  put_self (set_exception_handler_field h c).

(** *** Calls to the collaborators *)

(** [handler(arg)] for a handler taken from the list of category [c] *)
Definition call_handler (c : category) (h : handler) (arg : payload) : M unit :=
  emit (EvHandler c h arg) ;;
  match run_handler w h arg with
  | None => ret tt
  | Some e => raise e
  end.

(** [self.exception_handler(e)] *)
Definition call_exception_handler (h : handler) (e : exn) : M unit :=
  emit (EvExceptionHandler h e) ;;
  match run_exception_handler w h e with
  | None => ret tt
  | Some e' => raise e'
  end.

(** [self.ws_connection.send(message)] *)
Definition ws_send (message : string) : M unit :=
  c <- get_self ;;
  match ws_connection c with
  | None => raise AttributeError
  | Some conn =>
      n <- get_now ;;
      emit (EvSend conn message) ;;
      tick ;;
      match send_outcome w n message with
      | None => ret tt
      | Some e => raise e
      end
  end.

(** [self.ws_connection.close()] *)
Definition ws_close : M unit :=
  c <- get_self ;;
  match ws_connection c with
  | None => raise AttributeError
  | Some conn => emit (EvCloseSocket conn) ;; tick
  end.

(** [rest_client.update_token()] *)
Definition update_token (r : RestId) : M unit :=
  n <- get_now ;;
  emit (EvUpdateToken r) ;;
  tick ;;
  match update_token_outcome w n r with
  | None => ret tt
  | Some e => raise e
  end.

(** *** Callbacks *)

Definition on_exception (exception : exn) : M unit :=
  c <- get_self ;;
  match exception_handler c with
  | Some h => call_exception_handler h exception
  | None => ret tt
  end.

Definition on_open : M unit :=
  c <- get_self ;;
  put_self (set_connected true c).

Definition on_close (close_status_code : Z) : M unit :=
  log (LogClosed close_status_code) ;;
  c <- get_self ;;
  put_self (set_connected false c) ;;
  if (close_status_code =? 1008)%Z
  then log LogClosed1008 ;; emit EvSpawnReconnection
  else ret tt.

Definition on_error (exception : exn) : M unit :=
  ws_close ;;
  on_exception exception.

Definition run_callback (cb : callback) : M unit :=
  match cb with
  | CbOpen => on_open
  | CbClose code => on_close code
  end.

(** What happens while the caller sleeps: the listener thread runs the
    callbacks that the world schedules for this instant. *)
Definition listen : M unit :=
  n <- get_now ;;
  for_each run_callback (listener w n) ;;
  tick.

(** The longest wait that [time.sleep] takes: it turns the length into a
    signed 64-bit count of nanoseconds. *)
Definition sleep_limit : Q := 9223372036854775807 # 1000000000.

(** [time.sleep(seconds)].  A length that does not fit the nanosecond count
    raises [OverflowError]; a negative one that fits raises [ValueError]. *)
Definition sleep (seconds : Q) : M unit :=
  if Qle_bool (Qabs seconds) sleep_limit
  then if Qle_bool 0 seconds
       then emit (EvSleep seconds) ;; listen
       else raise ValueError
  else raise OverflowError.

Definition is_connected : M bool :=
  c <- get_self ;;
  ret (connected c).

Definition close_connection : M unit := ws_close.

(** *** Inbound frames *)

(** [key in msg] *)
Definition contains (key : string) (msg : json) : M bool :=
  match msg with
  | JObj fields => ret (existsb (fun kv => String.eqb (fst kv) key) fields)
  | JArr items => ret (existsb (fun v => eq_str v key) items)
  | JStr s => ret (is_infix key s)
  | _ => raise TypeError
  end.

(** [msg[key]] *)
Definition getitem (msg : json) (key : string) : M json :=
  match msg with
  | JObj fields =>
      match find (fun kv => String.eqb (fst kv) key) fields with
      | Some kv => ret (snd kv)
      | None => raise KeyError
      end
  | _ => raise TypeError
  end.

(** [v.upper()] *)
Definition method_upper (v : json) : M string :=
  match v with
  | JStr s => ret (upper s)
  | _ => raise AttributeError
  end.

Definition msg_type_not_supported (msg : json) : string :=
  "Websocket: Message Type not Supported. Message: " ++ repr w msg.

Definition msg_not_supported (msg : json) : string :=
  "Websocket: Message Supported. Message: " ++ repr w msg.

Definition on_message (message : string) : M unit :=
  try_except
    (msg <- match loads w message with inl j => ret j | inr e => raise e end ;;
     has_status <- contains "status" msg ;;
     is_error <- (if has_status : bool
                  then v <- getitem msg "status" ;; ret (eq_str v "ERROR")
                  else ret false) ;;
     c <- get_self ;;
     if is_error : bool then
       for_each (fun h => call_handler Error h (PMsg msg)) (error_handlers c)
     else
       has_type <- contains "type" msg ;;
       if has_type : bool then
         v <- getitem msg "type" ;;
         msg_type <- method_upper v ;;
         if String.eqb msg_type "MD" then
           for_each (fun h => call_handler MarketData h (PMsg msg)) (market_data_handlers c)
         else if String.eqb msg_type "OR" then
           for_each (fun h => call_handler OrderReport h (PMsg msg)) (order_report_handlers c)
         else
           for_each (fun h => call_handler Error h (PText (msg_type_not_supported msg)))
                    (error_handlers c)
       else
         for_each (fun h => call_handler Error h (PText (msg_not_supported msg)))
                  (error_handlers c))
    on_exception.

(** *** Connection *)

(** The polling loop of [connect]:
    [while ws_thread.is_alive() and (sock is None or not sock.connected)
           and conn_timeout > 0: time.sleep(1); conn_timeout -= 1] *)
Fixpoint wait_for_connection (conn_timeout : nat) (thread conn : nat) : M unit :=
  match conn_timeout with
  | O => ret tt
  | S remaining =>
      n <- get_now ;;
      if thread_alive w thread n && negb (sock_connected w conn n)
      then sleep 1 ;; wait_for_connection remaining thread conn
      else ret tt
  end.

(** [self.environment[key]]: the environment is a dict of the registry that
    the rest of the program fills; a key that is not there raises
    [KeyError].  The value goes to the socket library unread. *)
Definition env_getitem (key : string) : M unit :=
  c <- get_self ;;
  n <- get_now ;;
  if environment_has w (environment c) key n then ret tt else raise KeyError.

(** The socket and the thread are named by the instant of their creation.
    The token and the URL are read before the socket is made and assigned,
    the heartbeat and the TLS options after that and before the thread is
    made; the trace records the environment of the socket. *)
Definition connect : M unit :=
  c <- get_self ;;
  n <- get_now ;;
  if match ws_thread c with
     | Some t => thread_alive w t n
     | None => false
     end
  then ret tt
  else
    env_getitem "token" ;;
    env_getitem "ws" ;;
    emit (EvSocket (environment c) n) ;;
    put_self (set_ws_connection (Some n) c) ;;
    env_getitem "heartbeat" ;;
    env_getitem "ssl_opt" ;;
    put_self (set_ws_thread (Some n) (set_ws_connection (Some n) c)) ;;
    emit (EvThreadStart n) ;;
    tick ;;
    wait_for_connection 5 n n ;;
    n' <- get_now ;;
    if negb (sock_connected w n n')
    then on_exception (ApiException "Connection could not be established.")
    else ret tt.

(** *** Subscriptions *)

(** [a == b] on two lists *)
Fixpoint list_eqb {A} (eqb : A -> A -> bool) (a b : list A) : bool :=
  match a, b with
  | [], [] => true
  | x :: a', y :: b' => eqb x y && list_eqb eqb a' b'
  | _, _ => false
  end.

(** The test of the scan in [market_data_subscription]:
    [sub['tickers'] == tickers and sub['market'] == market and
     sub['depth'] == depth and sub['entries'] == entries] *)
Definition md_same (tickers : list string) (entries : list MarketDataEntry)
    (market : Market) (depth : Z) (sub : MarketDataSub) : bool :=
  list_eqb String.eqb (sub_tickers sub) tickers
  && enum_eqb (sub_market sub) market
  && (sub_depth sub =? depth)%Z
  && list_eqb enum_eqb (sub_entries sub) entries.

(** [sub['account'] == account and sub['snapshot'] == snapshot] *)
Definition or_same (account : string) (snapshot : bool) (sub : OrderReportSub) : bool :=
  String.eqb (sub_account sub) account && Bool.eqb (sub_snapshot sub) snapshot.

(** The market data subscription message, built the same way by
    [market_data_subscription] and by [_restore_subscriptions]. *)
Definition md_message (tickers : list string) (entries : list MarketDataEntry)
    (market : Market) (depth : Z) : string :=
  let instruments :=
    map (fun ticker =>
           format (INSTRUMENT messages)
                  (fun f => match f with f_ticker => ticker | f_market => value market end))
        tickers in
  let instruments_string := join "," instruments in
  let entries' :=
    map (fun entry => format (DOUBLE_QUOTES messages) (fun _ => value entry)) entries in
  let entries_string := join "," entries' in
  format (MARKET_DATA_SUBSCRIPTION messages)
         (fun f => match f with
                   | f_depth => str_of_int depth
                   | f_entries => entries_string
                   | f_symbols => instruments_string
                   end).

(** The order report subscription message. *)
Definition or_message (account : string) (snapshot : bool) : string :=
  format (ORDER_SUBSCRIPTION messages)
         (fun f => match f with
                   | f_a => account
                   | f_snapshot => lower (str_of_bool snapshot)
                   end).

Definition market_data_subscription (tickers : list string)
    (entries : list MarketDataEntry) (market : Market) (depth : Z) : M unit :=
  let subscription_info :=
    {| sub_tickers := tickers; sub_entries := entries;
       sub_market := market; sub_depth := depth |} in
  c <- get_self ;;
  let subs := active_subscriptions c in
  let existing_sub := find (md_same tickers entries market depth) (market_data subs) in
  match existing_sub with
   | Some _ => ret tt
   | None =>
       put_self (set_active_subscriptions
                   {| market_data := market_data subs ++ [subscription_info];
                      order_report := order_report subs |} c) ;;
       log (LogSavedMD tickers (value market))
   end ;;
  ws_send (md_message tickers entries market depth).

Definition order_report_subscription (account : string) (snapshot : bool) : M unit :=
  let subscription_info := {| sub_account := account; sub_snapshot := snapshot |} in
  c <- get_self ;;
  let subs := active_subscriptions c in
  let existing_sub := find (or_same account snapshot) (order_report subs) in
  match existing_sub with
   | Some _ => ret tt
   | None =>
       put_self (set_active_subscriptions
                   {| market_data := market_data subs;
                      order_report := order_report subs ++ [subscription_info] |} c) ;;
       log (LogSavedOR account)
   end ;;
  ws_send (or_message account snapshot).

Definition cancel_order (client_order_id proprietary : string) : M unit :=
  ws_send (format (CANCEL_ORDER messages)
                  (fun f => match f with f_id => client_order_id | f_p => proprietary end)).

(** *** Orders *)

(** The local [opt_params] of [send_order] before it is formatted. *)
Definition send_order_opt_params (order_type : OrderType) (price : pyval)
    (time_in_force : TimeInForce) (iceberg : bool) (ws_client_order_id : pyval)
    : template opt_field :=
  let opt_params : template opt_field := [] in
  let opt_params :=
    if enum_eqb time_in_force GoodTillDate
    then (opt_params ++ GOOD_TILL_DATE messages)%list else opt_params in
  let opt_params :=
    if iceberg then (opt_params ++ ICEBERG messages)%list else opt_params in
  let opt_params :=
    if is_not_None ws_client_order_id
    then (opt_params ++ WS_CLIENT_ORDER_ID messages)%list else opt_params in
  let opt_params :=
    if is_not_None price && enum_eqb order_type LIMIT
    then (opt_params ++ PRICE messages)%list else opt_params in
  opt_params.

(** The keyword arguments of [opt_params.format(...)] *)
Definition opt_args (price : pyval) (iceberg : bool) (expire_date display_quantity
    ws_client_order_id : pyval) (f : opt_field) : string :=
  match f with
  | f_price => str price
  | f_iceberg => str_of_bool iceberg
  | f_expire_date => str expire_date
  | f_display_quantity => str display_quantity
  | f_wsClOrdID => str ws_client_order_id
  end.

(** The text that [send_order] hands to [ws_connection.send]. *)
Definition send_order_message (ticker : string) (size : Z) (side : Side)
    (order_type : OrderType) (account : string) (price : pyval)
    (time_in_force : TimeInForce) (market : Market)
    (cancel_previous iceberg : bool) (expire_date display_quantity : pyval)
    (all_or_none : bool) (ws_client_order_id : pyval) : string :=
  let opt_params :=
    send_order_opt_params order_type price time_in_force iceberg ws_client_order_id in
  let opt_params :=
    format opt_params
           (opt_args price iceberg expire_date display_quantity ws_client_order_id) in
  format (SEND_ORDER messages)
         (fun f => match f with
                   | o_market => value market
                   | o_ticker => ticker
                   | o_size => str_of_int size
                   | o_side => upper (value side)
                   | o_time_force => upper (value time_in_force)
                   | o_account => account
                   | o_cancel_previous => str_of_bool cancel_previous
                   | o_all_or_none => str_of_bool all_or_none
                   | o_order_type => value order_type
                   | o_optional_params => opt_params
                   end).

Definition send_order (ticker : string) (size : Z) (side : Side) (order_type : OrderType)
    (account : string) (price : pyval) (time_in_force : TimeInForce) (market : Market)
    (cancel_previous iceberg : bool) (expire_date display_quantity : pyval)
    (all_or_none : bool) (ws_client_order_id : pyval) : M unit :=
  ws_send (send_order_message ticker size side order_type account price time_in_force
             market cancel_previous iceberg expire_date display_quantity all_or_none
             ws_client_order_id).

(** *** Reconnection *)

Definition _restore_subscriptions : M unit :=
  try_except
    (c <- get_self ;;
     for_each (fun sub =>
                 log (LogRestoringMD (sub_tickers sub) (value (sub_market sub))) ;;
                 ws_send (md_message (sub_tickers sub) (sub_entries sub)
                                     (sub_market sub) (sub_depth sub)) ;;
                 sleep 0.1)
              (market_data (active_subscriptions c)) ;;
     c <- get_self ;;
     for_each (fun sub =>
                 log (LogRestoringOR (sub_account sub)) ;;
                 ws_send (or_message (sub_account sub) (sub_snapshot sub)) ;;
                 sleep 0.1)
              (order_report (active_subscriptions c)) ;;
     c <- get_self ;;
     if (0 <? List.length (market_data (active_subscriptions c)))%nat
        || (0 <? List.length (order_report (active_subscriptions c)))%nat
     then log LogRestored
     else ret tt)
    (fun e => log (LogRestoreFailed e)).

(** The scan of [globals.environment_config.items()] that looks up the REST
    client of this client and refreshes its token:
    [if env_config.get('ws_client') == self:
         rest_client = env_config.get('rest_client')
         if rest_client: rest_client.update_token(); ...; break] *)
Fixpoint refresh_token (me : ClientId) (registry : list (EnvKey * EnvConfig)) : M unit :=
  match registry with
  | [] => ret tt
  | (env_key, env_config) :: rest =>
      if match ws_client env_config with
         | Some c => Nat.eqb c me
         | None => false
         end
      then match rest_client env_config with
           | Some r => update_token r ;; log LogTokenUpdated
           | None => refresh_token me rest
           end
      else refresh_token me rest
  end.

Definition exhausted_message (max_attempts : Z) : string :=
  "Reconexión automática falló después de " ++ str_of_int max_attempts ++ " intentos".

(** [self.connect()] as the reconnection loop calls it.  The call is marked
    in the trace, so that the properties of the loop can speak of it. *)
Definition call_connect : M unit :=
  emit EvConnect ;;
  connect.

(** The end of both branches of an attempt, after [self.connect()]:
    [if self.is_connected(): logging.info(...); time.sleep(1);
     self._restore_subscriptions(); return].  [done] is the log record of
    the branch.  It yields [true] where the source returns from inside the
    loop, and [false] where the loop goes on. *)
Definition after_connect (done : log_record) : M bool :=
  up <- is_connected ;;
  if up : bool then
    log done ;;
    sleep 1 ;;
    _restore_subscriptions ;;
    ret true
  else ret false.

(** One attempt of [_attempt_reconnection] after its wait: the two branches
    of [if attempt == 1]. *)
Definition attempt_body (attempt : Z) : M bool :=
  if (attempt =? 1)%Z then
    log LogSimple ;;
    call_connect ;;
    after_connect LogSimpleDone
  else
    log LogReauth ;;
    c <- get_self ;;
    registry <- get_registry ;;
    refresh_token (self_id c) registry ;;
    call_connect ;;
    after_connect LogReauthDone.

(** The body of the [while] loop of [_attempt_reconnection]: one attempt,
    inside its [try]. *)
Definition attempt_once (attempt max_attempts : Z) (delay : Q) : M bool :=
  try_except
    (log (LogAttempt attempt max_attempts) ;;
     sleep delay ;;
     attempt_body attempt)
    (fun e => log (LogAttemptFailed attempt e) ;; ret false).

(** The [while attempt <= max_attempts] loop of [_attempt_reconnection] and
    what follows it.  [remaining] is the number of iterations left,
    [max_attempts - attempt + 1]. *)
Fixpoint reconnection_loop (remaining : nat) (attempt max_attempts : Z) (delay : Q)
    : M unit :=
  match remaining with
  | O =>
      log (LogExhausted max_attempts) ;;
      c <- get_self ;;
      match exception_handler c with
      | Some h => call_exception_handler h (ApiException (exhausted_message max_attempts))
      | None => ret tt
      end
  | S remaining' =>
      returned <- attempt_once attempt max_attempts delay ;;
      if returned : bool then ret tt
      else reconnection_loop remaining' (attempt + 1) max_attempts (delay * 2)
  end.

Definition _attempt_reconnection : M unit :=
  c <- get_self ;;
  if negb (auto_reconnect c) then ret tt
  else
    let max_attempts := max_reconnect_attempts c in
    let initial_delay := reconnect_delay c in
    let attempt := 1%Z in
    let delay := initial_delay in
    reconnection_loop (Z.to_nat (max_attempts - attempt + 1)) attempt max_attempts delay.

(** [set_auto_reconnect(enabled=True, max_attempts=3, delay=2)]; an
    argument that the caller leaves out is [None] here. *)
Definition set_auto_reconnect (enabled : option bool) (max_attempts : option Z)
    (delay : option Q) : M unit :=
  let enabled := match enabled with Some b => b | None => true end in
  let max_attempts := match max_attempts with Some n => n | None => 3%Z end in
  let delay := match delay with Some d => d | None => 2%Q end in
  c <- get_self ;;
  put_self (set_reconnect enabled max_attempts delay c) ;;
  log (LogConfigured enabled max_attempts delay).

Definition disable_auto_reconnect : M unit :=
  c <- get_self ;;
  put_self (set_reconnect false (max_reconnect_attempts c) (reconnect_delay c) c) ;;
  log LogDisabled.

Definition clear_subscriptions : M unit :=
  c <- get_self ;;
  put_self (set_active_subscriptions {| market_data := []; order_report := [] |} c) ;;
  log LogCleared.

Definition get_active_subscriptions : M Subscriptions :=
  c <- get_self ;;
  ret (active_subscriptions c).

End Client.

(** ** Reading the code's behaviour *)

(** *** The optional parameters of an order, as the design describes them *)

Inductive modifier := ModGoodTillDate | ModIceberg | ModClientOrderId | ModPrice.

(** The order of the fragments in the wire template. *)
Definition modifier_order : list modifier :=
  [ModGoodTillDate; ModIceberg; ModClientOrderId; ModPrice].

Definition modifier_template (messages : Messages) (m : modifier) : template opt_field :=
  match m with
  | ModGoodTillDate => GOOD_TILL_DATE messages
  | ModIceberg => ICEBERG messages
  | ModClientOrderId => WS_CLIENT_ORDER_ID messages
  | ModPrice => PRICE messages
  end.

(** Design, 4.3: good-till-date modifier iff time-in-force is the
    GoodTillDate variant; iceberg modifier iff the iceberg flag is set;
    client-order-id modifier iff a client order id is supplied; price
    modifier iff a price is given and the order type is Limit. *)
Definition spec_modifier_included (GoodTillDate : TimeInForce) (LIMIT : OrderType)
    (order_type : OrderType) (price : pyval) (time_in_force : TimeInForce)
    (iceberg : bool) (ws_client_order_id : pyval) (m : modifier) : bool :=
  match m with
  | ModGoodTillDate => enum_eqb time_in_force GoodTillDate
  | ModIceberg => iceberg
  | ModClientOrderId => is_not_None ws_client_order_id
  | ModPrice => is_not_None price && enum_eqb order_type LIMIT
  end.

Definition spec_modifiers (GoodTillDate : TimeInForce) (LIMIT : OrderType)
    (order_type : OrderType) (price : pyval) (time_in_force : TimeInForce)
    (iceberg : bool) (ws_client_order_id : pyval) : list modifier :=
  filter (spec_modifier_included GoodTillDate LIMIT order_type price time_in_force
            iceberg ws_client_order_id)
         modifier_order.

(** *** Reading a trace *)

(** The messages handed to [ws_connection.send], in order. *)
Fixpoint sends (tr : list event) : list (nat * string) :=
  match tr with
  | [] => []
  | EvSend conn message :: r => (conn, message) :: sends r
  | _ :: r => sends r
  end.

(** The state with more events in its trace. *)
Definition add_trace (tr : list event) (s : Sys) : Sys :=
  {| self := self s; environment_config := environment_config s;
     now := now s; trace := trace s ++ tr |}.

(** The events appended to the trace between two states. *)
Definition events_since (s s' : Sys) : list event :=
  skipn (List.length (trace s)) (trace s').

(** *** Dispatch *)

(** [self.market_data_handlers], [self.order_report_handlers],
    [self.error_handlers] *)
Definition handlers_of (cat : category) (c : WebSocketClient) : list handler :=
  match cat with
  | MarketData => market_data_handlers c
  | OrderReport => order_report_handlers c
  | Error => error_handlers c
  end.

(** The handlers that a loop [for handler in hs: handler(arg)] calls: those
    up to and including the first one that raises. *)
Fixpoint called (w : World) (arg : payload) (hs : list handler) : list handler :=
  match hs with
  | [] => []
  | h :: r => h :: match run_handler w h arg with
                   | None => called w arg r
                   | Some _ => []
                   end
  end.

(** The exception that ends such a loop, if any. *)
Fixpoint first_fault (w : World) (arg : payload) (hs : list handler) : option exn :=
  match hs with
  | [] => None
  | h :: r => match run_handler w h arg with
              | None => first_fault w arg r
              | Some e => Some e
              end
  end.

(** What reaches the exception sink of client [c] when it is given [e], and
    how the sink returns. *)
Definition sink_events (c : WebSocketClient) (e : exn) : list event :=
  match exception_handler c with
  | Some x => [EvExceptionHandler x e]
  | None => []
  end.

Definition sink_result (w : World) (c : WebSocketClient) (e : exn) : res unit :=
  match exception_handler c with
  | Some x => match run_exception_handler w x e with
              | None => Ok tt
              | Some e' => Raise e'
              end
  | None => Ok tt
  end.

(** [fields.get(key)] *)
Definition lookup (key : string) (fields : list (string * json)) : option json :=
  option_map snd (find (fun kv => String.eqb (fst kv) key) fields).

(** The frame carries [status = "ERROR"]. *)
Definition status_is_error (fields : list (string * json)) : bool :=
  match lookup "status" fields with
  | Some v => eq_str v "ERROR"
  | None => false
  end.

(** Design, 4.2: an inbound frame is classified as Error (explicit error
    status), typed Event (a discriminant that matches MD or OR without
    regard to case) or Unrecognized, and each class is routed to the
    matching category; unrecognized and unknown-discriminant frames go to
    the error category with a descriptive text.  [route] gives the category,
    the handlers and the argument of the dispatch, or the exception that the
    classification itself raises. *)
Definition route (w : World) (c : WebSocketClient) (msg : json)
    : (category * list handler * payload) + exn :=
  let unrecognized := inl (Error, error_handlers c, PText (msg_not_supported w msg)) in
  match msg with
  | JObj fields =>
      if status_is_error fields then inl (Error, error_handlers c, PMsg msg)
      else match lookup "type" fields with
           | None => unrecognized
           | Some (JStr t) =>
               if String.eqb (upper t) "MD"
               then inl (MarketData, market_data_handlers c, PMsg msg)
               else if String.eqb (upper t) "OR"
               then inl (OrderReport, order_report_handlers c, PMsg msg)
               else inl (Error, error_handlers c, PText (msg_type_not_supported w msg))
           | Some _ => inr AttributeError
           end
  | JArr items =>
      if existsb (fun v => eq_str v "status") items then inr TypeError
      else if existsb (fun v => eq_str v "type") items then inr TypeError
      else unrecognized
  | JStr text =>
      if is_infix "status" text then inr TypeError
      else if is_infix "type" text then inr TypeError
      else unrecognized
  | _ => inr TypeError
  end.

(** The events of a dispatch to the handlers [hs] of category [cat]. *)
Definition dispatch_events (w : World) (c : WebSocketClient) (cat : category)
    (hs : list handler) (arg : payload) : list event :=
  (map (fun h => EvHandler cat h arg) (called w arg hs)
   ++ match first_fault w arg hs with
      | Some e => sink_events c e
      | None => []
      end)%list.

Definition dispatch_result (w : World) (c : WebSocketClient)
    (hs : list handler) (arg : payload) : res unit :=
  match first_fault w arg hs with
  | Some e => sink_result w c e
  | None => Ok tt
  end.

(** *** Kinds of events *)

(** What a listener callback does to the fields of the client. *)
Definition callback_effect (cb : callback) (c : WebSocketClient) : WebSocketClient :=
  match cb with
  | CbOpen => set_connected true c
  | CbClose _ => set_connected false c
  end.

(** Events of the listener callbacks that run while the client sleeps. *)
Definition is_background (ev : event) : bool :=
  match ev with
  | EvLog (LogClosed _) | EvLog LogClosed1008 | EvSpawnReconnection => true
  | _ => false
  end.

(** Events of a call of [time.sleep]. *)
Definition is_sleep_event (ev : event) : bool :=
  match ev with
  | EvSleep _ => true
  | _ => is_background ev
  end.

(** Events of [connect], the call of the exception handler apart. *)
Definition is_connect_event (ev : event) : bool :=
  match ev with
  | EvSocket _ _ | EvThreadStart _ => true
  | _ => is_sleep_event ev
  end.

(** Events of [_restore_subscriptions]. *)
Definition is_restore_event (ev : event) : bool :=
  match ev with
  | EvSend _ _ | EvLog (LogRestoringMD _ _) | EvLog (LogRestoringOR _)
  | EvLog LogRestored | EvLog (LogRestoreFailed _) => true
  | _ => is_sleep_event ev
  end.

(** Events of an attempt after its call of [connect], the call of the
    exception handler apart: those of [connect] and of the replay. *)
Definition is_after_connect (ev : event) : bool :=
  match ev with
  | EvLog LogSimpleDone | EvLog LogReauthDone => true
  | _ => is_connect_event ev || is_restore_event ev
  end.

(** Events of one reconnection attempt after its opening log record, the
    call of the exception handler apart. *)
Definition is_attempt_event (ev : event) : bool :=
  match ev with
  | EvConnect | EvUpdateToken _ | EvLog LogTokenUpdated | EvLog LogSimple
  | EvLog LogReauth | EvLog (LogAttemptFailed _ _) => true
  | _ => is_after_connect ev
  end.

(** Events of an attempt after its call of [connect]. *)
Definition is_attempt_tail (ev : event) : bool :=
  match ev with
  | EvExceptionHandler _ _ | EvLog (LogAttemptFailed _ _) => true
  | _ => is_after_connect ev
  end.

(** The log record that opens an attempt. *)
Definition is_attempt_mark (ev : event) : bool :=
  match ev with
  | EvLog (LogAttempt _ _) => true
  | _ => false
  end.

(** Events that end a reconnection run which has used up its attempts. *)
Definition is_run_end (ev : event) : bool :=
  match ev with
  | EvLog (LogExhausted _) | EvExceptionHandler _ _ => true
  | _ => false
  end.

(** The durations handed to [time.sleep], in order. *)
Fixpoint sleeps (tr : list event) : list Q :=
  match tr with
  | [] => []
  | EvSleep seconds :: r => seconds :: sleeps r
  | _ :: r => sleeps r
  end.

(** *** Reading a reconnection run *)

(** The numbers of the attempts, from the log records that open them. *)
Fixpoint attempts (tr : list event) : list Z :=
  match tr with
  | [] => []
  | EvLog (LogAttempt attempt _) :: r => attempt :: attempts r
  | _ :: r => attempts r
  end.

(** The waits before the attempts: the sleep that directly follows the log
    record that opens an attempt. *)
Fixpoint backoff_delays (tr : list event) : list Q :=
  match tr with
  | [] => []
  | ev :: r =>
      match ev, r with
      | EvLog (LogAttempt _ _), EvSleep seconds :: _ => seconds :: backoff_delays r
      | _, _ => backoff_delays r
      end
  end.

(** [k] delays, each twice the one before. *)
Fixpoint doubling (delay : Q) (k : nat) : list Q :=
  match k with
  | O => []
  | S k' => delay :: doubling (delay * 2) k'
  end.

(** [k] attempt numbers from [attempt] on. *)
Fixpoint numbered (attempt : Z) (k : nat) : list Z :=
  match k with
  | O => []
  | S k' => attempt :: numbered (attempt + 1) k'
  end.

(** The REST client that the scan of the registry refreshes for the client
    [me]: that of the first entry whose [ws_client] is [me] and whose
    [rest_client] is set. *)
Fixpoint find_refresher (me : ClientId) (registry : list (EnvKey * EnvConfig))
    : option RestId :=
  match registry with
  | [] => None
  | (_, env_config) :: rest =>
      match ws_client env_config, rest_client env_config with
      | Some c, Some r => if Nat.eqb c me then Some r else find_refresher me rest
      | _, _ => find_refresher me rest
      end
  end.

(** The events of attempt number [attempt] after its wait, for a client
    whose refresher is [refresher]. *)
Inductive attempt_shape (attempt : Z) (refresher : option RestId) : list event -> Prop :=
| shape_simple tail :
    attempt = 1%Z ->
    Forall (fun ev => is_attempt_tail ev = true) tail ->
    attempt_shape attempt refresher (EvLog LogSimple :: EvConnect :: tail)
| shape_reauth_without_refresher tail :
    attempt <> 1%Z -> refresher = None ->
    Forall (fun ev => is_attempt_tail ev = true) tail ->
    attempt_shape attempt refresher (EvLog LogReauth :: EvConnect :: tail)
| shape_reauth r tail :
    attempt <> 1%Z -> refresher = Some r ->
    Forall (fun ev => is_attempt_tail ev = true) tail ->
    attempt_shape attempt refresher
      (EvLog LogReauth :: EvUpdateToken r :: EvLog LogTokenUpdated :: EvConnect :: tail)
| shape_refresh_raised r e :
    attempt <> 1%Z -> refresher = Some r ->
    attempt_shape attempt refresher
      [EvLog LogReauth; EvUpdateToken r; EvLog (LogAttemptFailed attempt e)].

(** [time.sleep] takes the length: it is not negative and within range. *)
Definition sleep_accepts (seconds : Q) : bool :=
  Qle_bool (Qabs seconds) sleep_limit && Qle_bool 0 seconds.

(** What [time.sleep] raises for a length that it does not take. *)
Definition sleep_error (seconds : Q) : exn :=
  if Qle_bool (Qabs seconds) sleep_limit then ValueError else OverflowError.

(** The events of a reconnection run from attempt number [attempt] on, whose
    wait is [delay]: the attempts one after the other, each opened by its
    log record, then the end of the run.  An attempt whose wait [time.sleep]
    takes goes on with the wait and the events of its branch; one whose
    wait is refused is logged as failed at once.  The wait doubles from one
    attempt to the next. *)
Inductive run_shape (max_attempts : Z) (refresher : option RestId)
    : Z -> Q -> list event -> Prop :=
| run_stops attempt delay tail :
    Forall (fun ev => is_run_end ev = true) tail ->
    run_shape max_attempts refresher attempt delay tail
| run_attempt attempt delay background body rest :
    sleep_accepts delay = true ->
    Forall (fun ev => is_background ev = true) background ->
    attempt_shape attempt refresher body ->
    run_shape max_attempts refresher (attempt + 1) (delay * 2) rest ->
    run_shape max_attempts refresher attempt delay
      (EvLog (LogAttempt attempt max_attempts) :: EvSleep delay
       :: background ++ body ++ rest)
| run_wait_refused attempt delay rest :
    sleep_accepts delay = false ->
    run_shape max_attempts refresher (attempt + 1) (delay * 2) rest ->
    run_shape max_attempts refresher attempt delay
      (EvLog (LogAttempt attempt max_attempts)
       :: EvLog (LogAttemptFailed attempt (sleep_error delay)) :: rest).

(** The number of calls of [connect] by the reconnection loop. *)
Fixpoint connects (tr : list event) : nat :=
  match tr with
  | [] => O
  | EvConnect :: r => S (connects r)
  | _ :: r => connects r
  end.

(** The attempts in which the reconnection loop calls [connect]: for each
    call, in order, the number of the attempt that is open; [current] is
    the attempt that is open at the start. *)
Fixpoint connect_calls (current : Z) (tr : list event) : list Z :=
  match tr with
  | [] => []
  | EvLog (LogAttempt attempt _) :: r => connect_calls attempt r
  | EvConnect :: r => current :: connect_calls current r
  | _ :: r => connect_calls current r
  end.

(** No refresh of the token of the client [me] raises. *)
Definition refresh_succeeds (w : World) (me : ClientId)
    (registry : list (EnvKey * EnvConfig)) : Prop :=
  forall r n, find_refresher me registry = Some r -> update_token_outcome w n r = None.

(** The number of rounds of the polling loop of [connect] that starts at
    instant [t] with [conn_timeout] rounds left. *)
Fixpoint polls (w : World) (thread conn t conn_timeout : nat) : nat :=
  match conn_timeout with
  | O => O
  | S remaining =>
      if thread_alive w thread t && negb (sock_connected w conn t)
      then S (polls w thread conn (S t) remaining)
      else O
  end.

(** The listener thread never runs [on_open]: the connection is never
    established. *)
Definition never_opens (w : World) : Prop :=
  forall n, ~ In CbOpen (listener w n).

(** *** Specifications of the methods *)

(** [run_spec I P total m]: started in a state whose client satisfies [I],
    [m] ends in such a state, leaves the environment registry alone, appends
    only events that satisfy [P] and, when [total] is set, returns without
    raising. *)
Definition run_spec (I : WebSocketClient -> Prop) (P : event -> Prop) (total : bool)
    {A} (m : M A) : Prop :=
  forall s, I (self s) ->
    I (self (snd (m s)))
    /\ environment_config (snd (m s)) = environment_config s
    /\ (exists tr, trace (snd (m s)) = trace s ++ tr /\ Forall P tr)%list
    /\ (total = true -> exists a, fst (m s) = Ok a).

(** The invariant [I] survives the callbacks that the world schedules. *)
Definition callbacks_ok (w : World) (I : WebSocketClient -> Prop) : Prop :=
  forall n cb c, In cb (listener w n) -> I c -> I (callback_effect cb c).

(** The invariant [I] does not depend on the socket and the thread. *)
Definition session_ok (I : WebSocketClient -> Prop) : Prop :=
  forall n c, I c ->
    I (set_ws_connection (Some n) c)
    /\ I (set_ws_thread (Some n) (set_ws_connection (Some n) c)).

(** Under [I], either no exception handler is set, or calling it is allowed
    by [P] and a raise is allowed ([total] is off). *)
Definition sink_ok (I : WebSocketClient -> Prop) (P : event -> Prop) (total : bool) : Prop :=
  forall c, I c ->
    match exception_handler c with
    | None => True
    | Some h => total = false /\ forall e, P (EvExceptionHandler h e)
    end.

(** The client [c] is [c0] up to the [connected] flag. *)
Definition same_but_connected (c0 c : WebSocketClient) : Prop :=
  set_connected false c = set_connected false c0.

(** The state after one external call that appends [tr] to the trace. *)
Definition advance (tr : list event) (s : Sys) : Sys :=
  {| self := self s; environment_config := environment_config s;
     now := S (now s); trace := trace s ++ tr |}.

(** The wire message that replays a ledger record. *)
Definition md_replay (messages : Messages) (conn : nat) (sub : MarketDataSub)
    : nat * string :=
  (conn, md_message messages (sub_tickers sub) (sub_entries sub)
           (sub_market sub) (sub_depth sub)).

Definition or_replay (messages : Messages) (conn : nat) (sub : OrderReportSub)
    : nat * string :=
  (conn, or_message messages (sub_account sub) (sub_snapshot sub)).

(** A consumer callback is called. *)
Definition is_callback_call (ev : event) : bool :=
  match ev with
  | EvHandler _ _ _ | EvExceptionHandler _ _ => true
  | _ => false
  end.

(** *** Sample collaborators *)

(** Templates in the style of components.messages. *)
Definition sample_messages : Messages := {|
  INSTRUMENT := [Lit "{symbol:"; Field f_ticker; Lit ",marketId:"; Field f_market; Lit "}"];
  DOUBLE_QUOTES := [Lit "'"; Field f_item; Lit "'"];
  MARKET_DATA_SUBSCRIPTION :=
    [Lit "{type:smd,depth:"; Field f_depth; Lit ",entries:["; Field f_entries;
     Lit "],products:["; Field f_symbols; Lit "]}"];
  ORDER_SUBSCRIPTION :=
    [Lit "{type:os,account:"; Field f_a; Lit ",snapshotOnlyActive:"; Field f_snapshot; Lit "}"];
  CANCEL_ORDER := [Lit "{type:co,clientId:"; Field f_id; Lit ",proprietary:"; Field f_p; Lit "}"];
  SEND_ORDER :=
    [Lit "{type:no,product:"; Field o_ticker; Lit ",quantity:"; Field o_size;
     Field o_optional_params; Lit "}"];
  GOOD_TILL_DATE := [Lit ",expireDate:"; Field f_expire_date];
  ICEBERG := [Lit ",iceberg:"; Field f_iceberg; Lit ",displayQuantity:"; Field f_display_quantity];
  WS_CLIENT_ORDER_ID := [Lit ",wsClOrdId:"; Field f_wsClOrdID];
  PRICE := [Lit ",price:"; Field f_price]
|}.

(** The frames of the sample world. *)
Definition sample_loads (message : string) : json + exn :=
  if String.eqb message "error"
  then inl (JObj [("status", JStr "ERROR"); ("type", JStr "MD")])
  else if String.eqb message "other" then inl (JObj [("type", JStr "XX")])
  else if String.eqb message "garbled" then inr JSONDecodeError
  else inl (JObj [("type", JStr "Md")]).

(** A world in which the venue cannot be reached: the first listener thread
    is dead, the later ones stay alive, the socket never opens, and the
    handler 2 raises. *)
Definition unreachable_world : World := {|
  loads := sample_loads;
  repr := fun _ => "{...}";
  run_handler := fun h _ => if Nat.eqb h 2 then Some (CallbackError 2) else None;
  run_exception_handler := fun _ _ => None;
  thread_alive := fun thread _ => negb (Nat.eqb thread 0);
  sock_connected := fun _ _ => false;
  listener := fun _ => [];
  send_outcome := fun _ _ => None;
  update_token_outcome := fun _ _ => None;
  environment_has := fun _ _ _ => true
|}.

(** A client connected on socket 0, registered for no environment. *)
Definition sample_client : WebSocketClient :=
  set_connected true (set_ws_thread (Some 0) (set_ws_connection (Some 0) (init 1 0))).

(** The same client with three market data handlers, one order report
    handler, two error handlers and an exception handler. *)
Definition dispatch_client : WebSocketClient :=
  set_exception_handler_field (Some 9) (set_handlers [1; 2; 3] [4] [5; 6] sample_client).

(** The same client with two market data subscriptions and one order
    report subscription in its ledger. *)
Definition subscribed_client : WebSocketClient :=
  set_active_subscriptions
    {| market_data :=
         [ {| sub_tickers := ["DLR/MAR23"]; sub_entries := [{| value := "BI" |}];
              sub_market := {| value := "ROFX" |}; sub_depth := 1 |};
           {| sub_tickers := ["DLR/ABR23"; "DLR/MAY23"];
              sub_entries := [{| value := "BI" |}; {| value := "OF" |}];
              sub_market := {| value := "ROFX" |}; sub_depth := 5 |} ];
       order_report := [ {| sub_account := "REM1234"; sub_snapshot := true |} ] |}
    sample_client.

(** The sample client after an abnormal closure: not connected, default
    reconnection settings. *)
Definition dropped_client : WebSocketClient := set_connected false sample_client.

(** A dropped client that allows two attempts, in a registry whose entry
    for the environment does not name it as [ws_client]. *)
Definition unregistered_sys : Sys :=
  {| self := set_reconnect true 2 2 dropped_client;
     environment_config := [(0%nat, {| ws_client := None; rest_client := Some 7%nat |})];
     now := 1; trace := [] |}.

Definition sample_sys (c : WebSocketClient) : Sys :=
  {| self := c; environment_config := []; now := 1; trace := [] |}.

(** *** The public operations *)

(** [add_market_data_handler], [add_order_report_handler] and
    [add_error_handler], by category. *)
Definition add_handler (cat : category) (h : handler) : M unit :=
  match cat with
  | MarketData => add_market_data_handler h
  | OrderReport => add_order_report_handler h
  | Error => add_error_handler h
  end.

(** [remove_market_data_handler], [remove_order_report_handler] and
    [remove_error_handler], by category. *)
Definition remove_handler (cat : category) (h : handler) : M unit :=
  match cat with
  | MarketData => remove_market_data_handler h
  | OrderReport => remove_order_report_handler h
  | Error => remove_error_handler h
  end.

(** The arguments of [send_order]. *)
Record OrderRequest := {
  rq_ticker : string;
  rq_size : Z;
  rq_side : Side;
  rq_order_type : OrderType;
  rq_account : string;
  rq_price : pyval;
  rq_time_in_force : TimeInForce;
  rq_market : Market;
  rq_cancel_previous : bool;
  rq_iceberg : bool;
  rq_expire_date : pyval;
  rq_display_quantity : pyval;
  rq_all_or_none : bool;
  rq_ws_client_order_id : pyval
}.

(** What can happen to a client: a call of one of its public methods by the
    application, a callback run by the listener thread, or a run of the
    recovery thread. *)
Inductive operation :=
| OpAddHandler (cat : category) (h : handler)
| OpRemoveHandler (cat : category) (h : handler)
| OpSetExceptionHandler (h : option handler)
| OpConnect
| OpCloseConnection
| OpMarketDataSubscription (tickers : list string) (entries : list MarketDataEntry)
    (market : Market) (depth : Z)
| OpOrderReportSubscription (account : string) (snapshot : bool)
| OpCancelOrder (client_order_id proprietary : string)
| OpSendOrder (rq : OrderRequest)
| OpSetAutoReconnect (enabled : option bool) (max_attempts : option Z) (delay : option Q)
| OpDisableAutoReconnect
| OpClearSubscriptions
| OpOnMessage (message : string)
| OpOnError (exception : exn)
| OpOnOpen
| OpOnClose (close_status_code : Z)
| OpAttemptReconnection.

Definition run_operation (w : World) (messages : Messages)
    (GoodTillDate : TimeInForce) (LIMIT : OrderType) (op : operation) : M unit :=
  match op with
  | OpAddHandler cat h => add_handler cat h
  | OpRemoveHandler cat h => remove_handler cat h
  | OpSetExceptionHandler h => set_exception_handler h
  | OpConnect => connect w
  | OpCloseConnection => close_connection
  | OpMarketDataSubscription tickers entries market depth =>
      market_data_subscription w messages tickers entries market depth
  | OpOrderReportSubscription account snapshot =>
      order_report_subscription w messages account snapshot
  | OpCancelOrder client_order_id proprietary =>
      cancel_order w messages client_order_id proprietary
  | OpSendOrder rq =>
      send_order w messages GoodTillDate LIMIT (rq_ticker rq) (rq_size rq) (rq_side rq)
        (rq_order_type rq) (rq_account rq) (rq_price rq) (rq_time_in_force rq)
        (rq_market rq) (rq_cancel_previous rq) (rq_iceberg rq) (rq_expire_date rq)
        (rq_display_quantity rq) (rq_all_or_none rq) (rq_ws_client_order_id rq)
  | OpSetAutoReconnect enabled max_attempts delay =>
      set_auto_reconnect enabled max_attempts delay
  | OpDisableAutoReconnect => disable_auto_reconnect
  | OpClearSubscriptions => clear_subscriptions
  | OpOnMessage message => on_message w message
  | OpOnError exception => on_error w exception
  | OpOnOpen => on_open
  | OpOnClose close_status_code => on_close close_status_code
  | OpAttemptReconnection => _attempt_reconnection w messages
  end.

(** A sequence of operations, one after the other; an operation that raises
    leaves the state it has reached, and the next one goes on from there. *)
Fixpoint run_operations (w : World) (messages : Messages)
    (GoodTillDate : TimeInForce) (LIMIT : OrderType)
    (ops : list operation) (s : Sys) : Sys :=
  match ops with
  | [] => s
  | op :: rest =>
      run_operations w messages GoodTillDate LIMIT rest
        (snd (run_operation w messages GoodTillDate LIMIT op s))
  end.

(** No handler list and no ledger list holds an entry twice. *)
Definition client_ok (c : WebSocketClient) : Prop :=
  NoDup (market_data_handlers c)
  /\ NoDup (order_report_handlers c)
  /\ NoDup (error_handlers c)
  /\ NoDup (market_data (active_subscriptions c))
  /\ NoDup (order_report (active_subscriptions c)).

(** *** A working venue *)

(** The frames of the working world. *)
Definition working_loads (message : string) : json + exn :=
  if String.eqb message "heartbeat" then inl (JObj [("msg", JStr "ok")])
  else if String.eqb message "five" then inl (JNum "5")
  else if String.eqb message "typed" then inl (JObj [("type", JNum "5")])
  else if String.eqb message "report" then inl (JObj [("type", JStr "or")])
  else if String.eqb message "garbled" then inr JSONDecodeError
  else inl (JObj [("type", JStr "Md")]).

(** A world in which everything works: the listener thread of a new socket
    stays alive, the socket opens during the first second, [on_open] runs
    then, every send and every token refresh goes through, and no callback
    raises. *)
Definition working_world : World := {|
  loads := working_loads;
  repr := fun _ => "{...}";
  run_handler := fun _ _ => None;
  run_exception_handler := fun _ _ => None;
  thread_alive := fun thread _ => negb (Nat.eqb thread 0);
  sock_connected := fun conn n => Nat.ltb (S conn) n;
  listener := fun n => if Nat.eqb n 3 then [CbOpen] else [];
  send_outcome := fun _ _ => None;
  update_token_outcome := fun _ _ => None;
  environment_has := fun _ _ _ => true
|}.

(** A world in which the venue cannot be reached and every call of the
    exception handler raises. *)
Definition strict_world : World := {|
  loads := sample_loads;
  repr := fun _ => "{...}";
  run_handler := fun _ _ => None;
  run_exception_handler := fun h _ => Some (CallbackError h);
  thread_alive := fun thread _ => negb (Nat.eqb thread 0);
  sock_connected := fun _ _ => false;
  listener := fun _ => [];
  send_outcome := fun _ _ => None;
  update_token_outcome := fun _ _ => None;
  environment_has := fun _ _ _ => true
|}.

(** A working world in which the environments hold no token. *)
Definition tokenless_world : World := {|
  loads := working_loads;
  repr := fun _ => "{...}";
  run_handler := fun _ _ => None;
  run_exception_handler := fun _ _ => None;
  thread_alive := fun thread _ => negb (Nat.eqb thread 0);
  sock_connected := fun conn n => Nat.ltb (S conn) n;
  listener := fun n => if Nat.eqb n 3 then [CbOpen] else [];
  send_outcome := fun _ _ => None;
  update_token_outcome := fun _ _ => None;
  environment_has := fun _ key _ => negb (String.eqb key "token")
|}.

(** * Properties *)

(** ** Basic facts *)

Lemma enum_eqb_eq (a b : Enum) : enum_eqb a b = true <-> a = b.
Proof.
  destruct a as [x], b as [y]; unfold enum_eqb; simpl.
  rewrite String.eqb_eq. split; [intros -> | intros [= ->]]; reflexivity.
Qed.

Lemma is_not_None_spec (v : pyval) : is_not_None v = true <-> v <> PyNone.
Proof.
  destruct v; simpl; split; intros H; try reflexivity; try discriminate; congruence.
Qed.

Lemma append_assoc (a b c : string) : (a ++ b) ++ c = a ++ (b ++ c).
Proof. induction a; simpl; [reflexivity | now f_equal]. Qed.

Lemma append_empty_r (s : string) : s ++ "" = s.
Proof. induction s; simpl; [reflexivity | now f_equal]. Qed.

Lemma format_app {F} (a b : template F) (args : F -> string) :
  format (a ++ b)%list args = format a args ++ format b args.
Proof.
  induction a as [|[text|name] a IH]; simpl.
  - reflexivity.
  - now rewrite IH, append_assoc.
  - now rewrite IH, append_assoc.
Qed.

Lemma format_ext {F} (t : template F) (f g : F -> string) :
  (forall x, f x = g x) -> format t f = format t g.
Proof.
  intros E. induction t as [|[text|name] t IH]; simpl; [reflexivity | now rewrite IH |].
  now rewrite E, IH.
Qed.

(** ** Reconnection settings *)

(** C10. Every call of [set_auto_reconnect] assigns the three reconnection
    fields from its parameters, a parameter left out taking its default;
    so a call that gives only the enabled flag sets [max_reconnect_attempts]
    to 3 and [reconnect_delay] to 2 whatever they were before.  The call
    returns normally and leaves the other fields of the client alone. *)
Theorem set_auto_reconnect_assigns_all_fields
    (s : Sys) (enabled : option bool) (max_attempts : option Z) (delay : option Q) :
  let r := set_auto_reconnect enabled max_attempts delay s in
  let r1 := set_auto_reconnect enabled None None s in
  fst r = Ok tt
  /\ auto_reconnect (self (snd r)) = match enabled with Some b => b | None => true end
  /\ max_reconnect_attempts (self (snd r))
     = match max_attempts with Some n => n | None => 3%Z end
  /\ reconnect_delay (self (snd r)) = match delay with Some d => d | None => 2%Q end
  /\ max_reconnect_attempts (self (snd r1)) = 3%Z
  /\ reconnect_delay (self (snd r1)) = 2%Q
  /\ active_subscriptions (self (snd r)) = active_subscriptions (self s)
  /\ exception_handler (self (snd r)) = exception_handler (self s)
  /\ connected (self (snd r)) = connected (self s).
Proof.
  cbv [set_auto_reconnect bind get_self put_self log emit set_reconnect]; simpl.
  repeat split; reflexivity.
Qed.

(** ** Order encoding *)

Section Orders.

Variable w : World.
Variable messages : Messages.
Variable GoodTillDate : TimeInForce.
Variable LIMIT : OrderType.

Lemma opt_params_modifiers order_type price time_in_force iceberg ws_client_order_id :
  send_order_opt_params messages GoodTillDate LIMIT order_type price time_in_force
    iceberg ws_client_order_id
  = flat_map (modifier_template messages)
      (spec_modifiers GoodTillDate LIMIT order_type price time_in_force iceberg
         ws_client_order_id).
Proof.
  unfold send_order_opt_params, spec_modifiers, modifier_order; simpl.
  destruct (enum_eqb time_in_force GoodTillDate), iceberg,
    (is_not_None ws_client_order_id), (is_not_None price && enum_eqb order_type LIMIT);
    simpl; rewrite ?app_nil_r, <- ?app_assoc; reflexivity.
Qed.

Lemma format_flat_map (mods : list modifier) (args : opt_field -> string) :
  format (flat_map (modifier_template messages) mods) args
  = String.concat "" (map (fun m => format (modifier_template messages m) args) mods).
Proof.
  induction mods as [|m mods IH]; simpl; [reflexivity|].
  rewrite format_app, IH. destruct mods; simpl; [now rewrite append_empty_r | reflexivity].
Qed.

(** C7. A call of [send_order] on a client with a socket hands exactly one
    message to the socket: the order template filled with the arguments,
    whose optional-parameter fragment is the concatenation, in the fixed
    order good-till-date, iceberg, client-order-id, price, of the formatted
    templates of exactly these modifiers: the price modifier iff [price] is
    not [None] and [order_type] is [LIMIT], the good-till-date modifier iff
    [time_in_force] is [GoodTillDate], the iceberg modifier iff [iceberg] is
    set, and the client-order-id modifier iff [ws_client_order_id] is not
    [None]. *)
Theorem send_order_optional_params
    ticker size side order_type account price time_in_force market
    cancel_previous iceberg expire_date display_quantity all_or_none ws_client_order_id :
  let mods := spec_modifiers GoodTillDate LIMIT order_type price time_in_force iceberg
                ws_client_order_id in
  let args := opt_args price iceberg expire_date display_quantity ws_client_order_id in
  let fragment :=
    String.concat "" (map (fun m => format (modifier_template messages m) args) mods) in
  let text :=
    format (SEND_ORDER messages)
      (fun f => match f with
                | o_market => value market
                | o_ticker => ticker
                | o_size => str_of_int size
                | o_side => upper (value side)
                | o_time_force => upper (value time_in_force)
                | o_account => account
                | o_cancel_previous => str_of_bool cancel_previous
                | o_all_or_none => str_of_bool all_or_none
                | o_order_type => value order_type
                | o_optional_params => fragment
                end) in
  (forall (s : Sys) (conn : nat),
      ws_connection (self s) = Some conn ->
      send_order w messages GoodTillDate LIMIT ticker size side order_type account price
        time_in_force market cancel_previous iceberg expire_date display_quantity
        all_or_none ws_client_order_id s
      = (match send_outcome w (now s) text with
         | None => Ok tt
         | Some e => Raise e
         end, advance [EvSend conn text] s))
  /\ send_order_opt_params messages GoodTillDate LIMIT order_type price time_in_force
       iceberg ws_client_order_id
     = flat_map (modifier_template messages) mods
  /\ send_order_message messages GoodTillDate LIMIT ticker size side order_type account
       price time_in_force market cancel_previous iceberg expire_date display_quantity
       all_or_none ws_client_order_id
     = text
  /\ (exists keep, mods = filter keep modifier_order)
  /\ (In ModPrice mods <-> price <> PyNone /\ order_type = LIMIT)
  /\ (In ModGoodTillDate mods <-> time_in_force = GoodTillDate)
  /\ (In ModIceberg mods <-> iceberg = true)
  /\ (In ModClientOrderId mods <-> ws_client_order_id <> PyNone).
Proof.
  intros mods args fragment text.
  assert (Hin : forall m, In m mods <->
            spec_modifier_included GoodTillDate LIMIT order_type price time_in_force
              iceberg ws_client_order_id m = true).
  { intros m. unfold mods, spec_modifiers. rewrite filter_In.
    split; [tauto | intros H; split; [|exact H]].
    destruct m; simpl; tauto. }
  assert (Htext : send_order_message messages GoodTillDate LIMIT ticker size side
                    order_type account price time_in_force market cancel_previous
                    iceberg expire_date display_quantity all_or_none ws_client_order_id
                  = text).
  { unfold send_order_message, text, fragment. apply format_ext.
    intros [] ; try reflexivity.
    rewrite opt_params_modifiers. apply format_flat_map. }
  split.
  { intros s conn Hc. unfold send_order. rewrite Htext.
    unfold ws_send, bind, get_self, get_now. rewrite Hc. simpl.
    destruct (send_outcome w (now s) text); reflexivity. }
  split; [apply opt_params_modifiers|].
  split; [exact Htext|].
  split; [eexists; reflexivity|].
  rewrite !Hin; simpl.
  rewrite andb_true_iff, !enum_eqb_eq, !is_not_None_spec.
  tauto.
Qed.

End Orders.

(** A limit order with a price and a client order id, sent by the sample
    client. *)
Lemma send_order_optional_params_example :
  send_order working_world sample_messages {| value := "GTD" |} {| value := "LIMIT" |}
    "DLR/MAR23" 10 {| value := "buy" |} {| value := "LIMIT" |} "REM1234"
    (PyFloat "55.8") {| value := "DAY" |} {| value := "ROFX" |} false false PyNone PyNone
    false (PyStr "abc") (sample_sys sample_client)
  = (Ok tt,
     advance [EvSend 0 "{type:no,product:DLR/MAR23,quantity:10,wsClOrdId:abc,price:55.8}"]
       (sample_sys sample_client)).
Proof.
  exact (proj1 (send_order_optional_params working_world sample_messages
                  {| value := "GTD" |} {| value := "LIMIT" |}
                  "DLR/MAR23" 10 {| value := "buy" |} {| value := "LIMIT" |} "REM1234"
                  (PyFloat "55.8") {| value := "DAY" |} {| value := "ROFX" |} false false
                  PyNone PyNone false (PyStr "abc"))
               (sample_sys sample_client) 0%nat eq_refl).
Defined.

(** ** The subscription ledger *)

Lemma list_eqb_eq {A} (eqb : A -> A -> bool) :
  (forall x y, eqb x y = true <-> x = y) ->
  forall a b, list_eqb eqb a b = true <-> a = b.
Proof.
  intros H. induction a as [|x a IH]; intros [|y b]; simpl;
    try (split; [discriminate | discriminate]); [tauto|].
  rewrite andb_true_iff, H, IH. split; [intros [-> ->] | intros [= -> ->]]; auto.
Qed.

(** The scan's test is structural equality with the record built from the
    parameters. *)
Lemma md_same_eq tickers entries market depth sub :
  md_same tickers entries market depth sub = true
  <-> sub = {| sub_tickers := tickers; sub_entries := entries;
               sub_market := market; sub_depth := depth |}.
Proof.
  unfold md_same. rewrite !andb_true_iff, Z.eqb_eq, enum_eqb_eq.
  rewrite (list_eqb_eq String.eqb String.eqb_eq), (list_eqb_eq enum_eqb enum_eqb_eq).
  destruct sub as [t e m d]; simpl.
  split; [intros [[[-> ->] ->] ->] | intros [= -> -> -> ->]]; auto.
Qed.

Lemma sends_app (a b : list event) : sends (a ++ b) = (sends a ++ sends b)%list.
Proof.
  induction a as [|ev a IH]; simpl; [reflexivity|].
  destruct ev; simpl; rewrite IH; reflexivity.
Qed.

Lemma find_none_filter {A} (f : A -> bool) (l : list A) :
  find f l = None -> filter f l = [].
Proof.
  induction l as [|x l IH]; simpl; [reflexivity|].
  destruct (f x); [discriminate | exact IH].
Qed.

Lemma filter_none {A} (f : A -> bool) (l : list A) :
  (forall z, In z l -> f z = false) -> filter f l = [].
Proof.
  induction l as [|x l IH]; simpl; intros H; [reflexivity|].
  rewrite (H x (or_introl eq_refl)). apply IH. intros z Hz. apply H. now right.
Qed.

Lemma filter_one_of_nodup {A} (f : A -> bool) (x : A) (l : list A) :
  (forall y, f y = true <-> y = x) -> NoDup l -> In x l ->
  List.length (filter f l) = 1%nat.
Proof.
  intros Hf Hnd. induction Hnd as [|y l Hnin Hnd IH]; simpl; [intros []|].
  intros [-> | Hin].
  - rewrite (proj2 (Hf x) eq_refl). simpl. f_equal.
    rewrite filter_none; [reflexivity|].
    intros z Hz. destruct (f z) eqn:E; [|reflexivity].
    apply Hf in E. subst z. contradiction.
  - destruct (f y) eqn:E.
    + apply Hf in E. subst y. contradiction.
    + apply IH, Hin.
Qed.

Section Ledger.

Variable w : World.
Variable messages : Messages.

(** One call of [market_data_subscription] on a client that has a socket:
    the record is appended unless the scan finds it, and the message is
    handed to the socket in both cases. *)
Lemma market_data_subscription_run tickers entries market depth s conn :
  ws_connection (self s) = Some conn ->
  let sub := {| sub_tickers := tickers; sub_entries := entries;
                sub_market := market; sub_depth := depth |} in
  let ledger := market_data (active_subscriptions (self s)) in
  let known := find (md_same tickers entries market depth) ledger in
  let s' := snd (market_data_subscription w messages tickers entries market depth s) in
  market_data (active_subscriptions (self s'))
  = (match known with Some _ => ledger | None => ledger ++ [sub] end)%list
  /\ order_report (active_subscriptions (self s'))
     = order_report (active_subscriptions (self s))
  /\ ws_connection (self s') = Some conn
  /\ sends (trace s')
     = (sends (trace s) ++ [(conn, md_message messages tickers entries market depth)])%list.
Proof.
  intros Hc sub ledger known s'. subst s' known ledger.
  unfold market_data_subscription, bind, get_self, ws_send. simpl.
  destruct (find _ _) eqn:Hf; simpl.
  - unfold bind, get_self, get_now, emit, tick; simpl. rewrite Hc. simpl.
    destruct (send_outcome _ _ _); simpl; rewrite sends_app; simpl; auto.
  - unfold bind, get_self, get_now, emit, tick, put_self, log; simpl. rewrite Hc. simpl.
    destruct (send_outcome _ _ _); simpl; rewrite !sends_app; simpl;
      rewrite app_nil_r; auto.
Qed.

(** C4. Two calls of [market_data_subscription] with the same tickers,
    entries, market and depth, made on a client that has a socket and whose
    ledger holds no record twice, leave exactly one record in the ledger
    that matches these parameters, and hand the subscription message to the
    socket twice, once per call.  The ledger still holds no record twice. *)
Theorem market_data_subscription_twice tickers entries market depth s conn :
  NoDup (market_data (active_subscriptions (self s))) ->
  ws_connection (self s) = Some conn ->
  let message := md_message messages tickers entries market depth in
  let s1 := snd (market_data_subscription w messages tickers entries market depth s) in
  let s2 := snd (market_data_subscription w messages tickers entries market depth s1) in
  List.length (filter (md_same tickers entries market depth)
                 (market_data (active_subscriptions (self s2)))) = 1%nat
  /\ sends (trace s2) = (sends (trace s) ++ [(conn, message); (conn, message)])%list
  /\ NoDup (market_data (active_subscriptions (self s2))).
Proof.
  intros Hnd Hc message s1 s2.
  destruct (market_data_subscription_run tickers entries market depth s conn Hc)
    as (L1 & _ & Hc1 & T1). fold s1 in L1, Hc1, T1.
  destruct (market_data_subscription_run tickers entries market depth s1 conn Hc1)
    as (L2 & _ & _ & T2). fold s2 in L2, T2.
  set (sub := {| sub_tickers := tickers; sub_entries := entries;
                 sub_market := market; sub_depth := depth |}) in *.
  set (ledger := market_data (active_subscriptions (self s))) in *.
  assert (Hsame : forall y, md_same tickers entries market depth y = true <-> y = sub)
    by (intros y; apply md_same_eq).
  assert (Hfinal : market_data (active_subscriptions (self s2))
                   = market_data (active_subscriptions (self s1))
                   /\ In sub (market_data (active_subscriptions (self s1)))
                   /\ NoDup (market_data (active_subscriptions (self s1)))).
  { rewrite L2, L1. destruct (find _ ledger) as [x|] eqn:Hf.
    - rewrite Hf. apply find_some in Hf as [Hin Hx]. apply Hsame in Hx. subst x. auto.
    - assert (Hnin : ~ In sub ledger).
      { intros Hin. apply (find_none _ _ Hf) in Hin.
        rewrite (proj2 (Hsame sub) eq_refl) in Hin. discriminate. }
      assert (Hin' : In sub (ledger ++ [sub])) by (apply in_or_app; right; left; reflexivity).
      destruct (find _ (ledger ++ [sub])) as [x|] eqn:Hf'.
      + repeat split; auto.
        apply NoDup_app; [exact Hnd | repeat constructor; intros [] | ].
        intros x0 Hx0 [<- | []]. contradiction.
      + apply (find_none _ _ Hf') in Hin'.
        rewrite (proj2 (Hsame sub) eq_refl) in Hin'. discriminate. }
  destruct Hfinal as (E & Hin & Hnd1).
  split; [|split].
  - rewrite E. apply (filter_one_of_nodup _ sub); assumption.
  - rewrite T2, T1, <- app_assoc. reflexivity.
  - rewrite E. exact Hnd1.
Qed.

End Ledger.

(** The theorem at a freshly connected client that subscribes twice to the
    same two instruments. *)
Lemma market_data_subscription_twice_example :
  List.length
    (market_data (active_subscriptions (self
      (snd (market_data_subscription unreachable_world sample_messages
              ["DLR/MAR23"; "DLR/ABR23"] [{| value := "BI" |}] {| value := "ROFX" |} 2
         (snd (market_data_subscription unreachable_world sample_messages
                 ["DLR/MAR23"; "DLR/ABR23"] [{| value := "BI" |}] {| value := "ROFX" |} 2
                 (sample_sys sample_client)))))))) = 1%nat
  /\ List.length
       (sends (trace
         (snd (market_data_subscription unreachable_world sample_messages
                 ["DLR/MAR23"; "DLR/ABR23"] [{| value := "BI" |}] {| value := "ROFX" |} 2
            (snd (market_data_subscription unreachable_world sample_messages
                    ["DLR/MAR23"; "DLR/ABR23"] [{| value := "BI" |}] {| value := "ROFX" |} 2
                    (sample_sys sample_client))))))) = 2%nat.
Proof.
  destruct (market_data_subscription_twice unreachable_world sample_messages
              ["DLR/MAR23"; "DLR/ABR23"] [{| value := "BI" |}] {| value := "ROFX" |} 2
              (sample_sys sample_client) 0%nat (NoDup_nil _) eq_refl) as (H1 & H2 & _).
  split.
  - vm_compute. reflexivity.
  - rewrite H2. reflexivity.
Defined.

(** ** Dispatch of inbound frames *)

Lemma add_trace_nil (s : Sys) : add_trace [] s = s.
Proof. destruct s; unfold add_trace; simpl. now rewrite app_nil_r. Qed.

Lemma add_trace_add_trace (a b : list event) (s : Sys) :
  add_trace b (add_trace a s) = add_trace (a ++ b) s.
Proof. unfold add_trace; simpl. now rewrite app_assoc. Qed.

Lemma emit_run (e : event) (s : Sys) : emit e s = (Ok tt, add_trace [e] s).
Proof. reflexivity. Qed.

Lemma existsb_of_find_some {A} (f : A -> bool) (l : list A) (x : A) :
  find f l = Some x -> existsb f l = true.
Proof.
  intros H. apply existsb_exists. exists x. apply find_some in H. exact H.
Qed.

Lemma existsb_of_find_none {A} (f : A -> bool) (l : list A) :
  find f l = None -> existsb f l = false.
Proof.
  intros H. destruct (existsb f l) eqn:Ex; [|reflexivity].
  apply existsb_exists in Ex as (x & Hin & Hx).
  now rewrite (find_none _ _ H x Hin) in Hx.
Qed.

Section Dispatch.

Variable w : World.

(** The loop over a handler list stops at the first handler that raises. *)
Lemma dispatch_loop_run (cat : category) (arg : payload) (hs : list handler) (s : Sys) :
  for_each (fun h => call_handler w cat h arg) hs s
  = (match first_fault w arg hs with Some e => Raise e | None => Ok tt end,
     add_trace (map (fun h => EvHandler cat h arg) (called w arg hs)) s).
Proof.
  revert s. induction hs as [|h hs IH]; intros s; simpl.
  - now rewrite add_trace_nil.
  - unfold bind, call_handler at 1, bind. rewrite emit_run.
    destruct (run_handler w h arg) as [e|]; simpl.
    + reflexivity.
    + rewrite IH, add_trace_add_trace. reflexivity.
Qed.

Lemma on_exception_run (e : exn) (s : Sys) :
  on_exception w e s = (sink_result w (self s) e, add_trace (sink_events (self s) e) s).
Proof.
  unfold on_exception, bind, get_self, sink_result, sink_events, call_exception_handler.
  destruct (exception_handler (self s)) as [x|]; simpl.
  - unfold bind. rewrite emit_run. destruct (run_exception_handler w x e); reflexivity.
  - now rewrite add_trace_nil.
Qed.

(** [on_message] decodes, routes and dispatches; whatever is raised on the
    way goes to the exception sink. *)
Lemma on_message_route (message : string) (s : Sys) :
  on_message w message s
  = try_except
      (match loads w message with
       | inr e => raise e
       | inl msg =>
           match route w (self s) msg with
           | inr e => raise e
           | inl (cat, hs, arg) => for_each (fun h => call_handler w cat h arg) hs
           end
       end)
      (on_exception w) s.
Proof.
  unfold on_message, try_except.
  destruct (loads w message) as [msg|e]; [|reflexivity].
  unfold bind at 1. unfold ret at 1.
  destruct msg as [| b | n | text | items | fields]; try reflexivity.
  - (* a string *)
    unfold bind, contains, getitem, ret, raise, route; simpl.
    destruct (is_infix "status" text); [reflexivity|]. simpl.
    destruct (is_infix "type" text); reflexivity.
  - (* a list *)
    unfold bind, contains, getitem, ret, raise, route; simpl.
    destruct (existsb _ items); [reflexivity|]. simpl.
    destruct (existsb _ items); reflexivity.
  - (* an object *)
    unfold bind, contains, getitem, ret, raise, route, status_is_error, lookup,
      get_self, method_upper; simpl.
    destruct (find (fun kv => String.eqb (fst kv) "status") fields) as [kv|] eqn:Hs;
      [rewrite (existsb_of_find_some _ _ _ Hs) | rewrite (existsb_of_find_none _ _ Hs)];
      simpl.
    1: destruct (eq_str (snd kv) "ERROR"); [reflexivity|].
    all: destruct (find (fun kv0 => String.eqb (fst kv0) "type") fields) as [kt|] eqn:Ht;
      [rewrite (existsb_of_find_some _ _ _ Ht) | rewrite (existsb_of_find_none _ _ Ht)];
      simpl; try reflexivity.
    all: destruct (snd kt) as [| b | n | t | items | fs]; try reflexivity.
    all: simpl; destruct (String.eqb (upper t) "MD"); [reflexivity|].
    all: destruct (String.eqb (upper t) "OR"); reflexivity.
Qed.

(** A frame that decodes and routes is dispatched to the routed handlers. *)
Lemma on_message_dispatch (message : string) (s : Sys) msg cat hs arg :
  loads w message = inl msg ->
  route w (self s) msg = inl (cat, hs, arg) ->
  on_message w message s
  = (dispatch_result w (self s) hs arg,
     add_trace (dispatch_events w (self s) cat hs arg) s).
Proof.
  intros Hl Hr. rewrite on_message_route, Hl, Hr.
  unfold try_except. rewrite dispatch_loop_run.
  unfold dispatch_result, dispatch_events.
  destruct (first_fault w arg hs) as [e|].
  - rewrite on_exception_run. simpl. now rewrite add_trace_add_trace.
  - now rewrite app_nil_r.
Qed.

Lemma events_since_add_trace (tr : list event) (s : Sys) :
  events_since s (add_trace tr s) = tr.
Proof.
  unfold events_since, add_trace; simpl.
  rewrite skipn_app, skipn_all, Nat.sub_diag. reflexivity.
Qed.

Lemma called_incl (arg : payload) (hs : list handler) (h : handler) :
  In h (called w arg hs) -> In h hs.
Proof.
  induction hs as [|x hs IH]; simpl; [tauto|].
  intros [-> | H]; [now left|]. right.
  destruct (run_handler w x arg); [destruct H | apply IH, H].
Qed.

Lemma dispatch_events_handlers (c : WebSocketClient) cat hs arg cat' h a :
  In (EvHandler cat' h a) (dispatch_events w c cat hs arg) ->
  cat' = cat /\ In h hs /\ a = arg.
Proof.
  unfold dispatch_events. rewrite in_app_iff. intros [H | H].
  - apply in_map_iff in H as (x & [= -> -> ->] & Hx).
    repeat split. now apply called_incl in Hx.
  - destruct (first_fault w arg hs); [|destruct H].
    unfold sink_events in H. destruct (exception_handler c); [|destruct H].
    destruct H as [H | []]. discriminate H.
Qed.

Lemma route_handlers (c : WebSocketClient) msg cat hs arg :
  route w c msg = inl (cat, hs, arg) -> hs = handlers_of cat c.
Proof.
  unfold route. destruct msg as [| b | n | text | items | fields]; try discriminate.
  - destruct (is_infix "status" text); [discriminate|].
    destruct (is_infix "type" text); [discriminate|]. now intros [= <- <- <-].
  - destruct (existsb _ items); [discriminate|].
    destruct (existsb _ items); [discriminate|]. now intros [= <- <- <-].
  - destruct (status_is_error fields); [now intros [= <- <- <-]|].
    destruct (lookup "type" fields) as [[| b | n | t | items | fs]|]; try discriminate.
    + destruct (String.eqb (upper t) "MD"); [now intros [= <- <- <-]|].
      destruct (String.eqb (upper t) "OR"); now intros [= <- <- <-].
    + now intros [= <- <- <-].
Qed.

Lemma called_until_fault (arg : payload) (hs1 hs2 : list handler) (h : handler) (e : exn) :
  (forall h', In h' hs1 -> run_handler w h' arg = None) ->
  run_handler w h arg = Some e ->
  called w arg (hs1 ++ h :: hs2) = (hs1 ++ [h])%list
  /\ first_fault w arg (hs1 ++ h :: hs2) = Some e.
Proof.
  intros Hok He. induction hs1 as [|x hs1 IH]; simpl.
  - now rewrite He.
  - rewrite (Hok x (or_introl eq_refl)).
    destruct IH as [IH1 IH2]; [intros h' Hh'; apply Hok; now right|].
    now rewrite IH1, IH2.
Qed.

(** C1 (as the code has it). When a frame is routed to the handlers of one
    category and one of them raises, the handlers registered before it and
    the raising handler itself have been called, in registration order; the
    handlers registered after it are not called for this frame; the
    exception is given to the exception handler when one is set; and
    [on_message] returns normally to the listener unless the exception
    handler itself raises. *)
Theorem on_message_handler_fault (message : string) (s : Sys)
    msg cat hs1 h hs2 arg e :
  loads w message = inl msg ->
  route w (self s) msg = inl (cat, (hs1 ++ h :: hs2)%list, arg) ->
  (forall h', In h' hs1 -> run_handler w h' arg = None) ->
  run_handler w h arg = Some e ->
  on_message w message s
  = (sink_result w (self s) e,
     add_trace (map (fun x => EvHandler cat x arg) (hs1 ++ [h])
                ++ sink_events (self s) e) s).
Proof.
  intros Hl Hr Hok He.
  rewrite (on_message_dispatch message s msg cat _ arg Hl Hr).
  unfold dispatch_result, dispatch_events.
  destruct (called_until_fault arg hs1 hs2 h e Hok He) as [-> ->].
  reflexivity.
Qed.


End Dispatch.

(** In the sample world the second of three market data handlers raises:
    the third one, although registered and able to return, is not called. *)
Lemma on_message_fault_skips_later_handlers :
  In 3%nat (market_data_handlers dispatch_client)
  /\ run_handler unreachable_world 2 (PMsg (JObj [("type", JStr "Md")]))
     = Some (CallbackError 2)
  /\ run_handler unreachable_world 3 (PMsg (JObj [("type", JStr "Md")])) = None
  /\ on_message unreachable_world "md" (sample_sys dispatch_client)
     = (Ok tt,
        add_trace [EvHandler MarketData 1 (PMsg (JObj [("type", JStr "Md")]));
                   EvHandler MarketData 2 (PMsg (JObj [("type", JStr "Md")]));
                   EvExceptionHandler 9 (CallbackError 2)]
                  (sample_sys dispatch_client))
  /\ ~ In (EvHandler MarketData 3 (PMsg (JObj [("type", JStr "Md")])))
         (trace (snd (on_message unreachable_world "md" (sample_sys dispatch_client)))).
Proof.
  split; [simpl; tauto|]. split; [reflexivity|]. split; [reflexivity|].
  split; [reflexivity|].
  vm_compute. intros [H|[H|[H|[]]]]; discriminate H.
Qed.


Lemma on_message_handler_fault_example :
  on_message unreachable_world "md" (sample_sys dispatch_client)
  = (Ok tt,
     add_trace [EvHandler MarketData 1 (PMsg (JObj [("type", JStr "Md")]));
                EvHandler MarketData 2 (PMsg (JObj [("type", JStr "Md")]));
                EvExceptionHandler 9 (CallbackError 2)]
               (sample_sys dispatch_client)).
Proof.
  apply (on_message_handler_fault unreachable_world "md" (sample_sys dispatch_client)
           (JObj [("type", JStr "Md")]) MarketData [1%nat] 2%nat [3%nat]
           (PMsg (JObj [("type", JStr "Md")])) (CallbackError 2)).
  - reflexivity.
  - reflexivity.
  - intros h' [<- | []]. reflexivity.
  - reflexivity.
Defined.


(** ** A program logic for the methods *)

Lemma background_is_sleep ev : is_background ev = true -> is_sleep_event ev = true.
Proof. destruct ev; simpl; auto. Qed.

Lemma sleep_is_connect ev : is_sleep_event ev = true -> is_connect_event ev = true.
Proof. destruct ev; simpl; auto. Qed.

Ltac by_event_cases ev :=
  destruct ev; simpl in *; auto; try discriminate;
  match goal with r : log_record |- _ => destruct r end;
  simpl in *; auto; try discriminate.

Lemma sleep_is_restore ev : is_sleep_event ev = true -> is_restore_event ev = true.
Proof. intros H. by_event_cases ev. Qed.

Lemma connect_is_after ev : is_connect_event ev = true -> is_after_connect ev = true.
Proof. intros H. by_event_cases ev. Qed.

Lemma restore_is_after ev : is_restore_event ev = true -> is_after_connect ev = true.
Proof. intros H. by_event_cases ev. Qed.

Lemma after_is_attempt ev : is_after_connect ev = true -> is_attempt_event ev = true.
Proof. intros H. by_event_cases ev. Qed.

Lemma after_is_tail ev : is_after_connect ev = true -> is_attempt_tail ev = true.
Proof. intros H. by_event_cases ev. Qed.

Section Logic.

Variable w : World.
Variable messages : Messages.
Variable I : WebSocketClient -> Prop.
Variable P : event -> Prop.

Local Abbreviation spec := (run_spec I P).

Lemma spec_ret total {A} (a : A) : spec total (ret a).
Proof.
  intros s HI; simpl. repeat split; auto.
  - exists []. now rewrite app_nil_r.
  - intros _. now exists a.
Qed.

Lemma spec_raise {A} (e : exn) : spec false (@raise A e).
Proof.
  intros s HI; simpl. repeat split; auto.
  - exists []. now rewrite app_nil_r.
  - discriminate.
Qed.

Lemma spec_bind total {A B} (m : M A) (f : A -> M B) :
  spec total m -> (forall a, spec total (f a)) -> spec total (bind m f).
Proof.
  intros Hm Hf s HI. destruct (Hm s HI) as (I1 & E1 & (tr1 & T1 & F1) & Tot1).
  unfold bind. destruct (m s) as [[a|e] s1]; simpl in *.
  - destruct (Hf a s1 I1) as (I2 & E2 & (tr2 & T2 & F2) & Tot2).
    repeat split; auto.
    + congruence.
    + exists (tr1 ++ tr2)%list. rewrite T2, T1, app_assoc. split; [reflexivity|].
      apply Forall_app; auto.
  - repeat split; auto.
    + exists tr1. auto.
    + intros Ht. destruct (Tot1 Ht) as [a Ha]. discriminate Ha.
Qed.

Lemma spec_try total {A} (m : M A) (h : exn -> M A) :
  spec false m -> (forall e, spec total (h e)) -> spec total (try_except m h).
Proof.
  intros Hm Hh s HI. destruct (Hm s HI) as (I1 & E1 & (tr1 & T1 & F1) & _).
  unfold try_except. destruct (m s) as [[a|e] s1]; simpl in *.
  - repeat split; auto.
    + exists tr1. auto.
    + intros _. now exists a.
  - destruct (Hh e s1 I1) as (I2 & E2 & (tr2 & T2 & F2) & Tot2).
    repeat split; auto.
    + congruence.
    + exists (tr1 ++ tr2)%list. rewrite T2, T1, app_assoc. split; [reflexivity|].
      apply Forall_app; auto.
Qed.

(** A computation that returns may be used where one is allowed to raise. *)
Lemma spec_relax total {A} (m : M A) : spec true m -> spec total m.
Proof.
  intros Hm s HI. destruct (Hm s HI) as (I1 & E1 & T1 & Tot).
  repeat split; auto.
Qed.

Lemma spec_partial total {A} (m : M A) : spec total m -> spec false m.
Proof.
  intros Hm s HI. destruct (Hm s HI) as (I1 & E1 & T1 & _).
  repeat split; auto. discriminate.
Qed.

Lemma spec_emit total (e : event) : P e -> spec total (emit e).
Proof.
  intros He s HI; simpl. repeat split; auto.
  - exists [e]. auto.
  - intros _. now exists tt.
Qed.

Lemma spec_log total (r : log_record) : P (EvLog r) -> spec total (log r).
Proof. apply spec_emit. Qed.

Lemma spec_tick total : spec total tick.
Proof.
  intros s HI; simpl. repeat split; auto.
  - exists []. now rewrite app_nil_r.
  - intros _. now exists tt.
Qed.

Lemma spec_put_self total (c : WebSocketClient) : I c -> spec total (put_self c).
Proof.
  intros Hc s HI; simpl. repeat split; auto.
  - exists []. now rewrite app_nil_r.
  - intros _. now exists tt.
Qed.

Lemma spec_get_self total {B} (f : WebSocketClient -> M B) :
  (forall c, I c -> spec total (f c)) -> spec total (bind get_self f).
Proof. intros H s HI. unfold bind, get_self. apply (H (self s) HI s HI). Qed.

Lemma spec_get_now total {B} (f : nat -> M B) :
  (forall n, spec total (f n)) -> spec total (bind get_now f).
Proof. intros H s HI. unfold bind, get_now. apply (H (now s) s HI). Qed.

Lemma spec_get_registry total {B} (f : list (EnvKey * EnvConfig) -> M B) :
  (forall r, spec total (f r)) -> spec total (bind get_registry f).
Proof. intros H s HI. unfold bind, get_registry. apply (H (environment_config s) s HI). Qed.

Lemma spec_for_each total {A} (f : A -> M unit) (l : list A) :
  (forall x, In x l -> spec total (f x)) -> spec total (for_each f l).
Proof.
  induction l as [|x l IH]; intros H; simpl.
  - apply spec_ret.
  - apply spec_bind; [apply H; now left|].
    intros _. apply IH. intros y Hy. apply H. now right.
Qed.

(** *** The collaborators and the callbacks *)

Hypothesis I_callbacks : callbacks_ok w I.

Lemma spec_run_callback (cb : callback) :
  (forall ev, is_background ev = true -> P ev) ->
  (forall c, I c -> I (callback_effect cb c)) -> spec true (run_callback cb).
Proof.
  intros HP H. destruct cb as [|code]; simpl.
  - apply spec_get_self. intros c Hc. apply spec_put_self. apply (H c Hc).
  - unfold on_close. apply spec_bind; [apply spec_log, HP; reflexivity|].
    intros _. apply spec_get_self. intros c Hc.
    apply spec_bind; [apply spec_put_self, (H c Hc)|].
    intros _. destruct (code =? 1008)%Z; [|apply spec_ret].
    apply spec_bind; [apply spec_log, HP; reflexivity|].
    intros _. apply spec_emit, HP. reflexivity.
Qed.

Lemma spec_listen :
  (forall ev, is_background ev = true -> P ev) -> spec true (listen w).
Proof.
  intros HP. unfold listen. apply spec_get_now. intros n.
  apply spec_bind; [|intros _; apply spec_tick].
  apply spec_for_each. intros cb Hcb. apply spec_run_callback; [exact HP|].
  intros c Hc. apply (I_callbacks n cb c Hcb Hc).
Qed.

Lemma spec_sleep (seconds : Q) :
  sleep_accepts seconds = true ->
  (forall ev, is_sleep_event ev = true -> P ev) -> spec true (sleep w seconds).
Proof.
  intros Hs HP. unfold sleep. apply andb_prop in Hs as [-> ->].
  apply spec_bind; [apply spec_emit, HP; reflexivity|].
  intros _. apply spec_listen. intros ev Hev. apply HP, background_is_sleep, Hev.
Qed.

(** A sleep of any length: it may raise. *)
Lemma spec_sleep_any (seconds : Q) :
  (forall ev, is_sleep_event ev = true -> P ev) -> spec false (sleep w seconds).
Proof.
  intros HP. destruct (sleep_accepts seconds) eqn:Hs.
  - apply (spec_partial true), spec_sleep; assumption.
  - unfold sleep. unfold sleep_accepts in Hs.
    destruct (Qle_bool (Qabs seconds) sleep_limit); [|apply spec_raise].
    destruct (Qle_bool 0 seconds); [discriminate Hs | apply spec_raise].
Qed.

Lemma spec_is_connected : spec true is_connected.
Proof. apply spec_get_self. intros c _. apply spec_ret. Qed.

Lemma spec_ws_send (message : string) :
  (forall conn m, P (EvSend conn m)) -> spec false (ws_send w message).
Proof.
  intros HP. unfold ws_send. apply spec_get_self. intros c _.
  destruct (ws_connection c) as [conn|]; [|apply spec_raise].
  apply spec_get_now. intros n.
  apply spec_bind; [apply spec_emit, HP|]. intros _.
  apply spec_bind; [apply spec_tick|]. intros _.
  destruct (send_outcome w n message); [apply spec_raise | apply spec_ret].
Qed.

Lemma spec_update_token (r : RestId) :
  (forall r', P (EvUpdateToken r')) -> spec false (update_token w r).
Proof.
  intros HP. unfold update_token. apply spec_get_now. intros n.
  apply spec_bind; [apply spec_emit, HP|]. intros _.
  apply spec_bind; [apply spec_tick|]. intros _.
  destruct (update_token_outcome w n r); [apply spec_raise | apply spec_ret].
Qed.

(** *** The exception sink *)

Variable total : bool.
Hypothesis I_sink : sink_ok I P total.

Lemma spec_call_exception_handler (c : WebSocketClient) (e : exn) :
  I c ->
  spec total
    (match exception_handler c with
     | Some h => call_exception_handler w h e
     | None => ret tt
     end).
Proof.
  intros Hc. specialize (I_sink c Hc).
  destruct (exception_handler c) as [h|]; [|apply spec_ret].
  destruct I_sink as [-> HP]. unfold call_exception_handler.
  apply spec_bind; [apply spec_emit, HP|]. intros _.
  destruct (run_exception_handler w h e); [apply spec_raise | apply spec_ret].
Qed.

Lemma spec_on_exception (e : exn) : spec total (on_exception w e).
Proof.
  unfold on_exception. apply spec_get_self. intros c Hc.
  apply spec_call_exception_handler, Hc.
Qed.

(** *** Connection *)

Hypothesis I_session : session_ok I.

Lemma spec_wait_for_connection (conn_timeout thread conn : nat) :
  (forall ev, is_sleep_event ev = true -> P ev) ->
  spec true (wait_for_connection w conn_timeout thread conn).
Proof.
  intros HP. induction conn_timeout as [|k IH]; simpl; [apply spec_ret|].
  apply spec_get_now. intros n.
  destruct (thread_alive w thread n && negb (sock_connected w conn n)); [|apply spec_ret].
  apply spec_bind; [apply spec_sleep; [reflexivity | exact HP] | intros _; apply IH].
Qed.

Lemma spec_env_getitem (key : string) : spec false (env_getitem w key).
Proof.
  unfold env_getitem. apply spec_get_self. intros c _. apply spec_get_now. intros n.
  destruct (environment_has w (environment c) key n); [apply spec_ret | apply spec_raise].
Qed.

(** [connect] may raise the [KeyError] of a key that its environment lacks. *)
Lemma spec_connect :
  (forall ev, is_connect_event ev = true -> P ev) -> spec false (connect w).
Proof.
  intros HP. unfold connect. apply spec_get_self. intros c Hc.
  apply spec_get_now. intros n.
  destruct (match ws_thread c with Some t => thread_alive w t n | None => false end);
    [apply spec_ret|].
  apply spec_bind; [apply spec_env_getitem|]. intros _.
  apply spec_bind; [apply spec_env_getitem|]. intros _.
  apply spec_bind; [apply spec_emit, HP; reflexivity|]. intros _.
  apply spec_bind; [apply spec_put_self, (I_session n c Hc)|]. intros _.
  apply spec_bind; [apply spec_env_getitem|]. intros _.
  apply spec_bind; [apply spec_env_getitem|]. intros _.
  apply spec_bind; [apply spec_put_self, (I_session n c Hc)|]. intros _.
  apply spec_bind; [apply spec_emit, HP; reflexivity|]. intros _.
  apply spec_bind; [apply spec_tick|]. intros _.
  apply spec_bind.
  { apply spec_relax, spec_wait_for_connection.
    intros ev Hev. apply HP, sleep_is_connect, Hev. }
  intros _. apply spec_get_now. intros n'.
  destruct (negb (sock_connected w n n'));
    [apply (spec_partial total), spec_on_exception | apply spec_ret].
Qed.

(** *** Reconnection *)

Hypothesis P_after : forall ev, is_after_connect ev = true -> P ev.

Lemma spec_restore_subscriptions : spec true (_restore_subscriptions w messages).
Proof.
  assert (HPr : forall ev, is_restore_event ev = true -> P ev)
    by (intros ev Hev; apply P_after, restore_is_after, Hev).
  assert (HPs : forall ev, is_sleep_event ev = true -> P ev)
    by (intros ev Hev; apply HPr, sleep_is_restore, Hev).
  unfold _restore_subscriptions. apply spec_try.
  - apply spec_get_self. intros c _. apply spec_bind.
    { apply spec_for_each. intros sub _.
      apply spec_bind; [apply spec_log, HPr; reflexivity|]. intros _.
      apply spec_bind; [apply spec_ws_send; intros; apply HPr; reflexivity|]. intros _.
      apply spec_relax, spec_sleep; [reflexivity | exact HPs]. }
    intros _. apply spec_get_self. intros c1 _. apply spec_bind.
    { apply spec_for_each. intros sub _.
      apply spec_bind; [apply spec_log, HPr; reflexivity|]. intros _.
      apply spec_bind; [apply spec_ws_send; intros; apply HPr; reflexivity|]. intros _.
      apply spec_relax, spec_sleep; [reflexivity | exact HPs]. }
    intros _. apply spec_get_self. intros c2 _.
    destruct (_ || _); [apply spec_log, HPr; reflexivity | apply spec_ret].
  - intros e. apply spec_log, HPr. reflexivity.
Qed.

Lemma spec_after_connect (done : log_record) :
  P (EvLog done) -> spec true (after_connect w messages done).
Proof.
  intros Hd. unfold after_connect. apply spec_bind; [apply spec_is_connected|].
  intros [|]; [|apply spec_ret].
  apply spec_bind; [apply spec_log, Hd|]. intros _.
  apply spec_bind.
  { apply spec_sleep; [reflexivity|]. intros ev Hev.
    apply P_after, connect_is_after, sleep_is_connect, Hev. }
  intros _. apply spec_bind; [apply spec_restore_subscriptions|].
  intros _. apply spec_ret.
Qed.

Lemma spec_connect_then (done : log_record) :
  P (EvLog done) -> spec false (connect w ;; after_connect w messages done).
Proof.
  intros Hd. apply spec_bind.
  - apply spec_connect.
    intros ev Hev. apply P_after, connect_is_after, Hev.
  - intros _. apply spec_relax, spec_after_connect, Hd.
Qed.

Hypothesis P_attempt : forall ev, is_attempt_event ev = true -> P ev.

Lemma spec_refresh_token (me : ClientId) (registry : list (EnvKey * EnvConfig)) :
  spec false (refresh_token w me registry).
Proof.
  induction registry as [|[env_key env_config] rest IH]; simpl; [apply spec_ret|].
  destruct (match ws_client env_config with Some c => Nat.eqb c me | None => false end);
    [|exact IH].
  destruct (rest_client env_config) as [r|]; [|exact IH].
  apply spec_bind.
  - apply spec_update_token. intros r'. apply P_attempt. reflexivity.
  - intros _. apply spec_log, P_attempt. reflexivity.
Qed.

Lemma spec_attempt_body (attempt : Z) : spec false (attempt_body w messages attempt).
Proof.
  unfold attempt_body, call_connect. destruct (attempt =? 1)%Z.
  - apply spec_bind; [apply spec_log, P_attempt; reflexivity|]. intros _.
    apply spec_bind; [|intros _; apply spec_relax, spec_after_connect, P_attempt;
                                 reflexivity].
    apply spec_bind; [apply spec_emit, P_attempt; reflexivity|]. intros _.
    apply spec_connect.
    intros ev Hev. apply P_after, connect_is_after, Hev.
  - apply spec_bind; [apply spec_log, P_attempt; reflexivity|]. intros _.
    apply spec_get_self. intros c _. apply spec_get_registry. intros registry.
    apply spec_bind; [apply spec_refresh_token|]. intros _.
    apply spec_bind; [|intros _; apply spec_relax, spec_after_connect, P_attempt;
                                 reflexivity].
    apply spec_bind; [apply spec_emit, P_attempt; reflexivity|]. intros _.
    apply spec_connect.
    intros ev Hev. apply P_after, connect_is_after, Hev.
Qed.

Hypothesis P_marks :
  forall attempt max_attempts,
    P (EvLog (LogAttempt attempt max_attempts)) /\ P (EvLog (LogExhausted max_attempts)).

Lemma spec_attempt_once (attempt max_attempts : Z) (delay : Q) :
  spec true (attempt_once w messages attempt max_attempts delay).
Proof.
  unfold attempt_once. apply spec_try.
  - apply spec_bind; [apply spec_log, P_marks|]. intros _.
    apply spec_bind; [|intros _; apply spec_attempt_body].
    apply spec_sleep_any. intros ev Hev.
    apply P_after, connect_is_after, sleep_is_connect, Hev.
  - intros e. apply spec_bind; [apply spec_log, P_attempt; reflexivity|].
    intros _. apply spec_ret.
Qed.

Lemma spec_reconnection_loop (remaining : nat) (attempt max_attempts : Z) (delay : Q) :
  spec total (reconnection_loop w messages remaining attempt max_attempts delay).
Proof.
  revert attempt delay. induction remaining as [|k IH]; intros attempt delay; simpl.
  - apply spec_bind; [apply spec_log, (P_marks 0%Z)|]. intros _.
    apply spec_get_self. intros c Hc. apply spec_call_exception_handler, Hc.
  - apply spec_bind; [apply spec_relax, spec_attempt_once|].
    intros [|]; [apply spec_ret | apply IH].
Qed.

Lemma spec_attempt_reconnection : spec total (_attempt_reconnection w messages).
Proof.
  unfold _attempt_reconnection. apply spec_get_self. intros c _.
  destruct (negb (auto_reconnect c)); [apply spec_ret | apply spec_reconnection_loop].
Qed.

End Logic.

(** ** Connection *)

Lemma sleeps_app (a b : list event) : sleeps (a ++ b) = (sleeps a ++ sleeps b)%list.
Proof.
  induction a as [|ev a IH]; simpl; [reflexivity|].
  destruct ev; simpl; rewrite IH; reflexivity.
Qed.

Lemma sleeps_of_background (tr : list event) :
  Forall (fun ev => is_background ev = true) tr -> sleeps tr = [].
Proof.
  induction 1 as [|ev tr Hev _ IH]; simpl; [reflexivity|].
  destruct ev; try discriminate Hev; exact IH.
Qed.

Lemma same_but_connected_refl c : same_but_connected c c.
Proof. reflexivity. Qed.

Lemma same_but_connected_callbacks w c0 : callbacks_ok w (same_but_connected c0).
Proof. intros n cb c _ H. unfold same_but_connected in *. destruct cb; simpl; exact H. Qed.

Section Connection.

Variable w : World.

(** One sleep: the event of the sleep, then the events of the callbacks that
    run meanwhile; the client changes in its [connected] flag at most. *)
Lemma sleep_run (seconds : Q) (s : Sys) :
  sleep_accepts seconds = true ->
  exists s' bg,
    sleep w seconds s = (Ok tt, s')
    /\ trace s' = (trace s ++ EvSleep seconds :: bg)%list
    /\ Forall (fun ev => is_background ev = true) bg
    /\ same_but_connected (self s) (self s')
    /\ environment_config s' = environment_config s.
Proof.
  intros Hs.
  assert (E : sleep w seconds s = listen w (add_trace [EvSleep seconds] s))
    by (unfold sleep; apply andb_prop in Hs as [-> ->]; reflexivity).
  destruct (spec_listen w (same_but_connected (self s))
              (fun ev => is_background ev = true)
              (same_but_connected_callbacks w (self s)) (fun ev H => H)
              (add_trace [EvSleep seconds] s) eq_refl)
    as (I1 & E1 & (tr & T1 & F1) & Tot).
  destruct (Tot eq_refl) as [[] Ha].
  exists (snd (listen w (add_trace [EvSleep seconds] s))), tr.
  rewrite E. repeat split; auto.
  - rewrite <- Ha. now destruct (listen w _).
  - rewrite T1. simpl. now rewrite <- app_assoc.
Qed.

(** The callbacks of the listener leave the clock alone and return. *)
Lemma run_callbacks_now (cbs : list callback) (s : Sys) :
  exists s', for_each run_callback cbs s = (Ok tt, s') /\ now s' = now s.
Proof.
  revert s. induction cbs as [|cb cbs IH]; intros s; simpl.
  - exists s. auto.
  - assert (H : exists s1, run_callback cb s = (Ok tt, s1) /\ now s1 = now s).
    { destruct cb as [|code]; simpl.
      - eexists. split; reflexivity.
      - unfold on_close, bind, log, emit, get_self, put_self. simpl.
        destruct (code =? 1008)%Z; eexists; split; reflexivity. }
    destruct H as (s1 & E1 & N1). destruct (IH s1) as (s2 & E2 & N2).
    exists s2. unfold bind. rewrite E1, E2. split; [reflexivity | congruence].
Qed.

(** A sleep moves the clock by one instant. *)
Lemma sleep_now (seconds : Q) (s : Sys) :
  sleep_accepts seconds = true -> now (snd (sleep w seconds s)) = S (now s).
Proof.
  intros Hs.
  assert (E : sleep w seconds s = listen w (add_trace [EvSleep seconds] s))
    by (unfold sleep; apply andb_prop in Hs as [-> ->]; reflexivity).
  rewrite E. unfold listen. unfold bind at 1, get_now at 1.
  destruct (run_callbacks_now (listener w (now (add_trace [EvSleep seconds] s)))
              (add_trace [EvSleep seconds] s)) as (s1 & E1 & N1).
  unfold bind. rewrite E1. simpl. now rewrite N1.
Qed.

Lemma same_but_connected_trans c0 c1 c2 :
  same_but_connected c0 c1 -> same_but_connected c1 c2 -> same_but_connected c0 c2.
Proof. unfold same_but_connected. congruence. Qed.

(** The rounds of the polling loop: it goes on while the thread is alive
    and the socket is not connected, [conn_timeout] rounds at most. *)
Lemma polls_spec (thread conn t conn_timeout : nat) :
  let waited := polls w thread conn t conn_timeout in
  (waited <= conn_timeout)%nat
  /\ (forall k, (k < waited)%nat ->
        thread_alive w thread (t + k) && negb (sock_connected w conn (t + k)) = true)
  /\ ((waited < conn_timeout)%nat ->
      thread_alive w thread (t + waited) && negb (sock_connected w conn (t + waited))
      = false).
Proof.
  revert t. induction conn_timeout as [|k IH]; intros t; simpl.
  - repeat split; [lia | intros k Hk; lia | intros H; lia].
  - destruct (thread_alive w thread t && negb (sock_connected w conn t)) eqn:Hc.
    + destruct (IH (S t)) as (H1 & H2 & H3). repeat split.
      * lia.
      * intros [|j] Hj; [now rewrite Nat.add_0_r|].
        replace (t + S j)%nat with (S t + j)%nat by lia. apply H2. lia.
      * intros Hlt. replace (t + S (polls w thread conn (S t) k))%nat
          with (S t + polls w thread conn (S t) k)%nat by lia.
        apply H3. lia.
    + repeat split; [lia | intros j Hj; lia |].
      intros _. now rewrite Nat.add_0_r.
Qed.

(** The polling loop sleeps one second at a time, one instant each. *)
Lemma wait_for_connection_run (conn_timeout thread conn : nat) (s : Sys) :
  exists s' polling,
    wait_for_connection w conn_timeout thread conn s = (Ok tt, s')
    /\ trace s' = (trace s ++ polling)%list
    /\ sleeps polling = repeat 1%Q (polls w thread conn (now s) conn_timeout)
    /\ now s' = (now s + polls w thread conn (now s) conn_timeout)%nat
    /\ Forall (fun ev => is_sleep_event ev = true) polling
    /\ same_but_connected (self s) (self s')
    /\ environment_config s' = environment_config s.
Proof.
  revert s. induction conn_timeout as [|k IH]; intros s; simpl.
  - exists s, []. rewrite app_nil_r, Nat.add_0_r. repeat split; auto.
  - unfold bind at 1, get_now at 1.
    destruct (thread_alive w thread (now s) && negb (sock_connected w conn (now s))).
    + destruct (sleep_run 1 s eq_refl) as (s1 & bg & E1 & T1 & F1 & S1 & R1).
      pose proof (sleep_now 1 s eq_refl) as N1. rewrite E1 in N1. simpl in N1.
      destruct (IH s1) as (s2 & polling & E2 & T2 & Sl2 & N2 & F2 & S2 & R2).
      rewrite N1 in Sl2, N2.
      exists s2, (EvSleep 1 :: bg ++ polling)%list.
      unfold bind. rewrite E1, E2. repeat split.
      * rewrite T2, T1, <- app_assoc. reflexivity.
      * simpl. rewrite sleeps_app, (sleeps_of_background bg F1), Sl2. reflexivity.
      * rewrite N2. lia.
      * constructor; [reflexivity|]. apply Forall_app. split; [|exact F2].
        eapply Forall_impl; [|exact F1]. apply background_is_sleep.
      * eapply same_but_connected_trans; eassumption.
      * congruence.
    + exists s, []. rewrite app_nil_r, Nat.add_0_r. repeat split; auto.
Qed.

(** [connect] by cases: a live listener, a key that the environment lacks
    before or after the socket is made, or the polling. *)
Lemma connect_unfold (s : Sys) :
  let c := self s in
  let n := now s in
  let has key := environment_has w (environment c) key n in
  connect w s
  = if match ws_thread c with
       | Some t => thread_alive w t n
       | None => false
       end
    then (Ok tt, s)
    else if negb (has "token" && has "ws")
    then (Raise KeyError, s)
    else if negb (has "heartbeat" && has "ssl_opt")
    then (Raise KeyError,
          {| self := set_ws_connection (Some n) c;
             environment_config := environment_config s;
             now := n;
             trace := trace s ++ [EvSocket (environment c) n] |})
    else (wait_for_connection w 5 n n ;;
          n' <- get_now ;;
          (if negb (sock_connected w n n')
           then on_exception w (ApiException "Connection could not be established.")
           else ret tt))
           {| self := set_ws_thread (Some n) (set_ws_connection (Some n) c);
              environment_config := environment_config s;
              now := S n;
              trace := (trace s ++ [EvSocket (environment c) n])
                         ++ [EvThreadStart n] |}.
Proof.
  intros c n has. subst c n has.
  unfold connect. unfold bind at 1, get_self at 1. unfold bind at 1, get_now at 1.
  destruct (match ws_thread (self s) with
            | Some t => thread_alive w t (now s)
            | None => false
            end); [reflexivity|].
  unfold env_getitem.
  unfold bind at 1. unfold bind at 1, get_self at 1. unfold bind at 1, get_now at 1.
  destruct (environment_has w (environment (self s)) "token" (now s)); [|reflexivity].
  unfold ret at 1.
  unfold bind at 1. unfold bind at 1, get_self at 1. unfold bind at 1, get_now at 1.
  destruct (environment_has w (environment (self s)) "ws" (now s)); [|reflexivity].
  unfold ret at 1.
  unfold bind at 1, emit at 1. unfold bind at 1, put_self at 1.
  unfold bind at 1. unfold bind at 1, get_self at 1. unfold bind at 1, get_now at 1.
  cbn [self now environment_config trace set_ws_connection environment].
  destruct (environment_has w (environment (self s)) "heartbeat" (now s));
    [|reflexivity].
  unfold ret at 1.
  unfold bind at 1. unfold bind at 1, get_self at 1. unfold bind at 1, get_now at 1.
  cbn [self now environment_config trace set_ws_connection environment].
  destruct (environment_has w (environment (self s)) "ssl_opt" (now s));
    [|reflexivity].
  reflexivity.
Qed.

(** C8 (as the code has it). [connect] returns at once, changing nothing,
    when the client has a listener thread that is alive.  Otherwise it reads
    the token and the URL of its environment, makes a socket, reads the
    heartbeat and the TLS options, starts a listener thread, and polls: it
    sleeps one second for every instant at which the thread is alive and
    the socket not connected, five times at most.  If the socket is not
    connected when the polling ends, it gives an [ApiException] to the
    exception sink and returns what the sink returns.  It raises to the
    caller the [KeyError] of a key that its environment lacks, and whatever
    the exception handler raises. *)
Theorem connect_behaviour (s : Sys) :
  let failure := ApiException "Connection could not be established." in
  let c := self s in
  let n := now s in
  let has key := environment_has w (environment c) key n in
  let polling_goes_on t := thread_alive w n t && negb (sock_connected w n t) in
  if match ws_thread c with
     | Some t => thread_alive w t n
     | None => false
     end
  then connect w s = (Ok tt, s)
  else if negb (has "token" && has "ws")
  then connect w s = (Raise KeyError, s)
  else if negb (has "heartbeat" && has "ssl_opt")
  then connect w s
       = (Raise KeyError,
          {| self := set_ws_connection (Some n) c;
             environment_config := environment_config s;
             now := n;
             trace := trace s ++ [EvSocket (environment c) n] |})
  else
    exists s1 polling waited,
      trace s1 = (trace s ++ EvSocket (environment c) n
                          :: EvThreadStart n :: polling)%list
      /\ sleeps polling = repeat 1%Q waited
      /\ (waited <= 5)%nat
      /\ now s1 = (S n + waited)%nat
      /\ (forall k, (k < waited)%nat -> polling_goes_on (S n + k)%nat = true)
      /\ ((waited < 5)%nat -> polling_goes_on (S n + waited)%nat = false)
      /\ Forall (fun ev => is_sleep_event ev = true) polling
      /\ same_but_connected
           (set_ws_thread (Some n) (set_ws_connection (Some n) c)) (self s1)
      /\ connect w s
         = (if sock_connected w n (now s1)
            then (Ok tt, s1)
            else (sink_result w (self s1) failure,
                  add_trace (sink_events (self s1) failure) s1))
      /\ (forall e, fst (connect w s) = Raise e ->
            exists h, exception_handler c = Some h
                      /\ run_exception_handler w h failure = Some e).
Proof.
  intros failure c n has polling_goes_on.
  pose proof (connect_unfold s) as Hrun. cbv zeta in Hrun.
  fold c n in Hrun. fold failure in Hrun.
  change (fun key => environment_has w (environment c) key n) with has in Hrun.
  destruct (match ws_thread c with
            | Some t => thread_alive w t n
            | None => false
            end); [exact Hrun|].
  change (environment_has w (environment c) "token" n) with (has "token") in Hrun.
  change (environment_has w (environment c) "ws" n) with (has "ws") in Hrun.
  change (environment_has w (environment c) "heartbeat" n) with (has "heartbeat") in Hrun.
  change (environment_has w (environment c) "ssl_opt" n) with (has "ssl_opt") in Hrun.
  destruct (negb (has "token" && has "ws")); [exact Hrun|].
  destruct (negb (has "heartbeat" && has "ssl_opt")); [exact Hrun|].
  set (s0 := {| self := set_ws_thread (Some n) (set_ws_connection (Some n) c);
                environment_config := environment_config s;
                now := S n;
                trace := (trace s ++ [EvSocket (environment c) n])
                           ++ [EvThreadStart n] |}) in Hrun.
  destruct (wait_for_connection_run 5 n n s0)
    as (s1 & polling & E1 & T1 & Sl & N1 & F1 & S1 & R1).
  change (now s0) with (S n) in Sl, N1.
  destruct (polls_spec n n (S n) 5) as (P1 & P2 & P3).
  assert (Hh : exception_handler (self s1) = exception_handler c).
  { apply (f_equal exception_handler) in S1. exact S1. }
  assert (Hrun' : connect w s
                  = (if sock_connected w n (now s1)
                     then (Ok tt, s1)
                     else (sink_result w (self s1) failure,
                           add_trace (sink_events (self s1) failure) s1))).
  { rewrite Hrun. unfold bind at 1. rewrite E1. unfold bind, get_now.
    destruct (sock_connected w n (now s1)); simpl; [reflexivity|].
    apply on_exception_run. }
  exists s1, polling, (polls w n n (S n) 5).
  rewrite Hrun'. repeat split; auto.
  - rewrite T1. unfold s0; simpl. rewrite <- !app_assoc. reflexivity.
  - intros e.
    destruct (sock_connected w n (now s1)); simpl; [discriminate|].
    unfold sink_result. rewrite Hh.
    destruct (exception_handler c) as [h|]; [|discriminate].
    destruct (run_exception_handler w h failure) as [e'|] eqn:He; [|discriminate].
    intros [= <-]. exists h. auto.
Qed.

End Connection.

(** [connect] raises to its caller: what the exception handler raises when
    it is told that the connection could not be established, and the
    [KeyError] of an environment without token. *)
Lemma connect_raises_to_the_caller :
  fst (connect strict_world
         (sample_sys (set_exception_handler_field (Some 9%nat) (init 1%nat 0%nat))))
  = Raise (CallbackError 9)
  /\ connect tokenless_world (sample_sys (init 1%nat 0%nat))
     = (Raise KeyError, sample_sys (init 1%nat 0%nat)).
Proof. split; vm_compute; reflexivity. Qed.

(** A new client whose venue cannot be reached: [connect] polls five times
    and, with no exception handler, returns normally. *)
Lemma connect_behaviour_example :
  let s := sample_sys (init 1%nat 0%nat) in
  exists s1 polling,
    trace s1 = (EvSocket 0 1 :: EvThreadStart 1 :: polling)%list
    /\ sleeps polling = [1; 1; 1; 1; 1]%Q
    /\ now s1 = 7%nat
    /\ connect unreachable_world s = (Ok tt, s1).
Proof.
  intros s.
  destruct (connect_behaviour unreachable_world s)
    as (s1 & polling & waited & T & Sl & Le & N & P1 & P2 & F & Sb & E & R).
  assert (Hw : waited = 5%nat).
  { destruct (Nat.lt_ge_cases waited 5) as [Hlt|Hge]; [|lia].
    specialize (P2 Hlt). discriminate P2. }
  subst waited.
  assert (Hh : exception_handler (self s1) = None).
  { apply (f_equal exception_handler) in Sb. exact Sb. }
  exists s1, polling. split; [exact T|]. split; [exact Sl|]. split; [exact N|].
  rewrite E. unfold sink_result, sink_events. rewrite Hh.
  simpl. now rewrite add_trace_nil.
Defined.

(** ** Replay of the ledger *)

Lemma bind_ok {A B} (m : M A) (f : A -> M B) (s s' : Sys) (a : A) :
  m s = (Ok a, s') -> bind m f s = f a s'.
Proof. intros H. unfold bind. now rewrite H. Qed.

Lemma bind_raise {A B} (m : M A) (f : A -> M B) (s s' : Sys) (e : exn) :
  m s = (Raise e, s') -> bind m f s = (Raise e, s').
Proof. intros H. unfold bind. now rewrite H. Qed.

Lemma log_run (r : log_record) (s : Sys) : log r s = (Ok tt, add_trace [EvLog r] s).
Proof. reflexivity. Qed.

Lemma events_since_trace (s s' : Sys) (tr : list event) :
  trace s' = (trace s ++ tr)%list -> events_since s s' = tr.
Proof.
  intros H. unfold events_since. rewrite H.
  rewrite skipn_app, skipn_all, Nat.sub_diag. reflexivity.
Qed.

Lemma sends_of_background (tr : list event) :
  Forall (fun ev => is_background ev = true) tr -> sends tr = [].
Proof.
  induction 1 as [|ev tr Hev _ IH]; simpl; [reflexivity|].
  destruct ev; try discriminate Hev; exact IH.
Qed.

Lemma events_since_refl (s : Sys) : events_since s s = [].
Proof. apply events_since_trace. now rewrite app_nil_r. Qed.

Section Replay.

Variable w : World.
Variable messages : Messages.

Lemma ws_send_run (message : string) (s : Sys) (conn : nat) :
  ws_connection (self s) = Some conn ->
  ws_send w message s
  = (match send_outcome w (now s) message with
     | None => Ok tt
     | Some e => Raise e
     end, advance [EvSend conn message] s).
Proof.
  intros Hc. unfold ws_send, bind, get_self, get_now. rewrite Hc. simpl.
  destruct (send_outcome w (now s) message); reflexivity.
Qed.

(** The body shared by the two loops of [_restore_subscriptions]: log, send,
    sleep, for each record in turn. *)
Lemma replay_loop_run {A} (record_of : A -> log_record) (message_of : A -> string)
    (l : list A) (s : Sys) (conn : nat) :
  ws_connection (self s) = Some conn ->
  (forall n m, send_outcome w n m = None) ->
  exists s' tr,
    for_each (fun sub => log (record_of sub) ;; ws_send w (message_of sub) ;; sleep w 0.1)
             l s = (Ok tt, s')
    /\ trace s' = (trace s ++ tr)%list
    /\ sends tr = map (fun sub => (conn, message_of sub)) l
    /\ same_but_connected (self s) (self s').
Proof.
  intros Hc Hsend. revert s Hc. induction l as [|sub l IH]; intros s Hc; simpl.
  - exists s, []. rewrite app_nil_r. repeat split; auto.
  - set (s1 := add_trace [EvLog (record_of sub)] s).
    set (s2 := advance [EvSend conn (message_of sub)] s1).
    assert (E2 : ws_send w (message_of sub) s1 = (Ok tt, s2)).
    { rewrite (ws_send_run _ s1 conn Hc), Hsend. reflexivity. }
    destruct (sleep_run w 0.1 s2 eq_refl) as (s3 & bg & E3 & T3 & F3 & S3 & _).
    assert (Hc3 : ws_connection (self s3) = Some conn).
    { apply (f_equal ws_connection) in S3. simpl in S3. congruence. }
    destruct (IH s3 Hc3) as (s4 & tr & E4 & T4 & Sd4 & S4).
    exists s4, (EvLog (record_of sub) :: EvSend conn (message_of sub)
                :: EvSleep 0.1 :: bg ++ tr)%list.
    rewrite (bind_ok _ _ s s3 tt).
    2:{ rewrite (bind_ok _ _ s s1 tt (log_run _ _)).
        rewrite (bind_ok _ _ s1 s2 tt E2). exact E3. }
    repeat split.
    + exact E4.
    + rewrite T4, T3. simpl. rewrite <- !app_assoc. reflexivity.
    + simpl. rewrite sends_app, (sends_of_background bg F3), Sd4. reflexivity.
    + eapply same_but_connected_trans; [|exact S4]. exact S3.
Qed.

(** C5. After a reconnection, [_restore_subscriptions] on a client with a
    socket, when the socket accepts what is sent, hands one message to the
    socket for each record of the ledger: first the market data records in
    the order of the ledger, then the order report records in the order of
    the ledger.  It returns normally and leaves the ledger as it was. *)
Theorem restore_subscriptions_replay_order (s : Sys) (conn : nat) :
  ws_connection (self s) = Some conn ->
  (forall n m, send_outcome w n m = None) ->
  let ledger := active_subscriptions (self s) in
  let r := _restore_subscriptions w messages s in
  fst r = Ok tt
  /\ sends (events_since s (snd r))
     = (map (md_replay messages conn) (market_data ledger)
        ++ map (or_replay messages conn) (order_report ledger))%list
  /\ active_subscriptions (self (snd r)) = ledger.
Proof.
  intros Hc Hsend ledger r.
  destruct (replay_loop_run
              (fun sub => LogRestoringMD (sub_tickers sub) (value (sub_market sub)))
              (fun sub => md_message messages (sub_tickers sub) (sub_entries sub)
                            (sub_market sub) (sub_depth sub))
              (market_data ledger) s conn Hc Hsend)
    as (s1 & tr1 & E1 & T1 & Sd1 & S1).
  assert (Hc1 : ws_connection (self s1) = Some conn).
  { apply (f_equal ws_connection) in S1. simpl in S1. congruence. }
  assert (Hl1 : active_subscriptions (self s1) = ledger).
  { apply (f_equal active_subscriptions) in S1. exact S1. }
  destruct (replay_loop_run
              (fun sub => LogRestoringOR (sub_account sub))
              (fun sub => or_message messages (sub_account sub) (sub_snapshot sub))
              (order_report ledger) s1 conn Hc1 Hsend)
    as (s2 & tr2 & E2 & T2 & Sd2 & S2).
  assert (Hl2 : active_subscriptions (self s2) = ledger).
  { apply (f_equal active_subscriptions) in S2. simpl in S2. congruence. }
  set (done := (0 <? List.length (market_data ledger))%nat
               || (0 <? List.length (order_report ledger))%nat).
  assert (Hr : r = (Ok tt, if done then add_trace [EvLog LogRestored] s2 else s2)).
  { unfold r, _restore_subscriptions, try_except.
    unfold bind at 1, get_self at 1. fold ledger.
    rewrite (bind_ok _ _ s s1 tt E1).
    unfold bind at 1, get_self at 1. rewrite Hl1.
    rewrite (bind_ok _ _ s1 s2 tt E2).
    unfold bind at 1, get_self at 1. rewrite Hl2. fold done.
    destruct done; reflexivity. }
  rewrite Hr. simpl. split; [reflexivity|]. split.
  - assert (Ht : exists tail, trace (if done then add_trace [EvLog LogRestored] s2 else s2)
                              = (trace s ++ tr1 ++ tr2 ++ tail)%list /\ sends tail = []).
    { destruct done; simpl.
      - exists [EvLog LogRestored]. rewrite T2, T1, <- !app_assoc. auto.
      - exists []. rewrite T2, T1, app_nil_r, <- !app_assoc. auto. }
    destruct Ht as (tail & Ht & Hs).
    rewrite (events_since_trace _ _ _ Ht), !sends_app, Sd1, Sd2, Hs, app_nil_r.
    reflexivity.
  - destruct done; simpl; exact Hl2.
Qed.

End Replay.

(** The replay of a ledger with two market data records and one order
    report record. *)
Lemma restore_subscriptions_replay_example :
  List.length
    (sends (events_since (sample_sys subscribed_client)
              (snd (_restore_subscriptions unreachable_world sample_messages
                      (sample_sys subscribed_client))))) = 3%nat.
Proof.
  destruct (restore_subscriptions_replay_order unreachable_world sample_messages
              (sample_sys subscribed_client) 0%nat eq_refl (fun _ _ => eq_refl))
    as (_ & H & _).
  rewrite H. reflexivity.
Defined.

(** ** The exception sink without an exception handler *)

Lemma attempt_event_is_no_callback ev :
  is_attempt_event ev = true -> is_callback_call ev = false.
Proof. intros H. by_event_cases ev. Qed.

Section Silent.

Variable w : World.
Variable messages : Messages.

Let unset (c : WebSocketClient) : Prop := exception_handler c = None.
Let quiet (ev : event) : Prop := is_callback_call ev = false.

Lemma unset_callbacks : callbacks_ok w unset.
Proof. intros n cb c _ H. destruct cb; exact H. Qed.

Lemma unset_session : session_ok unset.
Proof. intros n c H. split; exact H. Qed.

Lemma unset_sink : sink_ok unset quiet true.
Proof. intros c H. unfold unset in H. rewrite H. exact Logic.I. Qed.

Lemma run_spec_total_quiet {A} (m : M A) (s : Sys) :
  run_spec unset quiet true m -> exception_handler (self s) = None ->
  (exists a, fst (m s) = Ok a)
  /\ Forall (fun ev => is_callback_call ev = false) (events_since s (snd (m s))).
Proof.
  intros Hm H. destruct (Hm s H) as (_ & _ & (tr & T & F) & Tot).
  split; [apply Tot; reflexivity|].
  rewrite (events_since_trace _ _ _ T). exact F.
Qed.

(** C9. With no exception handler set, a fault given to the exception sink
    is dropped: [on_exception] does nothing; [on_message], [on_error] (on a
    client with a socket) and [_attempt_reconnection] return normally
    whatever happens; [connect] raises nothing but the [KeyError] of a key
    that its environment lacks, which is not given to the sink, and returns
    normally when the four keys are there; and neither [connect] nor
    [_attempt_reconnection] calls a handler of any kind, while [on_message]
    calls the handlers of the frame's dispatch only. *)
Theorem unset_exception_handler_drops_faults (s : Sys) :
  exception_handler (self s) = None ->
  (forall e, on_exception w e s = (Ok tt, s))
  /\ ((forall e, fst (connect w s) = Raise e -> e = KeyError)
      /\ ((forall key, In key ["token"; "ws"; "heartbeat"; "ssl_opt"] ->
             environment_has w (environment (self s)) key (now s) = true) ->
          fst (connect w s) = Ok tt)
      /\ Forall (fun ev => is_callback_call ev = false)
                (events_since s (snd (connect w s))))
  /\ (forall message,
        fst (on_message w message s) = Ok tt
        /\ forall h e, ~ In (EvExceptionHandler h e)
                         (events_since s (snd (on_message w message s))))
  /\ (forall e conn,
        ws_connection (self s) = Some conn ->
        on_error w e s = (Ok tt, advance [EvCloseSocket conn] s))
  /\ (fst (_attempt_reconnection w messages s) = Ok tt
      /\ Forall (fun ev => is_callback_call ev = false)
                (events_since s (snd (_attempt_reconnection w messages s)))).
Proof.
  intros H.
  assert (Hex : forall e s', exception_handler (self s') = None ->
                             on_exception w e s' = (Ok tt, s')).
  { intros e s' H'. rewrite on_exception_run. unfold sink_result, sink_events.
    rewrite H'. now rewrite add_trace_nil. }
  split; [intros e; apply Hex, H|]. split; [|split; [|split]].
  - pose proof (connect_unfold w s) as Hrun. cbv zeta in Hrun.
    destruct (match ws_thread (self s) with
              | Some t => thread_alive w t (now s)
              | None => false
              end).
    { rewrite Hrun. simpl. rewrite events_since_refl.
      split; [discriminate|]. split; [reflexivity | constructor]. }
    destruct (environment_has w (environment (self s)) "token" (now s)) eqn:K1;
      [|rewrite Hrun; simpl; rewrite events_since_refl;
        split; [now intros e [= <-]|]; split; [|constructor];
        intros Hk; rewrite (Hk "token") in K1; [discriminate | simpl; tauto]].
    destruct (environment_has w (environment (self s)) "ws" (now s)) eqn:K2;
      [|rewrite Hrun; simpl; rewrite events_since_refl;
        split; [now intros e [= <-]|]; split; [|constructor];
        intros Hk; rewrite (Hk "ws") in K2; [discriminate | simpl; tauto]].
    cbn [negb andb] in Hrun.
    assert (Hsock : forall tr, Forall (fun ev => is_callback_call ev = false) tr ->
              Forall (fun ev => is_callback_call ev = false)
                     (events_since s
                        {| self := set_ws_connection (Some (now s)) (self s);
                           environment_config := environment_config s;
                           now := now s;
                           trace := (trace s ++ [EvSocket (environment (self s)) (now s)])
                                      ++ tr |})).
    { intros tr Htr. erewrite events_since_trace
        by (simpl; rewrite <- app_assoc; reflexivity).
      constructor; [reflexivity | exact Htr]. }
    destruct (environment_has w (environment (self s)) "heartbeat" (now s)) eqn:K3;
      [|rewrite Hrun; simpl; split; [now intros e [= <-]|]; split;
        [intros Hk; rewrite (Hk "heartbeat") in K3; [discriminate | simpl; tauto]|];
        specialize (Hsock [] (Forall_nil _)); rewrite app_nil_r in Hsock; exact Hsock].
    destruct (environment_has w (environment (self s)) "ssl_opt" (now s)) eqn:K4;
      [|rewrite Hrun; simpl; split; [now intros e [= <-]|]; split;
        [intros Hk; rewrite (Hk "ssl_opt") in K4; [discriminate | simpl; tauto]|];
        specialize (Hsock [] (Forall_nil _)); rewrite app_nil_r in Hsock; exact Hsock].
    cbn [negb andb] in Hrun.
    set (s0 := {| self := set_ws_thread (Some (now s))
                            (set_ws_connection (Some (now s)) (self s));
                  environment_config := environment_config s;
                  now := S (now s);
                  trace := (trace s ++ [EvSocket (environment (self s)) (now s)])
                             ++ [EvThreadStart (now s)] |}) in Hrun.
    assert (Hm : run_spec unset quiet true
                   (wait_for_connection w 5 (now s) (now s) ;;
                    n' <- get_now ;;
                    (if negb (sock_connected w (now s) n')
                     then on_exception w
                            (ApiException "Connection could not be established.")
                     else ret tt))).
    { apply spec_bind.
      - apply (spec_wait_for_connection w unset quiet unset_callbacks).
        intros ev Hev. apply attempt_event_is_no_callback, after_is_attempt,
          connect_is_after, sleep_is_connect, Hev.
      - intros _. apply spec_get_now. intros n'.
        destruct (negb (sock_connected w (now s) n')); [|apply spec_ret].
        apply (spec_on_exception w unset quiet true unset_sink). }
    destruct (Hm s0 H) as (_ & _ & (tr & T & F) & Tot).
    destruct (Tot eq_refl) as [[] Ha].
    rewrite Hrun. split; [rewrite Ha; discriminate|]. split; [intros _; exact Ha|].
    erewrite events_since_trace
      by (rewrite T; unfold s0; simpl; rewrite <- !app_assoc; reflexivity).
    constructor; [reflexivity|]. constructor; [reflexivity | exact F].
  - intros message. rewrite on_message_route. unfold try_except.
    destruct (loads w message) as [msg|e].
    + destruct (route w (self s) msg) as [[[cat hs] arg]|e].
      * rewrite dispatch_loop_run.
        set (calls := map (fun h => EvHandler cat h arg) (called w arg hs)).
        assert (Hcalls : forall h e, ~ In (EvExceptionHandler h e) calls).
        { intros h e Hin. apply in_map_iff in Hin as (x & Hx & _). discriminate Hx. }
        destruct (first_fault w arg hs) as [e|].
        -- rewrite (Hex e (add_trace calls s) H). simpl.
           rewrite events_since_add_trace. auto.
        -- simpl. rewrite events_since_add_trace. auto.
      * unfold raise. rewrite (Hex e s H). simpl. rewrite events_since_refl.
        split; [reflexivity | intros h e' []].
    + unfold raise. rewrite (Hex e s H). simpl. rewrite events_since_refl.
      split; [reflexivity | intros h e' []].
  - intros e conn Hc. unfold on_error, ws_close.
    unfold bind at 1. unfold bind at 1, get_self at 1. rewrite Hc.
    unfold bind at 1, emit, tick. simpl. apply (Hex e). exact H.
  - destruct (run_spec_total_quiet (_attempt_reconnection w messages) s) as [[[] Ha] Hq];
      auto.
    apply (spec_attempt_reconnection w messages unset quiet unset_callbacks true
             unset_sink unset_session).
    + intros ev Hev. apply attempt_event_is_no_callback, after_is_attempt, Hev.
    + intros ev Hev. apply attempt_event_is_no_callback, Hev.
    + intros attempt max_attempts. split; reflexivity.
Qed.

End Silent.

(** The sample client has no exception handler: a fault handed to its sink
    leaves no trace, and a reconnection run that exhausts its attempts
    returns normally. *)
Lemma unset_exception_handler_example :
  on_exception unreachable_world (CallbackError 1) (sample_sys sample_client)
  = (Ok tt, sample_sys sample_client)
  /\ fst (_attempt_reconnection unreachable_world sample_messages
            (sample_sys sample_client)) = Ok tt.
Proof.
  destruct (unset_exception_handler_drops_faults unreachable_world sample_messages
              (sample_sys sample_client) eq_refl) as (H1 & _ & _ & _ & H5 & _).
  split; [apply H1 | exact H5].
Defined.

(** ** Reconnection *)

Lemma try_bind_ok {A B} (m : M A) (f : A -> M B) (h : exn -> M B) (s s' : Sys) (a : A) :
  m s = (Ok a, s') -> try_except (bind m f) h s = try_except (f a) h s'.
Proof. intros H. unfold try_except, bind. now rewrite H. Qed.

Lemma try_bind_raise {A B} (m : M A) (f : A -> M B) (h : exn -> M B) (s s' : Sys) (e : exn) :
  m s = (Raise e, s') -> try_except (bind m f) h s = h e s'.
Proof. intros H. unfold try_except, bind. now rewrite H. Qed.

(** The scan of the registry refreshes the token of the refresher, if the
    client has one. *)
Lemma refresh_token_run (w : World) (me : ClientId)
    (registry : list (EnvKey * EnvConfig)) (s : Sys) :
  refresh_token w me registry s
  = match find_refresher me registry with
    | None => (Ok tt, s)
    | Some r =>
        match update_token_outcome w (now s) r with
        | None => (Ok tt, add_trace [EvLog LogTokenUpdated] (advance [EvUpdateToken r] s))
        | Some e => (Raise e, advance [EvUpdateToken r] s)
        end
    end.
Proof.
  induction registry as [|[env_key env_config] rest IH]; simpl; [reflexivity|].
  destruct (ws_client env_config) as [c|]; [|exact IH].
  destruct (rest_client env_config) as [r|].
  - destruct (Nat.eqb c me); [|exact IH].
    cbv [bind update_token get_now emit tick log ret raise]. simpl.
    destruct (update_token_outcome w (now s) r); reflexivity.
  - destruct (Nat.eqb c me); exact IH.
Qed.

Section Attempt.

Variable w : World.
Variable messages : Messages.
Variable I : WebSocketClient -> Prop.
Variable me : ClientId.

Hypothesis I_callbacks : callbacks_ok w I.
Hypothesis I_session : session_ok I.
Hypothesis I_me : forall c, I c -> self_id c = me.

Lemma tail_sink : sink_ok I (fun ev => is_attempt_tail ev = true) false.
Proof. intros c _. destruct (exception_handler c); auto. Qed.

Lemma sleep_inv (seconds : Q) (s : Sys) :
  sleep_accepts seconds = true ->
  I (self s) ->
  exists s' bg,
    sleep w seconds s = (Ok tt, s')
    /\ I (self s')
    /\ environment_config s' = environment_config s
    /\ trace s' = (trace s ++ EvSleep seconds :: bg)%list
    /\ Forall (fun ev => is_background ev = true) bg.
Proof.
  intros Hs HI.
  assert (E : sleep w seconds s = listen w (add_trace [EvSleep seconds] s))
    by (unfold sleep; apply andb_prop in Hs as [-> ->]; reflexivity).
  destruct (spec_listen w I (fun ev => is_background ev = true) I_callbacks
              (fun ev H => H) (add_trace [EvSleep seconds] s) HI)
    as (I1 & E1 & (tr & T1 & F1) & Tot).
  destruct (Tot eq_refl) as [[] Ha].
  exists (snd (listen w (add_trace [EvSleep seconds] s))), tr.
  rewrite E. repeat split; auto.
  - rewrite <- Ha. now destruct (listen w _).
  - rewrite T1. simpl. now rewrite <- app_assoc.
Qed.

(** What follows the call of [connect] in an attempt, inside the [try] of
    the attempt. *)
Lemma guarded_connect_then (attempt : Z) (done : log_record) (s : Sys) :
  is_after_connect (EvLog done) = true ->
  I (self s) ->
  exists b s' tail,
    try_except (connect w ;; after_connect w messages done)
               (fun e => log (LogAttemptFailed attempt e) ;; ret false) s
    = (Ok b, s')
    /\ I (self s')
    /\ environment_config s' = environment_config s
    /\ trace s' = (trace s ++ tail)%list
    /\ Forall (fun ev => is_attempt_tail ev = true) tail
    /\ ((forall c, I c -> connected c = false) -> b = false).
Proof.
  intros Hd HI.
  destruct (spec_connect_then w messages I (fun ev => is_attempt_tail ev = true)
              I_callbacks false tail_sink I_session after_is_tail done
              (after_is_tail _ Hd) s HI)
    as (I1 & E1 & (tail & T1 & F1) & _).
  assert (Hdown : (forall c, I c -> connected c = false) ->
                  fst ((connect w ;; after_connect w messages done) s) <> Ok true).
  { intros Hfalse.
    destruct (spec_connect w I (fun ev => is_attempt_tail ev = true) I_callbacks false
                tail_sink I_session (fun ev H => after_is_tail _ (connect_is_after _ H))
                s HI) as (Ic & _).
    unfold bind. destruct (connect w s) as [[[]|e] sc]; simpl in *; [|discriminate].
    unfold after_connect, bind, is_connected, get_self, ret. simpl.
    rewrite (Hfalse _ Ic). simpl. discriminate. }
  unfold try_except.
  destruct ((connect w ;; after_connect w messages done) s) as [[b|e] s1]; simpl in *.
  - exists b, s1, tail. repeat split; auto.
    intros Hfalse. specialize (Hdown Hfalse). destruct b; congruence.
  - exists false, (add_trace [EvLog (LogAttemptFailed attempt e)] s1),
      (tail ++ [EvLog (LogAttemptFailed attempt e)])%list.
    repeat split; auto.
    + simpl. rewrite T1, <- app_assoc. reflexivity.
    + apply Forall_app. split; [exact F1 | repeat constructor].
Qed.

(** One attempt: its log record, its wait, and the events of its branch. *)
Lemma attempt_once_run (attempt max_attempts : Z) (delay : Q) (s : Sys) :
  sleep_accepts delay = true ->
  I (self s) ->
  exists b s' bg body,
    attempt_once w messages attempt max_attempts delay s = (Ok b, s')
    /\ I (self s')
    /\ environment_config s' = environment_config s
    /\ trace s' = (trace s ++ EvLog (LogAttempt attempt max_attempts)
                    :: EvSleep delay :: bg ++ body)%list
    /\ Forall (fun ev => is_background ev = true) bg
    /\ attempt_shape attempt (find_refresher me (environment_config s)) body
    /\ ((forall c, I c -> connected c = false) -> b = false)
    /\ (refresh_succeeds w me (environment_config s) -> In EvConnect body).
Proof.
  intros Hdelay HI.
  set (h := fun e => log (LogAttemptFailed attempt e) ;; ret false).
  set (s1 := add_trace [EvLog (LogAttempt attempt max_attempts)] s).
  destruct (sleep_inv delay s1 Hdelay HI) as (s2 & bg & E2 & I2 & R2 & T2 & F2).
  change (environment_config s1) with (environment_config s) in R2.
  assert (Hstart : attempt_once w messages attempt max_attempts delay s
                   = try_except (attempt_body w messages attempt) h s2).
  { unfold attempt_once. fold h.
    rewrite (try_bind_ok _ _ h s s1 tt (log_run _ _)).
    apply (try_bind_ok (sleep w delay) (fun _ => attempt_body w messages attempt)
             h s1 s2 tt E2). }
  assert (T2' : trace s2 = (trace s ++ EvLog (LogAttempt attempt max_attempts)
                            :: EvSleep delay :: bg)%list).
  { rewrite T2. unfold s1; simpl. now rewrite <- app_assoc. }
  destruct (Z.eqb_spec attempt 1) as [Hn|Hn].
  - (* the first attempt *)
    set (s4 := add_trace [EvConnect] (add_trace [EvLog LogSimple] s2)).
    assert (Hbody : try_except (attempt_body w messages attempt) h s2
                    = try_except (connect w ;; after_connect w messages LogSimpleDone) h s4).
    { unfold attempt_body. rewrite Hn. reflexivity. }
    destruct (guarded_connect_then attempt LogSimpleDone s4 eq_refl I2)
      as (b & s5 & tail & E5 & I5 & R5 & T5 & F5 & D5).
    exists b, s5, bg, (EvLog LogSimple :: EvConnect :: tail)%list.
    rewrite Hstart, Hbody. repeat split; auto.
    + rewrite R5. exact R2.
    + rewrite T5. unfold s4; simpl. rewrite T2', <- !app_assoc. reflexivity.
    + apply shape_simple; assumption.
    + intros _. simpl. tauto.
  - (* a later attempt *)
    set (s3 := add_trace [EvLog LogReauth] s2).
    set (registry := environment_config s).
    assert (Hbody : try_except (attempt_body w messages attempt) h s2
                    = try_except (refresh_token w me registry ;;
                                  call_connect w ;;
                                  after_connect w messages LogReauthDone) h s3).
    { unfold attempt_body. rewrite (proj2 (Z.eqb_neq attempt 1) Hn).
      unfold registry. rewrite <- (I_me _ I2), <- R2. reflexivity. }
    rewrite Hstart, Hbody.
    pose proof (refresh_token_run w me registry s3) as Hrefresh.
    destruct (find_refresher me registry) as [r|] eqn:Hfind.
    + destruct (update_token_outcome w (now s3) r) as [e|] eqn:Hout.
      * (* the refresh raises *)
        rewrite (try_bind_raise _ _ h _ _ _ Hrefresh).
        exists false, (add_trace [EvLog (LogAttemptFailed attempt e)]
                         (advance [EvUpdateToken r] s3)), bg,
          [EvLog LogReauth; EvUpdateToken r; EvLog (LogAttemptFailed attempt e)].
        repeat split; auto.
        -- simpl. rewrite T2', <- !app_assoc. reflexivity.
        -- apply (shape_refresh_raised _ _ r e); auto.
        -- intros Hok. rewrite (Hok r (now s3) Hfind) in Hout. discriminate Hout.
      * (* the refresh returns *)
        rewrite (try_bind_ok _ _ h _ _ _ Hrefresh).
        set (s4 := add_trace [EvConnect]
                     (add_trace [EvLog LogTokenUpdated] (advance [EvUpdateToken r] s3))).
        assert (Hc : try_except (call_connect w ;; after_connect w messages LogReauthDone) h
                       (add_trace [EvLog LogTokenUpdated] (advance [EvUpdateToken r] s3))
                     = try_except (connect w ;; after_connect w messages LogReauthDone) h s4)
          by reflexivity.
        rewrite Hc.
        destruct (guarded_connect_then attempt LogReauthDone s4 eq_refl I2)
          as (b & s5 & tail & E5 & I5 & R5 & T5 & F5 & D5).
        exists b, s5, bg,
          (EvLog LogReauth :: EvUpdateToken r :: EvLog LogTokenUpdated :: EvConnect :: tail)%list.
        repeat split; auto.
        -- rewrite R5. exact R2.
        -- rewrite T5. unfold s4; simpl. rewrite T2', <- !app_assoc. reflexivity.
        -- apply shape_reauth; auto.
        -- intros _. simpl. tauto.
    + (* no refresher *)
      rewrite (try_bind_ok _ _ h _ _ _ Hrefresh).
      set (s4 := add_trace [EvConnect] s3).
      assert (Hc : try_except (call_connect w ;; after_connect w messages LogReauthDone) h s3
                   = try_except (connect w ;; after_connect w messages LogReauthDone) h s4)
        by reflexivity.
      rewrite Hc.
      destruct (guarded_connect_then attempt LogReauthDone s4 eq_refl I2)
        as (b & s5 & tail & E5 & I5 & R5 & T5 & F5 & D5).
      exists b, s5, bg, (EvLog LogReauth :: EvConnect :: tail)%list.
      repeat split; auto.
      * rewrite R5. exact R2.
      * rewrite T5. unfold s4; simpl. rewrite T2', <- !app_assoc. reflexivity.
      * apply shape_reauth_without_refresher; auto.
      * intros _. simpl. tauto.
Qed.

(** An attempt whose wait [time.sleep] refuses ends there, logged as
    failed. *)
Lemma attempt_once_refused (attempt max_attempts : Z) (delay : Q) (s : Sys) :
  sleep_accepts delay = false ->
  attempt_once w messages attempt max_attempts delay s
  = (Ok false,
     add_trace [EvLog (LogAttempt attempt max_attempts);
                EvLog (LogAttemptFailed attempt (sleep_error delay))] s).
Proof.
  intros Hs. unfold sleep_accepts in Hs.
  unfold attempt_once, try_except, bind, log, emit, sleep, sleep_error, raise, ret,
    add_trace. simpl.
  destruct (Qle_bool (Qabs delay) sleep_limit).
  - destruct (Qle_bool 0 delay); [discriminate Hs|].
    simpl. rewrite <- app_assoc. reflexivity.
  - simpl. rewrite <- app_assoc. reflexivity.
Qed.

End Attempt.

Lemma attempts_app (a b : list event) : attempts (a ++ b) = (attempts a ++ attempts b)%list.
Proof.
  induction a as [|ev a IH]; simpl; [reflexivity|].
  destruct ev as [| | | | | | | | | | []]; simpl; rewrite IH; reflexivity.
Qed.

Lemma attempts_without_marks (l : list event) :
  Forall (fun ev => is_attempt_mark ev = false) l -> attempts l = [].
Proof.
  induction 1 as [|ev l Hev _ IH]; simpl; [reflexivity|].
  destruct ev as [| | | | | | | | | | []]; try discriminate Hev; exact IH.
Qed.

Lemma backoff_delays_without_marks (l r : list event) :
  Forall (fun ev => is_attempt_mark ev = false) l ->
  backoff_delays (l ++ r) = backoff_delays r.
Proof.
  induction 1 as [|ev l Hev _ IH]; simpl; [reflexivity|].
  destruct ev as [| | | | | | | | | | []]; try discriminate Hev; exact IH.
Qed.

Lemma background_is_no_mark ev : is_background ev = true -> is_attempt_mark ev = false.
Proof. intros H. by_event_cases ev. Qed.

Lemma tail_is_no_mark ev : is_attempt_tail ev = true -> is_attempt_mark ev = false.
Proof. intros H. by_event_cases ev. Qed.

Lemma attempt_shape_without_marks attempt refresher body :
  attempt_shape attempt refresher body ->
  Forall (fun ev => is_attempt_mark ev = false) body.
Proof.
  intros [tail _ F | tail _ _ F | r tail _ _ F | r e _ _];
    repeat (constructor; [reflexivity|]);
    try (eapply Forall_impl; [|exact F]; apply tail_is_no_mark).
  constructor.
Qed.

(** The events of one attempt count as one attempt with one wait. *)
Lemma attempt_segment_counts attempt max_attempts delay refresher bg body rest :
  Forall (fun ev => is_background ev = true) bg ->
  attempt_shape attempt refresher body ->
  attempts (EvLog (LogAttempt attempt max_attempts) :: EvSleep delay
            :: bg ++ body ++ rest) = attempt :: attempts rest
  /\ backoff_delays (EvLog (LogAttempt attempt max_attempts) :: EvSleep delay
                     :: bg ++ body ++ rest) = delay :: backoff_delays rest.
Proof.
  intros Fbg Hshape.
  assert (Fbg' : Forall (fun ev => is_attempt_mark ev = false) bg)
    by (eapply Forall_impl; [|exact Fbg]; apply background_is_no_mark).
  pose proof (attempt_shape_without_marks _ _ _ Hshape) as Fbody.
  split; simpl.
  - rewrite !attempts_app, (attempts_without_marks bg Fbg'),
      (attempts_without_marks body Fbody). reflexivity.
  - rewrite (backoff_delays_without_marks bg _ Fbg'),
      (backoff_delays_without_marks body _ Fbody). reflexivity.
Qed.

(** The end of a run that has used up its attempts. *)
Lemma exhausted_run (w : World) (messages : Messages) attempt max_attempts delay (s : Sys) :
  let failure := ApiException (exhausted_message max_attempts) in
  reconnection_loop w messages 0 attempt max_attempts delay s
  = (sink_result w (self s) failure,
     add_trace (EvLog (LogExhausted max_attempts) :: sink_events (self s) failure) s).
Proof.
  simpl. cbv [bind log emit get_self ret sink_result sink_events add_trace]. simpl.
  destruct (exception_handler (self s)) as [h|]; simpl; [|reflexivity].
  cbv [call_exception_handler bind emit ret raise]. simpl.
  destruct (run_exception_handler w h _); simpl; rewrite <- app_assoc; reflexivity.
Qed.

Lemma reconnection_loop_next (w : World) (messages : Messages) (k : nat)
    (attempt max_attempts : Z) (delay : Q) (s s1 : Sys) :
  attempt_once w messages attempt max_attempts delay s = (Ok false, s1) ->
  reconnection_loop w messages (S k) attempt max_attempts delay s
  = reconnection_loop w messages k (attempt + 1) max_attempts (delay * 2) s1.
Proof. intros E. simpl. now rewrite (bind_ok _ _ s s1 false E). Qed.

Lemma connects_app (a b : list event) : connects (a ++ b) = (connects a + connects b)%nat.
Proof.
  induction a as [|ev a IH]; simpl; [reflexivity|].
  destruct ev; simpl; rewrite ?IH; reflexivity.
Qed.

Lemma connects_of_tail (l : list event) :
  Forall (fun ev => is_attempt_tail ev = true) l -> connects l = 0%nat.
Proof.
  induction 1 as [|ev l Hev _ IH]; simpl; [reflexivity|].
  destruct ev; try discriminate Hev; exact IH.
Qed.

Lemma connects_of_background (l : list event) :
  Forall (fun ev => is_background ev = true) l -> connects l = 0%nat.
Proof.
  induction 1 as [|ev l Hev _ IH]; simpl; [reflexivity|].
  destruct ev; try discriminate Hev; exact IH.
Qed.

(** An attempt that calls [connect] calls it once. *)
Lemma attempt_shape_connects attempt refresher body :
  attempt_shape attempt refresher body -> In EvConnect body -> connects body = 1%nat.
Proof.
  intros [tail _ F | tail _ _ F | r tail _ _ F | r e _ _] Hin; simpl;
    rewrite ?(connects_of_tail _ F); try reflexivity.
  exfalso. destruct Hin as [H | [H | [H | []]]]; discriminate H.
Qed.

Lemma connect_calls_without_marks (current : Z) (l r : list event) :
  Forall (fun ev => is_attempt_mark ev = false) l ->
  connect_calls current (l ++ r)
  = (repeat current (connects l) ++ connect_calls current r)%list.
Proof.
  induction 1 as [|ev l Hev _ IH]; simpl; [reflexivity|].
  destruct ev as [| | | | | | | | | | []]; try discriminate Hev; simpl;
    rewrite IH; reflexivity.
Qed.

(** The events of one attempt that calls [connect] count as one call, made
    in this attempt. *)
Lemma attempt_segment_calls current attempt max_attempts delay refresher bg body rest :
  Forall (fun ev => is_background ev = true) bg ->
  attempt_shape attempt refresher body ->
  In EvConnect body ->
  connect_calls current (EvLog (LogAttempt attempt max_attempts) :: EvSleep delay
                         :: bg ++ body ++ rest)
  = attempt :: connect_calls attempt rest.
Proof.
  intros Fbg Hshape Hin.
  assert (Fbg' : Forall (fun ev => is_attempt_mark ev = false) bg)
    by (eapply Forall_impl; [|exact Fbg]; apply background_is_no_mark).
  pose proof (attempt_shape_without_marks _ _ _ Hshape) as Fbody.
  simpl.
  rewrite (connect_calls_without_marks attempt bg _ Fbg'),
    (connect_calls_without_marks attempt body _ Fbody),
    (connects_of_background bg Fbg), (attempt_shape_connects _ _ _ Hshape Hin).
  reflexivity.
Qed.

Section Run.

Variable w : World.
Variable messages : Messages.

Let known_as (me : ClientId) (c : WebSocketClient) : Prop := self_id c = me.

Lemma known_callbacks me : callbacks_ok w (known_as me).
Proof. intros n cb c _ H. destruct cb; exact H. Qed.

Lemma known_session me : session_ok (known_as me).
Proof. intros n c H. split; exact H. Qed.

(** Every run is a sequence of attempts, at most [remaining] of them. *)
Lemma reconnection_loop_shape (remaining : nat) (attempt max_attempts : Z) (delay : Q)
    (s : Sys) :
  exists tr,
    trace (snd (reconnection_loop w messages remaining attempt max_attempts delay s))
    = (trace s ++ tr)%list
    /\ run_shape max_attempts
         (find_refresher (self_id (self s)) (environment_config s)) attempt delay tr
    /\ (List.length (attempts tr) <= remaining)%nat.
Proof.
  set (me := self_id (self s)). set (registry := environment_config s).
  assert (Hme : known_as me (self s)) by reflexivity.
  assert (Hreg : environment_config s = registry) by reflexivity.
  clearbody me registry. revert attempt delay s Hme Hreg.
  induction remaining as [|k IH]; intros attempt delay s Hme Hreg.
  - rewrite exhausted_run. simpl. eexists. split; [reflexivity|]. split; [|].
    + apply run_stops. constructor; [reflexivity|].
      unfold sink_events. destruct (exception_handler (self s)); repeat constructor.
    + unfold sink_events. destruct (exception_handler (self s)); simpl; lia.
  - destruct (sleep_accepts delay) eqn:Hdelay.
    + (* the wait is taken *)
      destruct (attempt_once_run w messages (known_as me) me (known_callbacks me)
                  (known_session me) (fun c H => H) attempt max_attempts delay s
                  Hdelay Hme)
        as (b & s1 & bg & body & E1 & I1 & R1 & T1 & F1 & Sh1 & _).
      rewrite Hreg in Sh1.
      simpl. rewrite (bind_ok _ _ s s1 b E1). destruct b.
      * exists (EvLog (LogAttempt attempt max_attempts) :: EvSleep delay
                :: bg ++ body ++ [])%list.
        destruct (attempt_segment_counts attempt max_attempts delay _ bg body [] F1 Sh1)
          as [Ha _].
        split; [simpl; rewrite T1, app_nil_r; reflexivity|]. split.
        -- apply run_attempt; auto. apply run_stops. constructor.
        -- rewrite Ha. simpl. lia.
      * destruct (IH (attempt + 1)%Z (delay * 2)%Q s1 I1 (eq_trans R1 Hreg))
          as (rest & T2 & Sh2 & L2).
        exists (EvLog (LogAttempt attempt max_attempts) :: EvSleep delay
                :: bg ++ body ++ rest)%list.
        destruct (attempt_segment_counts attempt max_attempts delay _ bg body rest F1 Sh1)
          as [Ha _].
        split; [|split].
        -- rewrite T2, T1, <- app_assoc. simpl. rewrite <- app_assoc. reflexivity.
        -- apply run_attempt; auto.
        -- rewrite Ha. simpl. lia.
    + (* the wait is refused *)
      pose proof (attempt_once_refused w messages attempt max_attempts delay s Hdelay)
        as E1.
      rewrite (reconnection_loop_next w messages k _ _ _ s _ E1).
      destruct (IH (attempt + 1)%Z (delay * 2)%Q
                  (add_trace [EvLog (LogAttempt attempt max_attempts);
                              EvLog (LogAttemptFailed attempt (sleep_error delay))] s)
                  Hme Hreg)
        as (rest & T2 & Sh2 & L2).
      exists (EvLog (LogAttempt attempt max_attempts)
              :: EvLog (LogAttemptFailed attempt (sleep_error delay)) :: rest)%list.
      split; [|split].
      * rewrite T2. simpl. rewrite <- app_assoc. reflexivity.
      * apply run_wait_refused; assumption.
      * simpl. lia.
Qed.


(** A reconnection run never makes more than [max_reconnect_attempts]
    attempts. *)
Lemma reconnection_attempts_bounded (s : Sys) :
  (List.length (attempts (events_since s (snd (_attempt_reconnection w messages s))))
   <= Z.to_nat (max_reconnect_attempts (self s)))%nat.
Proof.
  unfold _attempt_reconnection, bind, get_self.
  destruct (auto_reconnect (self s)); simpl.
  - destruct (reconnection_loop_shape
                (Z.to_nat (max_reconnect_attempts (self s) - 1 + 1)) 1
                (max_reconnect_attempts (self s)) (reconnect_delay (self s)) s)
      as (tr & T & _ & L).
    rewrite (events_since_trace _ _ _ T).
    replace (max_reconnect_attempts (self s) - 1 + 1)%Z
      with (max_reconnect_attempts (self s)) in L by lia.
    exact L.
  - rewrite events_since_refl. simpl. lia.
Qed.

End Run.



(** *** A run in which no attempt succeeds *)

Section Exhaustion.

Variable w : World.
Variable messages : Messages.
Variable me : ClientId.
Variable sink : option handler.

Hypothesis w_never_opens : never_opens w.

Let down (c : WebSocketClient) : Prop :=
  self_id c = me /\ connected c = false /\ exception_handler c = sink.

Lemma down_callbacks : callbacks_ok w down.
Proof.
  intros n cb c Hin (H1 & H2 & H3). destruct cb as [|code].
  - exfalso. apply (w_never_opens n Hin).
  - repeat split; assumption.
Qed.

Lemma down_session : session_ok down.
Proof. intros n c H. split; exact H. Qed.

Lemma down_sink (c c' : WebSocketClient) (e : exn) :
  down c -> down c' ->
  sink_result w c' e = sink_result w c e /\ sink_events c' e = sink_events c e.
Proof.
  intros (_ & _ & H) (_ & _ & H'). unfold sink_result, sink_events.
  rewrite H, H'. split; reflexivity.
Qed.

(** While the connection cannot be established, the loop makes all its
    attempts, doubling the wait, and then reports the failure; an attempt
    calls [connect] once unless the refresh of the token raises. *)
Lemma failing_loop_run (remaining : nat) (attempt max_attempts : Z) (delay : Q)
    (s : Sys) :
  Forall (fun d => sleep_accepts d = true) (doubling delay remaining) ->
  down (self s) ->
  let failure := ApiException (exhausted_message max_attempts) in
  exists s' tr body,
    reconnection_loop w messages remaining attempt max_attempts delay s
    = (sink_result w (self s) failure, s')
    /\ trace s' = (trace s ++ tr)%list
    /\ tr = (body ++ EvLog (LogExhausted max_attempts)
                  :: sink_events (self s) failure)%list
    /\ attempts tr = numbered attempt remaining
    /\ backoff_delays tr = doubling delay remaining
    /\ (refresh_succeeds w me (environment_config s) ->
        forall current, connect_calls current tr = numbered attempt remaining).
Proof.
  intros Hdelay Hs failure. revert attempt delay s Hdelay Hs.
  induction remaining as [|k IH]; intros attempt delay s Hdelay Hs.
  - exists (add_trace (EvLog (LogExhausted max_attempts)
                       :: sink_events (self s) failure) s),
      (EvLog (LogExhausted max_attempts) :: sink_events (self s) failure), [].
    rewrite exhausted_run. fold failure. repeat split.
    + unfold sink_events. destruct (exception_handler (self s)); reflexivity.
    + unfold sink_events. destruct (exception_handler (self s)); reflexivity.
    + intros _ current. unfold sink_events.
      destruct (exception_handler (self s)); reflexivity.
  - simpl in Hdelay. inversion Hdelay as [|d ds Hd Hds]; subst.
    destruct (attempt_once_run w messages down me down_callbacks down_session
                (fun c H => proj1 H) attempt max_attempts delay s Hd Hs)
      as (b & s1 & bg & seg & E1 & I1 & R1 & T1 & F1 & Sh1 & D1 & C1).
    rewrite (D1 (fun c H => proj1 (proj2 H))) in E1.
    destruct (IH (attempt + 1)%Z (delay * 2)%Q s1 Hds I1)
      as (s2 & rest & body & E2 & T2 & B2 & A2 & Q2 & C2).
    destruct (down_sink (self s) (self s1) failure Hs I1) as [Hres Hev].
    destruct (attempt_segment_counts attempt max_attempts delay _ bg seg rest F1 Sh1)
      as [Ha Hq].
    exists s2, (EvLog (LogAttempt attempt max_attempts) :: EvSleep delay
               :: bg ++ seg ++ rest)%list,
      (EvLog (LogAttempt attempt max_attempts) :: EvSleep delay
       :: bg ++ seg ++ body)%list.
    rewrite (reconnection_loop_next w messages k _ _ _ s s1 E1), E2, Hres.
    repeat split.
    + rewrite T2, T1, <- app_assoc. simpl. rewrite <- app_assoc. reflexivity.
    + rewrite B2, Hev. simpl. rewrite <- !app_assoc. reflexivity.
    + rewrite Ha, A2. reflexivity.
    + rewrite Hq, Q2. reflexivity.
    + intros Hok current.
      rewrite (attempt_segment_calls current attempt max_attempts delay _ bg seg rest
                 F1 Sh1 (C1 Hok)).
      rewrite C2; [reflexivity|]. rewrite R1. exact Hok.
Qed.

End Exhaustion.



(** * Further properties *)

(** ** The handler registry *)

Lemma mem_In (h : handler) (l : list handler) : mem h l = true <-> In h l.
Proof.
  unfold mem. rewrite existsb_exists. split.
  - intros (x & Hin & Hx). apply Nat.eqb_eq in Hx. now subst.
  - intros H. exists h. split; [exact H | apply Nat.eqb_refl].
Qed.

Lemma mem_false (h : handler) (l : list handler) : mem h l = false <-> ~ In h l.
Proof.
  rewrite <- mem_In. destruct (mem h l); split; congruence.
Qed.

Lemma remove_first_absent (h : handler) (l : list handler) :
  ~ In h l -> remove_first h l = l.
Proof.
  induction l as [|x l IH]; simpl; [reflexivity|]. intros H.
  destruct (Nat.eqb_spec x h) as [->|_]; [exfalso; apply H; now left|].
  f_equal. apply IH. intros Hin. apply H. now right.
Qed.

Lemma remove_first_appended (h : handler) (l : list handler) :
  ~ In h l -> remove_first h (l ++ [h]) = l.
Proof.
  induction l as [|x l IH]; simpl; intros H.
  - now rewrite Nat.eqb_refl.
  - destruct (Nat.eqb_spec x h) as [->|_]; [exfalso; apply H; now left|].
    f_equal. apply IH. intros Hin. apply H. now right.
Qed.

Lemma filter_other_absent (h : handler) (l : list handler) :
  ~ In h l -> filter (fun x => negb (Nat.eqb x h)) l = l.
Proof.
  induction l as [|x l IH]; simpl; [reflexivity|]. intros H.
  destruct (Nat.eqb_spec x h) as [->|_]; [exfalso; apply H; now left|].
  simpl. f_equal. apply IH. intros Hin. apply H. now right.
Qed.

(** On a list without duplicates, [l.remove(h)] drops every [h]. *)
Lemma remove_first_filter (h : handler) (l : list handler) :
  NoDup l -> remove_first h l = filter (fun x => negb (Nat.eqb x h)) l.
Proof.
  induction 1 as [|x l Hx Hl IH]; simpl; [reflexivity|].
  destruct (Nat.eqb_spec x h) as [->|_]; simpl.
  - symmetry. apply filter_other_absent, Hx.
  - f_equal. exact IH.
Qed.

Lemma set_handlers_same (c : WebSocketClient) :
  set_handlers (market_data_handlers c) (order_report_handlers c) (error_handlers c) c = c.
Proof. destruct c; reflexivity. Qed.

Lemma put_self_same (s : Sys) : put_self (self s) s = (Ok tt, s).
Proof. destruct s; reflexivity. Qed.

(** What the three [add_..._handler] methods do to the registry. *)
Lemma add_handler_run (cat : category) (h : handler) (s : Sys) :
  let l := handlers_of cat (self s) in
  let s1 := snd (add_handler cat h s) in
  fst (add_handler cat h s) = Ok tt
  /\ handlers_of cat (self s1) = (if mem h l then l else l ++ [h])%list
  /\ add_handler cat h s1 = (Ok tt, s1)
  /\ (NoDup l -> NoDup (handlers_of cat (self s1)))
  /\ (forall cat', cat' <> cat -> handlers_of cat' (self s1) = handlers_of cat' (self s))
  /\ trace s1 = trace s.
Proof.
  intros l s1.
  assert (Hnd : forall l0, NoDup l0 -> NoDup (if mem h l0 then l0 else l0 ++ [h])%list).
  { intros l0 H0. destruct (mem h l0) eqn:Hm; [exact H0|].
    apply mem_false in Hm. apply NoDup_app; [exact H0 | repeat constructor; intros [] |].
    intros x Hx [<- | []]. contradiction. }
  assert (Hagain : forall l0, mem h (if mem h l0 then l0 else l0 ++ [h])%list = true).
  { intros l0. destruct (mem h l0) eqn:Hm; [exact Hm|].
    apply mem_In, in_or_app. right. now left. }
  subst s1 l.
  destruct cat; simpl;
    unfold add_market_data_handler, add_order_report_handler, add_error_handler,
      bind, get_self;
    match goal with |- context [mem h ?l0] =>
      pose proof (Hnd l0) as Hnd'; pose proof (Hagain l0) as Hagain';
      destruct (mem h l0) eqn:Hm
    end; simpl; rewrite ?Hm, ?Hagain'; simpl;
    (repeat split; auto;
     try (intros cat' Hc; destruct cat'; simpl; auto; congruence)).
Qed.

(** X1. Adding a handler appends it to the list of its category when it is
    not there and does nothing when it is: a second add of the same handler
    changes nothing, a list without duplicates stays so, the handlers
    already registered keep their places, and the lists of the other
    categories are not touched.  It never raises and leaves no trace. *)
Theorem add_handler_idempotent (cat : category) (h : handler) (s : Sys) :
  let l := handlers_of cat (self s) in
  let s1 := snd (add_handler cat h s) in
  fst (add_handler cat h s) = Ok tt
  /\ handlers_of cat (self s1) = (if mem h l then l else l ++ [h])%list
  /\ add_handler cat h s1 = (Ok tt, s1)
  /\ (NoDup l -> NoDup (handlers_of cat (self s1)))
  /\ (forall cat', cat' <> cat -> handlers_of cat' (self s1) = handlers_of cat' (self s))
  /\ trace s1 = trace s.
Proof. exact (add_handler_run cat h s). Qed.

(** X2. Removing a handler from a list without duplicates leaves the other
    handlers of the category in their order and the handler itself absent;
    removing a handler that is not registered changes nothing at all.  The
    lists of the other categories are not touched, and nothing is raised. *)
Theorem remove_handler_removes (cat : category) (h : handler) (s : Sys) :
  NoDup (handlers_of cat (self s)) ->
  let l := handlers_of cat (self s) in
  let s1 := snd (remove_handler cat h s) in
  fst (remove_handler cat h s) = Ok tt
  /\ handlers_of cat (self s1) = filter (fun x => negb (Nat.eqb x h)) l
  /\ ~ In h (handlers_of cat (self s1))
  /\ (~ In h l -> remove_handler cat h s = (Ok tt, s))
  /\ (forall cat', cat' <> cat -> handlers_of cat' (self s1) = handlers_of cat' (self s))
  /\ trace s1 = trace s.
Proof.
  intros Hnd l s1.
  assert (Hnot : ~ In h (filter (fun x => negb (Nat.eqb x h)) l)).
  { intros Hin. apply filter_In in Hin as [_ Hx]. now rewrite Nat.eqb_refl in Hx. }
  subst s1 l.
  destruct cat; simpl in *;
    unfold remove_market_data_handler, remove_order_report_handler,
      remove_error_handler, bind, get_self;
    match goal with |- context [mem h ?l0] => destruct (mem h l0) eqn:Hm end; simpl;
    try (apply mem_false in Hm; rewrite (filter_other_absent h _ Hm) in *);
    rewrite <- ?(remove_first_filter h _ Hnd);
    (repeat split; auto;
     try (intros cat' Hc; destruct cat'; simpl; auto; congruence);
     try (rewrite (remove_first_filter h _ Hnd); exact Hnot);
     try (intros Habs; apply mem_In in Hm; contradiction)).
Qed.

Lemma remove_handler_example :
  handlers_of MarketData
    (self (snd (remove_handler MarketData 2 (sample_sys dispatch_client)))) = [1; 3]%nat
  /\ remove_handler MarketData 7 (sample_sys dispatch_client)
     = (Ok tt, sample_sys dispatch_client).
Proof.
  assert (Hnd : NoDup (handlers_of MarketData (self (sample_sys dispatch_client)))).
  { simpl. repeat constructor; simpl; intuition discriminate. }
  destruct (remove_handler_removes MarketData 2 (sample_sys dispatch_client) Hnd)
    as (_ & H2 & _).
  destruct (remove_handler_removes MarketData 7 (sample_sys dispatch_client) Hnd)
    as (_ & _ & _ & H7 & _).
  split; [rewrite H2; reflexivity|].
  apply H7. simpl. intuition discriminate.
Defined.

(** X3. Adding a handler that is not registered and removing it again gives
    back the state from before. *)
Theorem add_then_remove_handler (cat : category) (h : handler) (s : Sys) :
  ~ In h (handlers_of cat (self s)) ->
  snd (remove_handler cat h (snd (add_handler cat h s))) = s.
Proof.
  intros Hnot. apply mem_false in Hnot.
  assert (Hin : forall l, mem h (l ++ [h]) = true)
    by (intros l; apply mem_In, in_or_app; right; now left).
  destruct s as [c reg n tr].
  destruct cat; simpl in *;
    unfold add_market_data_handler, add_order_report_handler, add_error_handler,
      remove_market_data_handler, remove_order_report_handler, remove_error_handler,
      bind, get_self; simpl;
    rewrite Hnot; simpl; rewrite Hin; simpl;
    rewrite (remove_first_appended h _ (proj1 (mem_false h _) Hnot));
    destruct c; reflexivity.
Qed.

Lemma add_then_remove_handler_example :
  snd (remove_handler Error 7 (snd (add_handler Error 7 (sample_sys dispatch_client))))
  = sample_sys dispatch_client.
Proof.
  apply (add_then_remove_handler Error 7 (sample_sys dispatch_client)).
  simpl. intuition discriminate.
Defined.

(** ** Delivery of typed frames *)

Lemma called_all (w : World) (arg : payload) (hs : list handler) :
  (forall h, In h hs -> run_handler w h arg = None) ->
  called w arg hs = hs /\ first_fault w arg hs = None.
Proof.
  induction hs as [|x hs IH]; simpl; intros H; [auto|].
  rewrite (H x (or_introl eq_refl)).
  destruct IH as [-> ->]; [intros h Hh; apply H; now right|]. auto.
Qed.

(** The dispatch of a frame whose type names a category. *)
Lemma on_message_typed_run (w : World) (message : string) (s : Sys)
    (fields : list (string * json)) (t : string) (cat : category) :
  loads w message = inl (JObj fields) ->
  status_is_error fields = false ->
  lookup "type" fields = Some (JStr t) ->
  (cat = MarketData /\ upper t = "MD") \/ (cat = OrderReport /\ upper t = "OR") ->
  (forall h, In h (handlers_of cat (self s)) ->
             run_handler w h (PMsg (JObj fields)) = None) ->
  on_message w message s
  = (Ok tt,
     add_trace (map (fun h => EvHandler cat h (PMsg (JObj fields)))
                    (handlers_of cat (self s))) s).
Proof.
  intros Hl Hs Ht Hcat Hok.
  assert (Hr : route w (self s) (JObj fields)
               = inl (cat, handlers_of cat (self s), PMsg (JObj fields))).
  { unfold route. rewrite Hs, Ht. destruct Hcat as [[-> Hu] | [-> Hu]]; rewrite Hu.
    - reflexivity.
    - reflexivity. }
  rewrite (on_message_dispatch w message s _ _ _ _ Hl Hr).
  unfold dispatch_result, dispatch_events.
  destruct (called_all w _ _ Hok) as [-> ->]. now rewrite app_nil_r.
Qed.

(** X4. A frame without error status whose [type] reads MD in upper case is
    given to every market data handler, one call each, in the order of
    registration, when none of them raises; in the same way a frame whose
    [type] reads OR goes to the order report handlers.  The handlers get
    the decoded frame itself, no other handler is called, and [on_message]
    returns normally. *)
Theorem on_message_delivers_typed_frame (w : World) (message : string) (s : Sys)
    (fields : list (string * json)) (t : string) (cat : category) :
  loads w message = inl (JObj fields) ->
  status_is_error fields = false ->
  lookup "type" fields = Some (JStr t) ->
  (cat = MarketData /\ upper t = "MD") \/ (cat = OrderReport /\ upper t = "OR") ->
  (forall h, In h (handlers_of cat (self s)) ->
             run_handler w h (PMsg (JObj fields)) = None) ->
  on_message w message s
  = (Ok tt,
     add_trace (map (fun h => EvHandler cat h (PMsg (JObj fields)))
                    (handlers_of cat (self s))) s).
Proof. exact (on_message_typed_run w message s fields t cat). Qed.

Lemma on_message_delivers_typed_frame_example :
  on_message unreachable_world "md" (sample_sys (set_handlers [1; 3] [4] [5] sample_client))
  = (Ok tt,
     add_trace [EvHandler MarketData 1 (PMsg (JObj [("type", JStr "Md")]));
                EvHandler MarketData 3 (PMsg (JObj [("type", JStr "Md")]))]
               (sample_sys (set_handlers [1; 3] [4] [5] sample_client))).
Proof.
  apply (on_message_delivers_typed_frame unreachable_world "md"
           (sample_sys (set_handlers [1; 3] [4] [5] sample_client))
           [("type", JStr "Md")] "Md" MarketData eq_refl eq_refl eq_refl).
  - left. split; reflexivity.
  - intros h [<- | [<- | []]]; reflexivity.
Defined.

Lemma count_occ_nodup (h : handler) (l : list handler) :
  NoDup l -> In h l -> count_occ Nat.eq_dec l h = 1%nat.
Proof.
  intros Hnd Hin. apply (proj1 (NoDup_count_occ' Nat.eq_dec l) Hnd h Hin).
Qed.

(** X5. A handler registered twice is still called once for an event: after
    two adds of the same market data handler to a list without duplicates,
    a market data frame is delivered to the registered handlers in their
    order, and the handler occurs exactly once among them. *)
Theorem double_registration_single_delivery (w : World) (message : string) (s : Sys)
    (fields : list (string * json)) (t : string) (h : handler) :
  let s2 := snd (add_handler MarketData h (snd (add_handler MarketData h s))) in
  NoDup (market_data_handlers (self s)) ->
  loads w message = inl (JObj fields) ->
  status_is_error fields = false ->
  lookup "type" fields = Some (JStr t) ->
  upper t = "MD" ->
  (forall x, In x (market_data_handlers (self s2)) ->
             run_handler w x (PMsg (JObj fields)) = None) ->
  on_message w message s2
  = (Ok tt,
     add_trace (map (fun x => EvHandler MarketData x (PMsg (JObj fields)))
                    (market_data_handlers (self s2))) s2)
  /\ count_occ Nat.eq_dec (market_data_handlers (self s2)) h = 1%nat.
Proof.
  intros s2 Hnd Hl Hs Ht Hu Hok.
  destruct (add_handler_run MarketData h s) as (_ & L1 & Hagain & N1 & _).
  assert (E2 : s2 = snd (add_handler MarketData h s))
    by (unfold s2; now rewrite Hagain).
  split.
  - apply (on_message_typed_run w message s2 fields t MarketData Hl Hs Ht);
      [left; auto | exact Hok].
  - rewrite E2. apply count_occ_nodup; [apply N1, Hnd|].
    change (market_data_handlers (self (snd (add_handler MarketData h s))))
      with (handlers_of MarketData (self (snd (add_handler MarketData h s)))).
    rewrite L1. destruct (mem h (handlers_of MarketData (self s))) eqn:Hm.
    + apply mem_In, Hm.
    + apply in_or_app. right. now left.
Qed.

Lemma double_registration_example :
  count_occ Nat.eq_dec
    (market_data_handlers
       (self (snd (add_handler MarketData 3
                     (snd (add_handler MarketData 3
                             (sample_sys (set_handlers [1] [4] [5] sample_client))))))))
    3%nat = 1%nat.
Proof.
  refine (proj2 (double_registration_single_delivery unreachable_world "md"
                   (sample_sys (set_handlers [1] [4] [5] sample_client))
                   [("type", JStr "Md")] "Md" 3%nat _ eq_refl eq_refl eq_refl eq_refl _)).
  - simpl. repeat constructor. simpl. tauto.
  - intros x [<- | [<- | []]]; reflexivity.
Defined.

(** ** Frames that cannot be classified *)

Lemma on_message_classification_fault (w : World) (message : string) (s : Sys)
    (msg : json) (e : exn) :
  loads w message = inl msg ->
  route w (self s) msg = inr e ->
  on_message w message s
  = (sink_result w (self s) e, add_trace (sink_events (self s) e) s).
Proof.
  intros Hl Hr. rewrite on_message_route, Hl, Hr.
  unfold try_except, raise. apply on_exception_run.
Qed.

(** X6. A frame that cannot be decoded, a frame that decodes to a number, a
    truth value or [null], and a frame without error status whose [type] is
    not a text reach no handler of any category: the exception of the
    decoder, a [TypeError] or an [AttributeError] goes to the exception sink
    and [on_message] returns what the sink returns. *)
Theorem on_message_unclassifiable (w : World) (message : string) (s : Sys) :
  (forall e,
      loads w message = inr e ->
      on_message w message s
      = (sink_result w (self s) e, add_trace (sink_events (self s) e) s))
  /\ (forall msg,
        loads w message = inl msg ->
        (msg = JNull \/ (exists b, msg = JBool b) \/ (exists n, msg = JNum n)) ->
        on_message w message s
        = (sink_result w (self s) TypeError,
           add_trace (sink_events (self s) TypeError) s))
  /\ (forall fields v,
        loads w message = inl (JObj fields) ->
        status_is_error fields = false ->
        lookup "type" fields = Some v ->
        (forall t, v <> JStr t) ->
        on_message w message s
        = (sink_result w (self s) AttributeError,
           add_trace (sink_events (self s) AttributeError) s)).
Proof.
  split; [|split].
  - intros e Hl. rewrite on_message_route, Hl. unfold try_except, raise.
    apply on_exception_run.
  - intros msg Hl Hmsg. apply (on_message_classification_fault w message s msg); auto.
    destruct Hmsg as [-> | [[b ->] | [n ->]]]; reflexivity.
  - intros fields v Hl Hs Ht Hv.
    apply (on_message_classification_fault w message s (JObj fields)); auto.
    unfold route. rewrite Hs, Ht.
    destruct v as [| b | n | t | items | fs]; try reflexivity.
    exfalso. apply (Hv t). reflexivity.
Qed.

Lemma on_message_unclassifiable_example :
  on_message working_world "garbled" (sample_sys dispatch_client)
  = (Ok tt, add_trace [EvExceptionHandler 9 JSONDecodeError] (sample_sys dispatch_client))
  /\ on_message working_world "five" (sample_sys dispatch_client)
     = (Ok tt, add_trace [EvExceptionHandler 9 TypeError] (sample_sys dispatch_client))
  /\ on_message working_world "typed" (sample_sys dispatch_client)
     = (Ok tt, add_trace [EvExceptionHandler 9 AttributeError] (sample_sys dispatch_client)).
Proof.
  split; [|split].
  - apply (proj1 (on_message_unclassifiable working_world "garbled"
                    (sample_sys dispatch_client)) JSONDecodeError eq_refl).
  - apply (proj1 (proj2 (on_message_unclassifiable working_world "five"
                           (sample_sys dispatch_client))) (JNum "5") eq_refl).
    right. right. now exists "5".
  - apply (proj2 (proj2 (on_message_unclassifiable working_world "typed"
                           (sample_sys dispatch_client)))
             [("type", JNum "5")] (JNum "5") eq_refl eq_refl eq_refl).
    intros t. discriminate.
Defined.

(** X7. A frame that decodes to an object with neither error status nor a
    [type] entry is given to the error handlers, in place of the frame a
    text that starts with the words of the source, "Websocket: Message
    Supported."; the market data and order report handlers are not
    called. *)
Theorem on_message_without_type (w : World) (message : string) (s : Sys)
    (fields : list (string * json)) :
  loads w message = inl (JObj fields) ->
  status_is_error fields = false ->
  lookup "type" fields = None ->
  let text := msg_not_supported w (JObj fields) in
  on_message w message s
  = (dispatch_result w (self s) (error_handlers (self s)) (PText text),
     add_trace (dispatch_events w (self s) Error (error_handlers (self s)) (PText text)) s)
  /\ String.prefix "Websocket: Message Supported." text = true
  /\ forall cat h a,
       In (EvHandler cat h a) (events_since s (snd (on_message w message s))) ->
       cat = Error /\ In h (error_handlers (self s)) /\ a = PText text.
Proof.
  intros Hl Hs Ht text.
  assert (Hr : route w (self s) (JObj fields)
               = inl (Error, error_handlers (self s), PText text))
    by (unfold route; rewrite Hs, Ht; reflexivity).
  rewrite (on_message_dispatch w message s _ _ _ _ Hl Hr).
  split; [reflexivity|]. split; [reflexivity|].
  simpl. rewrite events_since_add_trace. intros cat h a H.
  now apply dispatch_events_handlers in H.
Qed.

Lemma on_message_without_type_example :
  on_message working_world "heartbeat" (sample_sys dispatch_client)
  = (Ok tt,
     add_trace [EvHandler Error 5 (PText "Websocket: Message Supported. Message: {...}");
                EvHandler Error 6 (PText "Websocket: Message Supported. Message: {...}")]
               (sample_sys dispatch_client)).
Proof.
  destruct (on_message_without_type working_world "heartbeat" (sample_sys dispatch_client)
              [("msg", JStr "ok")] eq_refl eq_refl eq_refl) as [H _].
  rewrite H. reflexivity.
Defined.

(** ** More on the ledger *)

Lemma or_same_eq account snapshot sub :
  or_same account snapshot sub = true
  <-> sub = {| sub_account := account; sub_snapshot := snapshot |}.
Proof.
  unfold or_same. rewrite andb_true_iff, String.eqb_eq, Bool.eqb_true_iff.
  destruct sub as [a b]; simpl. split; [intros [-> ->] | intros [= -> ->]]; auto.
Qed.

(** The ledger after a scan-and-append, and what is kept. *)
Lemma append_if_new {A} (same : A -> bool) (x : A) (l : list A) :
  (forall y, same y = true <-> y = x) ->
  NoDup l ->
  let l' := match find same l with Some _ => l | None => (l ++ [x])%list end in
  NoDup l' /\ In x l' /\ find same l' <> None
  /\ List.length (filter same l') = 1%nat.
Proof.
  intros Hsame Hnd l'.
  assert (Hin : In x l').
  { unfold l'. destruct (find same l) as [y|] eqn:Hf.
    - apply find_some in Hf as [Hy Hs]. apply Hsame in Hs. now subst.
    - apply in_or_app. right. now left. }
  assert (Hnd' : NoDup l').
  { unfold l'. destruct (find same l) as [y|] eqn:Hf; [exact Hnd|].
    apply NoDup_app; [exact Hnd | repeat constructor; intros [] |].
    intros y Hy [<- | []]. apply (find_none _ _ Hf) in Hy.
    now rewrite (proj2 (Hsame x) eq_refl) in Hy. }
  repeat split; auto.
  - intros Hnone. apply (find_none _ _ Hnone) in Hin.
    now rewrite (proj2 (Hsame x) eq_refl) in Hin.
  - apply (filter_one_of_nodup same x); auto.
Qed.

Section MoreLedger.

Variable w : World.
Variable messages : Messages.

Lemma order_report_subscription_run account snapshot (s : Sys) :
  let sub := {| sub_account := account; sub_snapshot := snapshot |} in
  let ledger := order_report (active_subscriptions (self s)) in
  let s' := snd (order_report_subscription w messages account snapshot s) in
  order_report (active_subscriptions (self s'))
  = (match find (or_same account snapshot) ledger with
     | Some _ => ledger
     | None => ledger ++ [sub]
     end)%list
  /\ market_data (active_subscriptions (self s'))
     = market_data (active_subscriptions (self s))
  /\ ws_connection (self s') = ws_connection (self s)
  /\ sends (trace s')
     = (sends (trace s)
        ++ match ws_connection (self s) with
           | Some conn => [(conn, or_message messages account snapshot)]
           | None => []
           end)%list
  /\ fst (order_report_subscription w messages account snapshot s)
     = match ws_connection (self s) with
       | Some conn =>
           match send_outcome w (now s) (or_message messages account snapshot) with
           | None => Ok tt
           | Some e => Raise e
           end
       | None => Raise AttributeError
       end.
Proof.
  intros sub ledger s'. subst s' ledger.
  unfold order_report_subscription, bind, get_self, ws_send. simpl.
  destruct (find _ _) eqn:Hf; simpl;
    unfold bind, get_self, get_now, emit, tick, put_self, log; simpl;
    destruct (ws_connection (self s)) as [conn|] eqn:Hc; simpl;
    try destruct (send_outcome _ _ _); simpl; rewrite ?sends_app; simpl;
    rewrite ?app_nil_r; repeat split; auto.
Qed.

Lemma market_data_subscription_run_any tickers entries market depth (s : Sys) :
  let sub := {| sub_tickers := tickers; sub_entries := entries;
                sub_market := market; sub_depth := depth |} in
  let ledger := market_data (active_subscriptions (self s)) in
  let s' := snd (market_data_subscription w messages tickers entries market depth s) in
  market_data (active_subscriptions (self s'))
  = (match find (md_same tickers entries market depth) ledger with
     | Some _ => ledger
     | None => ledger ++ [sub]
     end)%list
  /\ order_report (active_subscriptions (self s'))
     = order_report (active_subscriptions (self s))
  /\ ws_connection (self s') = ws_connection (self s)
  /\ sends (trace s')
     = (sends (trace s)
        ++ match ws_connection (self s) with
           | Some conn => [(conn, md_message messages tickers entries market depth)]
           | None => []
           end)%list
  /\ fst (market_data_subscription w messages tickers entries market depth s)
     = match ws_connection (self s) with
       | Some conn =>
           match send_outcome w (now s)
                   (md_message messages tickers entries market depth) with
           | None => Ok tt
           | Some e => Raise e
           end
       | None => Raise AttributeError
       end.
Proof.
  intros sub ledger s'. subst s' ledger.
  unfold market_data_subscription, bind, get_self, ws_send. simpl.
  destruct (find _ _) eqn:Hf; simpl;
    unfold bind, get_self, get_now, emit, tick, put_self, log; simpl;
    destruct (ws_connection (self s)) as [conn|] eqn:Hc; simpl;
    try destruct (send_outcome _ _ _); simpl; rewrite ?sends_app; simpl;
    rewrite ?app_nil_r; repeat split; auto.
Qed.

(** X8. Two calls of [order_report_subscription] with the same account and
    snapshot flag, on a client with a socket whose ledger holds no record
    twice, leave exactly one matching record in the ledger and hand the
    message to the socket twice; the snapshot flag travels as lower-case
    [true] or [false]; the market data part of the ledger is not touched. *)
Theorem order_report_subscription_twice (account : string) (snapshot : bool)
    (s : Sys) (conn : nat) :
  NoDup (order_report (active_subscriptions (self s))) ->
  ws_connection (self s) = Some conn ->
  let message :=
    format (ORDER_SUBSCRIPTION messages)
           (fun f => match f with
                     | f_a => account
                     | f_snapshot => if snapshot then "true" else "false"
                     end) in
  let s1 := snd (order_report_subscription w messages account snapshot s) in
  let s2 := snd (order_report_subscription w messages account snapshot s1) in
  List.length (filter (or_same account snapshot)
                 (order_report (active_subscriptions (self s2)))) = 1%nat
  /\ sends (trace s2) = (sends (trace s) ++ [(conn, message); (conn, message)])%list
  /\ NoDup (order_report (active_subscriptions (self s2)))
  /\ market_data (active_subscriptions (self s2))
     = market_data (active_subscriptions (self s)).
Proof.
  intros Hnd Hc message s1 s2.
  assert (Hmsg : or_message messages account snapshot = message).
  { unfold or_message, message. apply format_ext. intros []; [reflexivity|].
    destruct snapshot; reflexivity. }
  destruct (order_report_subscription_run account snapshot s)
    as (L1 & M1 & C1' & T1 & _). fold s1 in L1, M1, C1', T1.
  destruct (order_report_subscription_run account snapshot s1)
    as (L2 & M2 & _ & T2 & _). fold s2 in L2, M2, T2.
  rewrite C1', Hc, Hmsg in T2. rewrite Hc, Hmsg in T1.
  destruct (append_if_new (or_same account snapshot)
              {| sub_account := account; sub_snapshot := snapshot |}
              (order_report (active_subscriptions (self s)))
              (fun y => or_same_eq account snapshot y) Hnd)
    as (Hnd1 & Hin1 & Hf1 & Hlen1).
  rewrite <- L1 in Hnd1, Hin1, Hf1, Hlen1.
  assert (E : order_report (active_subscriptions (self s2))
              = order_report (active_subscriptions (self s1))).
  { rewrite L2. destruct (find _ (order_report (active_subscriptions (self s1))));
      [reflexivity | contradiction]. }
  rewrite E. repeat split; auto.
  - rewrite T2, T1, <- app_assoc. reflexivity.
  - congruence.
Qed.

(** X9. A subscription is entered in the ledger before its message is handed
    to the socket: when the client has no socket, [market_data_subscription]
    and [order_report_subscription] raise [AttributeError] and send nothing,
    and when the socket refuses the message they raise what the socket
    raises, but in both cases the record is in the ledger afterwards. *)
Theorem subscription_recorded_before_send tickers entries market depth account snapshot
    (s : Sys) :
  let md := market_data_subscription w messages tickers entries market depth s in
  let os := order_report_subscription w messages account snapshot s in
  In {| sub_tickers := tickers; sub_entries := entries;
        sub_market := market; sub_depth := depth |}
     (market_data (active_subscriptions (self (snd md))))
  /\ In {| sub_account := account; sub_snapshot := snapshot |}
        (order_report (active_subscriptions (self (snd os))))
  /\ match ws_connection (self s) with
     | None =>
         fst md = Raise AttributeError /\ sends (trace (snd md)) = sends (trace s)
         /\ fst os = Raise AttributeError /\ sends (trace (snd os)) = sends (trace s)
     | Some conn =>
         (forall e, send_outcome w (now s)
                      (md_message messages tickers entries market depth) = Some e ->
                    fst md = Raise e)
         /\ (forall e, send_outcome w (now s)
                         (or_message messages account snapshot) = Some e ->
                       fst os = Raise e)
     end.
Proof.
  intros md os.
  destruct (market_data_subscription_run_any tickers entries market depth s)
    as (L1 & _ & _ & T1 & R1). fold md in L1, T1, R1.
  destruct (order_report_subscription_run account snapshot s)
    as (L2 & _ & _ & T2 & R2). fold os in L2, T2, R2.
  split; [|split].
  - rewrite L1. destruct (find (md_same tickers entries market depth) _) as [x|] eqn:Hf.
    + apply find_some in Hf as [Hin Hx]. apply md_same_eq in Hx. now subst.
    + apply in_or_app. right. now left.
  - rewrite L2. destruct (find (or_same account snapshot) _) as [x|] eqn:Hf.
    + apply find_some in Hf as [Hin Hx]. apply or_same_eq in Hx. now subst.
    + apply in_or_app. right. now left.
  - destruct (ws_connection (self s)) as [conn|].
    + split; intros e He; [rewrite R1 | rewrite R2]; now rewrite He.
    + rewrite app_nil_r in T1, T2. auto.
Qed.

(** The message of a one-shot command goes to the socket and nowhere else. *)
Lemma ws_send_effect (message : string) (s : Sys) :
  self (snd (ws_send w message s)) = self s
  /\ match ws_connection (self s) with
     | Some conn =>
         ws_send w message s
         = (match send_outcome w (now s) message with
            | None => Ok tt
            | Some e => Raise e
            end, advance [EvSend conn message] s)
     | None => ws_send w message s = (Raise AttributeError, s)
     end.
Proof.
  unfold ws_send, bind, get_self, get_now. simpl.
  destruct (ws_connection (self s)) as [conn|]; simpl; [|auto].
  destruct (send_outcome w (now s) message); simpl; auto.
Qed.

End MoreLedger.

Lemma order_report_subscription_twice_example :
  List.length
    (order_report (active_subscriptions (self
      (snd (order_report_subscription working_world sample_messages "REM1234" true
         (snd (order_report_subscription working_world sample_messages "REM1234" true
                 (sample_sys sample_client)))))))) = 1%nat
  /\ sends (trace
       (snd (order_report_subscription working_world sample_messages "REM1234" true
          (snd (order_report_subscription working_world sample_messages "REM1234" true
                  (sample_sys sample_client))))))
     = [(0%nat, "{type:os,account:REM1234,snapshotOnlyActive:true}");
        (0%nat, "{type:os,account:REM1234,snapshotOnlyActive:true}")].
Proof.
  destruct (order_report_subscription_twice working_world sample_messages "REM1234" true
              (sample_sys sample_client) 0%nat (NoDup_nil _) eq_refl) as (H1 & H2 & _).
  split.
  - vm_compute. reflexivity.
  - rewrite H2. reflexivity.
Defined.

(** ** One-shot commands and the replay *)

Section Commands.

Variable w : World.
Variable messages : Messages.
Variable GoodTillDate : TimeInForce.
Variable LIMIT : OrderType.

(** X10. [cancel_order] and [send_order] are not entered in the ledger: they
    leave every field of the client as it is.  On a client with a socket
    they hand exactly one message to it, and raise if the socket does; on a
    client without a socket they raise [AttributeError] and nothing
    happens. *)
Theorem commands_leave_the_client (client_order_id proprietary : string)
    (rq : OrderRequest) (s : Sys) :
  let cancel_text :=
    format (CANCEL_ORDER messages)
           (fun f => match f with f_id => client_order_id | f_p => proprietary end) in
  let order_text :=
    send_order_message messages GoodTillDate LIMIT (rq_ticker rq) (rq_size rq)
      (rq_side rq) (rq_order_type rq) (rq_account rq) (rq_price rq)
      (rq_time_in_force rq) (rq_market rq) (rq_cancel_previous rq) (rq_iceberg rq)
      (rq_expire_date rq) (rq_display_quantity rq) (rq_all_or_none rq)
      (rq_ws_client_order_id rq) in
  let cancel := run_operation w messages GoodTillDate LIMIT
                  (OpCancelOrder client_order_id proprietary) s in
  let order := run_operation w messages GoodTillDate LIMIT (OpSendOrder rq) s in
  self (snd cancel) = self s
  /\ self (snd order) = self s
  /\ match ws_connection (self s) with
     | Some conn =>
         cancel = (match send_outcome w (now s) cancel_text with
                   | None => Ok tt
                   | Some e => Raise e
                   end, advance [EvSend conn cancel_text] s)
         /\ order = (match send_outcome w (now s) order_text with
                     | None => Ok tt
                     | Some e => Raise e
                     end, advance [EvSend conn order_text] s)
     | None =>
         cancel = (Raise AttributeError, s) /\ order = (Raise AttributeError, s)
     end.
Proof.
  intros cancel_text order_text cancel order.
  destruct (ws_send_effect w cancel_text s) as [Hc1 Hc2].
  destruct (ws_send_effect w order_text s) as [Ho1 Ho2].
  split; [exact Hc1|]. split; [exact Ho1|].
  destruct (ws_connection (self s)); split; assumption.
Qed.

(** X11. After [clear_subscriptions] both parts of the ledger are empty, and
    a replay does nothing at all: [_restore_subscriptions] returns normally
    and leaves the state, trace included, as it is, with or without a
    socket.  Clearing touches nothing but the ledger. *)
Theorem clear_subscriptions_then_replay (s : Sys) :
  let s1 := snd (clear_subscriptions s) in
  fst (clear_subscriptions s) = Ok tt
  /\ get_active_subscriptions s1 = (Ok {| market_data := []; order_report := [] |}, s1)
  /\ _restore_subscriptions w messages s1 = (Ok tt, s1)
  /\ sends (trace s1) = sends (trace s)
  /\ set_active_subscriptions (active_subscriptions (self s)) (self s1) = self s.
Proof.
  intros s1. subst s1.
  unfold clear_subscriptions, bind, get_self, put_self, log, emit. simpl.
  repeat split.
  - now rewrite sends_app, app_nil_r.
  - destruct s as [[]]; reflexivity.
Qed.

(** The loop of a replay on a client with a socket: the records are sent in
    order until the socket raises. *)
Lemma replay_loop_any {A} (record_of : A -> log_record) (message_of : A -> string)
    (l : list A) (s : Sys) (conn : nat) :
  ws_connection (self s) = Some conn ->
  exists r s' tr k,
    for_each (fun sub => log (record_of sub) ;; ws_send w (message_of sub) ;; sleep w 0.1)
             l s = (r, s')
    /\ trace s' = (trace s ++ tr)%list
    /\ sends tr = map (fun sub => (conn, message_of sub)) (firstn k l)
    /\ (r = Ok tt -> k = List.length l)
    /\ ((forall n m, send_outcome w n m = None) -> r = Ok tt)
    /\ same_but_connected (self s) (self s').
Proof.
  intros Hc. revert s Hc. induction l as [|sub l IH]; intros s Hc; simpl.
  - exists (Ok tt), s, [], 0%nat. rewrite app_nil_r. repeat split; auto.
  - set (s1 := add_trace [EvLog (record_of sub)] s).
    set (s2 := advance [EvSend conn (message_of sub)] s1).
    pose proof (ws_send_run w (message_of sub) s1 conn Hc) as E2. fold s2 in E2.
    destruct (send_outcome w (now s1) (message_of sub)) as [e|] eqn:Hout.
    + exists (Raise e), s2,
        [EvLog (record_of sub); EvSend conn (message_of sub)], 1%nat.
      rewrite (bind_raise _ _ s s2 e).
      2:{ rewrite (bind_ok _ _ s s1 tt (log_run _ _)).
          apply (bind_raise _ _ s1 s2 e E2). }
      repeat split; auto.
      * simpl. now rewrite <- app_assoc.
      * discriminate.
      * intros Hsend. rewrite Hsend in Hout. discriminate.
    + destruct (sleep_run w 0.1 s2 eq_refl) as (s3 & bg & E3 & T3 & F3 & S3 & _).
      assert (Hc3 : ws_connection (self s3) = Some conn).
      { apply (f_equal ws_connection) in S3. simpl in S3. congruence. }
      destruct (IH s3 Hc3) as (r & s4 & tr & k & E4 & T4 & Sd4 & K4 & O4 & S4).
      exists r, s4, (EvLog (record_of sub) :: EvSend conn (message_of sub)
                     :: EvSleep 0.1 :: bg ++ tr)%list, (S k).
      rewrite (bind_ok _ _ s s3 tt).
      2:{ rewrite (bind_ok _ _ s s1 tt (log_run _ _)).
          rewrite (bind_ok _ _ s1 s2 tt E2). exact E3. }
      repeat split; auto.
      * rewrite T4, T3. simpl. rewrite <- !app_assoc. reflexivity.
      * simpl. rewrite sends_app, (sends_of_background bg F3), Sd4. reflexivity.
      * eapply same_but_connected_trans; [|exact S4]. exact S3.
Qed.

(** The loop of a replay on a client without a socket. *)
Lemma replay_loop_without_socket {A} (record_of : A -> log_record)
    (message_of : A -> string) (l : list A) (s : Sys) :
  ws_connection (self s) = None ->
  exists r tr,
    for_each (fun sub => log (record_of sub) ;; ws_send w (message_of sub) ;; sleep w 0.1)
             l s = (r, add_trace tr s)
    /\ sends tr = []
    /\ (r = Ok tt -> l = []).
Proof.
  intros Hc. destruct l as [|sub l]; simpl.
  - exists (Ok tt), []. rewrite add_trace_nil. auto.
  - exists (Raise AttributeError), [EvLog (record_of sub)].
    cbv [bind log emit ws_send get_self raise]. simpl. rewrite Hc.
    repeat split; auto. discriminate.
Qed.

Lemma firstn_map_app {A B} (f g : A -> B) (k : nat) (l : list A) (l' : list B) :
  map f (firstn k l) = firstn (Nat.min k (List.length l)) (map f l ++ l').
Proof.
  rewrite firstn_app, length_map.
  replace (Nat.min k (List.length l) - List.length l)%nat with 0%nat by lia.
  simpl. rewrite app_nil_r, <- firstn_map.
  destruct (Nat.le_ge_cases k (List.length l)) as [H|H].
  - now rewrite Nat.min_l.
  - rewrite Nat.min_r by exact H.
    rewrite (firstn_all2 (n := k)) by (rewrite length_map; exact H).
    rewrite firstn_all2 by (rewrite length_map; apply Nat.le_refl).
    reflexivity.
Qed.

(** What a replay hands to the socket, whatever the socket does. *)
Lemma restore_subscriptions_run (s : Sys) (conn : nat) :
  ws_connection (self s) = Some conn ->
  let ledger := active_subscriptions (self s) in
  let expected := (map (md_replay messages conn) (market_data ledger)
                   ++ map (or_replay messages conn) (order_report ledger))%list in
  exists k,
    sends (events_since s (snd (_restore_subscriptions w messages s)))
    = firstn k expected
    /\ ((forall n m, send_outcome w n m = None) ->
        sends (events_since s (snd (_restore_subscriptions w messages s))) = expected).
Proof.
  intros Hc ledger expected.
  cut (exists tr k,
          trace (snd (_restore_subscriptions w messages s)) = (trace s ++ tr)%list
          /\ sends tr = firstn k expected
          /\ ((forall n m, send_outcome w n m = None) -> sends tr = expected)).
  { intros (tr & k & Ht & Hk & Hok). exists k.
    rewrite (events_since_trace _ _ _ Ht). auto. }
  destruct (replay_loop_any
              (fun sub => LogRestoringMD (sub_tickers sub) (value (sub_market sub)))
              (fun sub => md_message messages (sub_tickers sub) (sub_entries sub)
                            (sub_market sub) (sub_depth sub))
              (market_data ledger) s conn Hc)
    as (r1 & s1 & tr1 & k1 & E1 & T1 & Sd1 & K1 & O1 & S1).
  assert (Hc1 : ws_connection (self s1) = Some conn).
  { apply (f_equal ws_connection) in S1. simpl in S1. congruence. }
  assert (Hl1 : active_subscriptions (self s1) = ledger).
  { apply (f_equal active_subscriptions) in S1. exact S1. }
  destruct (replay_loop_any
              (fun sub => LogRestoringOR (sub_account sub))
              (fun sub => or_message messages (sub_account sub) (sub_snapshot sub))
              (order_report ledger) s1 conn Hc1)
    as (r2 & s2 & tr2 & k2 & E2 & T2 & Sd2 & K2 & O2 & S2).
  assert (Hl2 : active_subscriptions (self s2) = ledger).
  { apply (f_equal active_subscriptions) in S2. simpl in S2. congruence. }
  unfold _restore_subscriptions, try_except.
  unfold bind at 1, get_self at 1. fold ledger.
  destruct r1 as [[]|e1].
  - (* the first loop ends *)
    rewrite (bind_ok _ _ s s1 tt E1).
    unfold bind at 1, get_self at 1. rewrite Hl1.
    rewrite (K1 eq_refl), firstn_all in Sd1.
    destruct r2 as [[]|e2].
    + (* the second loop ends *)
      rewrite (bind_ok _ _ s1 s2 tt E2).
      unfold bind at 1, get_self at 1. rewrite Hl2.
      rewrite (K2 eq_refl), firstn_all in Sd2.
      destruct ((0 <? List.length (market_data ledger))%nat
                || (0 <? List.length (order_report ledger))%nat); simpl.
      * exists (tr1 ++ tr2 ++ [EvLog LogRestored])%list, (List.length expected).
        rewrite T2, T1, <- !app_assoc, !sends_app, Sd1, Sd2, firstn_all. simpl.
        rewrite app_nil_r. auto.
      * exists (tr1 ++ tr2)%list, (List.length expected).
        rewrite T2, T1, <- !app_assoc, !sends_app, Sd1, Sd2, firstn_all. auto.
    + (* the second loop raises *)
      rewrite (bind_raise _ _ s1 s2 e2 E2). simpl.
      exists (tr1 ++ tr2 ++ [EvLog (LogRestoreFailed e2)])%list,
        (List.length (market_data ledger) + k2)%nat.
      rewrite T2, T1, <- !app_assoc, !sends_app, Sd1, Sd2. simpl. rewrite app_nil_r.
      repeat split.
      * unfold expected.
        replace (List.length (market_data ledger))
          with (List.length (map (md_replay messages conn) (market_data ledger)))
          by apply length_map.
        rewrite firstn_app_2, firstn_map. reflexivity.
      * intros Hsend. discriminate (O2 Hsend).
  - (* the first loop raises *)
    rewrite (bind_raise _ _ s s1 e1 E1). simpl.
    exists (tr1 ++ [EvLog (LogRestoreFailed e1)])%list,
      (Nat.min k1 (List.length (market_data ledger))).
    rewrite T1, <- !app_assoc, !sends_app, Sd1. simpl. rewrite app_nil_r.
    repeat split.
    + unfold expected.
      apply (firstn_map_app _ (fun sub => md_replay messages conn sub)).
    + intros Hsend. discriminate (O1 Hsend).
Qed.

(** A replay on a client without a socket hands nothing to any socket. *)
Lemma restore_subscriptions_without_socket (s : Sys) :
  ws_connection (self s) = None ->
  sends (events_since s (snd (_restore_subscriptions w messages s))) = [].
Proof.
  intros Hc.
  cut (exists tr,
          trace (snd (_restore_subscriptions w messages s)) = (trace s ++ tr)%list
          /\ sends tr = []).
  { intros (tr & Ht & Hs). now rewrite (events_since_trace _ _ _ Ht). }
  destruct (replay_loop_without_socket
              (fun sub => LogRestoringMD (sub_tickers sub) (value (sub_market sub)))
              (fun sub => md_message messages (sub_tickers sub) (sub_entries sub)
                            (sub_market sub) (sub_depth sub))
              (market_data (active_subscriptions (self s))) s Hc)
    as (r1 & tr1 & E1 & Sd1 & _).
  set (s1 := add_trace tr1 s) in *.
  destruct (replay_loop_without_socket
              (fun sub => LogRestoringOR (sub_account sub))
              (fun sub => or_message messages (sub_account sub) (sub_snapshot sub))
              (order_report (active_subscriptions (self s))) s1 Hc)
    as (r2 & tr2 & E2 & Sd2 & _).
  unfold _restore_subscriptions, try_except.
  unfold bind at 1, get_self at 1.
  destruct r1 as [[]|e1].
  - rewrite (bind_ok _ _ s s1 tt E1).
    unfold bind at 1, get_self at 1.
    change (active_subscriptions (self s1)) with (active_subscriptions (self s)).
    destruct r2 as [[]|e2].
    + rewrite (bind_ok _ _ s1 _ tt E2).
      unfold bind at 1, get_self at 1. simpl.
      destruct (_ || _); simpl.
      * exists (tr1 ++ tr2 ++ [EvLog LogRestored])%list.
        rewrite <- !app_assoc, !sends_app, Sd1, Sd2. auto.
      * exists (tr1 ++ tr2)%list. rewrite <- !app_assoc, !sends_app, Sd1, Sd2. auto.
    + rewrite (bind_raise _ _ s1 _ e2 E2). simpl.
      exists (tr1 ++ tr2 ++ [EvLog (LogRestoreFailed e2)])%list.
      rewrite <- !app_assoc, !sends_app, Sd1, Sd2. auto.
  - rewrite (bind_raise _ _ s s1 e1 E1). simpl.
    exists (tr1 ++ [EvLog (LogRestoreFailed e1)])%list.
    rewrite <- !app_assoc, !sends_app, Sd1. auto.
Qed.

(** X12. [_restore_subscriptions] never raises, whatever the socket does:
    a failure of a send ends the replay and is logged.  The client is left
    as it was, up to the connection flag, so the ledger survives a failed
    replay; what reached the socket is an initial part of the ledger, market
    data records first; a client without a socket replays nothing. *)
Theorem restore_subscriptions_never_raises (s : Sys) :
  let r := _restore_subscriptions w messages s in
  let ledger := active_subscriptions (self s) in
  fst r = Ok tt
  /\ same_but_connected (self s) (self (snd r))
  /\ active_subscriptions (self (snd r)) = ledger
  /\ match ws_connection (self s) with
     | Some conn =>
         exists k,
           sends (events_since s (snd r))
           = firstn k (map (md_replay messages conn) (market_data ledger)
                       ++ map (or_replay messages conn) (order_report ledger))%list
     | None => sends (events_since s (snd r)) = []
     end.
Proof.
  intros r ledger.
  destruct (spec_restore_subscriptions w messages (same_but_connected (self s))
              (fun ev => is_after_connect ev = true)
              (same_but_connected_callbacks w (self s)) (fun ev H => H)
              s (same_but_connected_refl _))
    as (HI & _ & _ & Htot).
  destruct (Htot eq_refl) as [[] Hr].
  split; [exact Hr|]. split; [exact HI|]. split.
  - apply (f_equal active_subscriptions) in HI. exact HI.
  - destruct (ws_connection (self s)) as [conn|] eqn:Hc.
    + destruct (restore_subscriptions_run s conn Hc) as (k & Hk & _).
      exists k. exact Hk.
    + apply restore_subscriptions_without_socket, Hc.
Qed.

Lemma run_operations_app (a b : list operation) (s : Sys) :
  run_operations w messages GoodTillDate LIMIT (a ++ b) s
  = run_operations w messages GoodTillDate LIMIT b
      (run_operations w messages GoodTillDate LIMIT a s).
Proof. revert s. induction a as [|op a IH]; intros s; simpl; [reflexivity | apply IH]. Qed.

End Commands.

(** ** Subscriptions and their replay *)

Section RoundTrip.

Variable w : World.
Variable messages : Messages.
Variable GoodTillDate : TimeInForce.
Variable LIMIT : OrderType.

Local Abbreviation run := (run_operations w messages GoodTillDate LIMIT).

Local Abbreviation subscribe_or :=
  (fun sub => OpOrderReportSubscription (sub_account sub) (sub_snapshot sub)).

Lemma order_report_subscriptions_run (reports : list OrderReportSub) (s : Sys)
    (conn : nat) :
  ws_connection (self s) = Some conn ->
  NoDup (order_report (active_subscriptions (self s)) ++ reports) ->
  let s1 := run (map subscribe_or reports) s in
  order_report (active_subscriptions (self s1))
  = (order_report (active_subscriptions (self s)) ++ reports)%list
  /\ market_data (active_subscriptions (self s1))
     = market_data (active_subscriptions (self s))
  /\ ws_connection (self s1) = Some conn
  /\ sends (trace s1)
     = (sends (trace s) ++ map (or_replay messages conn) reports)%list.
Proof.
  revert s. induction reports as [|sub reports IH]; intros s Hc Hnd; simpl.
  - rewrite !app_nil_r. auto.
  - destruct (order_report_subscription_run w messages (sub_account sub)
                (sub_snapshot sub) s) as (L1 & L2 & L3 & L4 & _).
    set (s' := snd (order_report_subscription w messages (sub_account sub)
                      (sub_snapshot sub) s)) in *.
    assert (Hnew : find (or_same (sub_account sub) (sub_snapshot sub))
                        (order_report (active_subscriptions (self s))) = None).
    { destruct (find _ _) as [x|] eqn:Hf; [|reflexivity].
      apply find_some in Hf as [Hin Hx]. apply or_same_eq in Hx.
      exfalso. apply (NoDup_remove_2 _ _ _ Hnd). apply in_or_app. left.
      destruct sub; simpl in Hx. now subst. }
    rewrite Hnew in L1. rewrite Hc in L3, L4.
    assert (Hsub : {| sub_account := sub_account sub;
                      sub_snapshot := sub_snapshot sub |} = sub)
      by (destruct sub; reflexivity).
    rewrite Hsub in L1.
    destruct (IH s' L3) as (M1 & M2 & M3 & M4).
    { rewrite L1, <- app_assoc. exact Hnd. }
    rewrite M1, M2, M3, M4, L1, L2, L4, <- !app_assoc. auto.
Qed.

(** X13. Subscribing to order reports and replaying agree.  On a client
    with a socket and no order report record in its ledger, a series of
    order report subscriptions, all different, leaves exactly these records
    in the ledger, in the order of the calls, whether the sends succeed or
    not, and leaves the market data part as it is; a later
    [_restore_subscriptions] over a socket that accepts every message sends
    the market data records of the ledger and then the very messages that
    the subscriptions sent, in the same order. *)
Theorem order_report_subscriptions_replayed_as_sent (reports : list OrderReportSub)
    (s : Sys) (conn : nat) :
  ws_connection (self s) = Some conn ->
  order_report (active_subscriptions (self s)) = [] ->
  NoDup reports ->
  let s1 := run (map subscribe_or reports) s in
  let sent := map (or_replay messages conn) reports in
  order_report (active_subscriptions (self s1)) = reports
  /\ market_data (active_subscriptions (self s1))
     = market_data (active_subscriptions (self s))
  /\ sends (trace s1) = (sends (trace s) ++ sent)%list
  /\ ((forall n m, send_outcome w n m = None) ->
      sends (events_since s1 (snd (_restore_subscriptions w messages s1)))
      = (map (md_replay messages conn) (market_data (active_subscriptions (self s)))
         ++ sent)%list).
Proof.
  intros Hc Hempty Hreports s1 sent.
  destruct (order_report_subscriptions_run reports s conn Hc) as (R1 & R2 & R3 & R4).
  { rewrite Hempty. exact Hreports. }
  fold s1 in R1, R2, R3, R4. rewrite Hempty in R1. simpl in R1.
  split; [exact R1|]. split; [exact R2|]. split; [exact R4|].
  intros Hsend.
  destruct (restore_subscriptions_run w messages s1 conn R3) as (k & _ & Hall).
  rewrite (Hall Hsend), R1, R2. reflexivity.
Qed.

End RoundTrip.

Lemma order_report_subscriptions_replayed_example :
  let reports := [ {| sub_account := "REM1234"; sub_snapshot := true |};
                   {| sub_account := "REM1234"; sub_snapshot := false |};
                   {| sub_account := "REM5678"; sub_snapshot := true |} ] in
  let s := sample_sys sample_client in
  let s1 := run_operations working_world sample_messages {| value := "GTD" |}
              {| value := "LIMIT" |}
              (map (fun sub => OpOrderReportSubscription (sub_account sub)
                                 (sub_snapshot sub)) reports) s in
  order_report (active_subscriptions (self s1)) = reports
  /\ List.length (sends (trace s1)) = 3%nat
  /\ sends (events_since s1 (snd (_restore_subscriptions working_world sample_messages s1)))
     = sends (trace s1).
Proof.
  intros reports s s1.
  destruct (order_report_subscriptions_replayed_as_sent working_world sample_messages
              {| value := "GTD" |} {| value := "LIMIT" |} reports s 0%nat)
    as (H1 & H2 & H3 & H4).
  - reflexivity.
  - reflexivity.
  - repeat constructor; simpl; intuition discriminate.
  - fold s1 in H1, H2, H3, H4. split; [exact H1|]. split.
    + rewrite H3. reflexivity.
    + rewrite (H4 (fun _ _ => eq_refl)), H3. reflexivity.
Defined.

(** ** An invariant of the client *)

Lemma NoDup_snoc {A} (x : A) (l : list A) : NoDup l -> ~ In x l -> NoDup (l ++ [x]).
Proof.
  intros Hl Hx. induction Hl as [|y l Hy Hl IH]; simpl.
  - constructor; [intros [] | constructor].
  - constructor.
    + intros Hin. apply in_app_or in Hin as [Hin | [-> | []]]; [exact (Hy Hin)|].
      apply Hx. now left.
    + apply IH. intros Hin. apply Hx. now right.
Qed.

Lemma NoDup_remove_first (h : handler) (l : list handler) :
  NoDup l -> NoDup (remove_first h l).
Proof. intros Hl. rewrite (remove_first_filter h l Hl). apply NoDup_filter, Hl. Qed.

Section Invariant.

Variable w : World.
Variable messages : Messages.
Variable GoodTillDate : TimeInForce.
Variable LIMIT : OrderType.

Local Abbreviation any := (fun _ : event => True).
Local Abbreviation keeps := (run_spec client_ok any false).

Lemma client_ok_callbacks : callbacks_ok w client_ok.
Proof. intros n cb c _ H. destruct cb; exact H. Qed.

Lemma client_ok_session : session_ok client_ok.
Proof. intros n c H. split; exact H. Qed.

Lemma client_ok_sink : sink_ok client_ok any false.
Proof. intros c _. destruct (exception_handler c); auto. Qed.

Ltac keep_step :=
  first [ apply spec_ret | apply spec_raise | apply spec_tick
        | apply spec_emit; exact Logic.I | apply spec_log; exact Logic.I
        | apply spec_on_exception; exact client_ok_sink
        | apply spec_ws_send; intros; exact Logic.I ].

Lemma keeps_add_handler cat h : keeps (add_handler cat h).
Proof.
  destruct cat; apply spec_get_self; intros c (H1 & H2 & H3 & H4 & H5);
    destruct (mem h _) eqn:Hm; simpl; try keep_step;
    apply spec_put_self; repeat split; simpl; auto;
    apply NoDup_snoc; auto; apply mem_false, Hm.
Qed.

Lemma keeps_remove_handler cat h : keeps (remove_handler cat h).
Proof.
  destruct cat; apply spec_get_self; intros c (H1 & H2 & H3 & H4 & H5);
    destruct (mem h _) eqn:Hm; simpl; try keep_step;
    apply spec_put_self; repeat split; simpl; auto;
    apply NoDup_remove_first; auto.
Qed.

Lemma keeps_ws_close : keeps ws_close.
Proof.
  apply spec_get_self; intros c Hc. destruct (ws_connection c); [|keep_step].
  apply spec_bind; [keep_step | intros _; keep_step].
Qed.

Lemma keeps_market_data_subscription tickers entries market depth :
  keeps (market_data_subscription w messages tickers entries market depth).
Proof.
  apply spec_get_self; intros c (H1 & H2 & H3 & H4 & H5).
  apply spec_bind; [|intros _; keep_step].
  pose proof (append_if_new (md_same tickers entries market depth) _
                (market_data (active_subscriptions c))
                (md_same_eq tickers entries market depth) H4) as (Hnd & _).
  simpl. destruct (find _ _); [keep_step|].
  apply spec_bind; [|intros _; keep_step].
  apply spec_put_self. repeat split; simpl; auto.
Qed.

Lemma keeps_order_report_subscription account snapshot :
  keeps (order_report_subscription w messages account snapshot).
Proof.
  apply spec_get_self; intros c (H1 & H2 & H3 & H4 & H5).
  apply spec_bind; [|intros _; keep_step].
  pose proof (append_if_new (or_same account snapshot) _
                (order_report (active_subscriptions c))
                (or_same_eq account snapshot) H5) as (Hnd & _).
  simpl. destruct (find _ _); [keep_step|].
  apply spec_bind; [|intros _; keep_step].
  apply spec_put_self. repeat split; simpl; auto.
Qed.

Lemma keeps_dispatch (cat : category) (arg : payload) (hs : list handler) :
  keeps (for_each (fun h => call_handler w cat h arg) hs).
Proof.
  apply spec_for_each. intros h _. apply spec_bind; [keep_step|]. intros _.
  destruct (run_handler w h arg); keep_step.
Qed.

Lemma keeps_on_message message : keeps (on_message w message).
Proof.
  apply spec_try; [|intros e; keep_step].
  apply spec_bind; [destruct (loads w message); keep_step|]. intros msg.
  apply spec_bind; [destruct msg; keep_step|]. intros has_status.
  apply spec_bind.
  { destruct has_status; [|keep_step].
    apply spec_bind; [|intros v; keep_step].
    destruct msg; try keep_step. simpl. destruct (find _ _); keep_step. }
  intros is_error. apply spec_get_self. intros c Hc.
  destruct is_error; [apply keeps_dispatch|].
  apply spec_bind; [destruct msg; keep_step|]. intros has_type.
  destruct has_type; [|apply keeps_dispatch].
  apply spec_bind.
  { destruct msg; try keep_step. simpl. destruct (find _ _); keep_step. }
  intros v. apply spec_bind; [destruct v; keep_step|]. intros msg_type.
  destruct (String.eqb msg_type "MD"); [apply keeps_dispatch|].
  destruct (String.eqb msg_type "OR"); apply keeps_dispatch.
Qed.

Lemma keeps_operation (op : operation) :
  keeps (run_operation w messages GoodTillDate LIMIT op).
Proof.
  destruct op; simpl.
  - apply keeps_add_handler.
  - apply keeps_remove_handler.
  - apply spec_get_self; intros c Hc. apply spec_put_self. exact Hc.
  - apply (spec_connect w client_ok (fun _ => True) client_ok_callbacks false
             client_ok_sink client_ok_session).
    intros ev _. exact Logic.I.
  - apply keeps_ws_close.
  - apply keeps_market_data_subscription.
  - apply keeps_order_report_subscription.
  - keep_step.
  - keep_step.
  - apply spec_get_self; intros c Hc.
    apply spec_bind; [apply spec_put_self; exact Hc | intros _; keep_step].
  - apply spec_get_self; intros c Hc.
    apply spec_bind; [apply spec_put_self; exact Hc | intros _; keep_step].
  - apply spec_get_self; intros c (H1 & H2 & H3 & H4 & H5).
    apply spec_bind; [|intros _; keep_step].
    apply spec_put_self. repeat split; simpl; auto; constructor.
  - apply keeps_on_message.
  - apply spec_bind; [apply keeps_ws_close | intros _; keep_step].
  - apply spec_get_self; intros c Hc. apply spec_put_self. exact Hc.
  - apply spec_bind; [keep_step|]. intros _.
    apply spec_get_self; intros c Hc.
    apply spec_bind; [apply spec_put_self; exact Hc|]. intros _.
    destruct (_ =? _)%Z; [|keep_step].
    apply spec_bind; [keep_step | intros _; keep_step].
  - apply spec_attempt_reconnection;
      auto using client_ok_callbacks, client_ok_session, client_ok_sink.
Qed.

(** X14. No handler list and no part of the ledger ever holds an entry
    twice: this holds of a new client and survives every sequence of method
    calls, listener callbacks and recovery runs, in every world, whether
    they raise or not.  Such a sequence never writes to the environment
    registry, and it only adds to the trace. *)
Theorem client_ok_invariant (ops : list operation) (s : Sys) :
  client_ok (self s) ->
  let s' := run_operations w messages GoodTillDate LIMIT ops s in
  client_ok (self s')
  /\ environment_config s' = environment_config s
  /\ exists tr, trace s' = (trace s ++ tr)%list.
Proof.
  revert s. induction ops as [|op ops IH]; intros s Hs; simpl.
  - split; [exact Hs|]. split; [reflexivity|]. exists []. now rewrite app_nil_r.
  - destruct (keeps_operation op s Hs) as (H1 & H2 & (tr1 & T1 & _) & _).
    destruct (IH _ H1) as (K1 & K2 & (tr2 & T2)).
    split; [exact K1|]. split; [congruence|].
    exists (tr1 ++ tr2)%list. rewrite T2, T1, app_assoc. reflexivity.
Qed.

End Invariant.

Lemma client_ok_init (id : ClientId) (env : EnvKey) : client_ok (init id env).
Proof. repeat split; constructor. Qed.

Lemma client_ok_invariant_example :
  client_ok
    (self (run_operations working_world sample_messages {| value := "GTD" |}
             {| value := "LIMIT" |}
             [OpAddHandler MarketData 1%nat; OpAddHandler MarketData 1%nat;
              OpRemoveHandler Error 4%nat; OpConnect;
              OpMarketDataSubscription ["DLR/MAR23"] [{| value := "BI" |}]
                {| value := "ROFX" |} 1;
              OpMarketDataSubscription ["DLR/MAR23"] [{| value := "BI" |}]
                {| value := "ROFX" |} 1;
              OpOnMessage "typed"; OpOnClose 1008; OpAttemptReconnection]
             (sample_sys (init 1%nat 0%nat)))).
Proof.
  apply (client_ok_invariant working_world sample_messages {| value := "GTD" |}
           {| value := "LIMIT" |} _ (sample_sys (init 1%nat 0%nat))).
  apply client_ok_init.
Defined.

(** ** What an inbound frame cannot do *)

(** X15. Whatever the frame and whatever the handlers do, [on_message]
    changes no field of the client, leaves the registry and the clock
    alone, and lets no exception of the decoder, of the classification or of
    a handler escape: it raises only what the exception handler raises when
    it is given such an exception, and it returns normally when no
    exception handler is set. *)
Theorem on_message_is_contained (w : World) (message : string) (s : Sys) :
  let r := on_message w message s in
  exists tr,
    snd r = add_trace tr s
    /\ (forall e, fst r = Raise e ->
          exists h e0,
            exception_handler (self s) = Some h
            /\ run_exception_handler w h e0 = Some e
            /\ In (EvExceptionHandler h e0) tr)
    /\ (exception_handler (self s) = None -> fst r = Ok tt).
Proof.
  intros r.
  assert (Hsink : forall e0 tr0,
             r = on_exception w e0 (add_trace tr0 s) ->
             exists tr,
               snd r = add_trace tr s
               /\ (forall e, fst r = Raise e ->
                     exists h e1,
                       exception_handler (self s) = Some h
                       /\ run_exception_handler w h e1 = Some e
                       /\ In (EvExceptionHandler h e1) tr)
               /\ (exception_handler (self s) = None -> fst r = Ok tt)).
  { intros e0 tr0 Hr. rewrite Hr, on_exception_run. simpl.
    exists (tr0 ++ sink_events (self s) e0)%list.
    rewrite add_trace_add_trace. split; [reflexivity|].
    unfold sink_result, sink_events.
    destruct (exception_handler (self s)) as [h|]; [|split; [discriminate | reflexivity]].
    split; [|discriminate].
    intros e He. exists h, e0. split; [reflexivity|]. split.
    - destruct (run_exception_handler w h e0); [congruence | discriminate].
    - apply in_or_app. right. now left. }
  assert (Hr : r = on_message w message s) by reflexivity.
  rewrite on_message_route in Hr. unfold try_except in Hr.
  destruct (loads w message) as [msg|e0].
  - destruct (route w (self s) msg) as [[[cat hs] arg]|e0].
    + rewrite dispatch_loop_run in Hr.
      destruct (first_fault w arg hs) as [e0|].
      * apply (Hsink e0 _ Hr).
      * rewrite Hr. simpl. eexists. split; [reflexivity|].
        split; [discriminate | reflexivity].
    + apply (Hsink e0 []). rewrite add_trace_nil. exact Hr.
  - apply (Hsink e0 []). rewrite add_trace_nil. exact Hr.
Qed.

(** ** Errors of the connection *)

(** X16. [on_error] closes the socket first and then gives the exception to
    the exception sink, returning what the sink returns; it leaves the
    [connected] flag and every other field as they are.  On a client that
    has no socket it raises [AttributeError] before the sink is reached, so
    the exception handler is never told of the error. *)
Theorem on_error_closes_then_reports (w : World) (exception : exn) (s : Sys) :
  let r := on_error w exception s in
  self (snd r) = self s
  /\ match ws_connection (self s) with
     | Some conn =>
         fst r = sink_result w (self s) exception
         /\ events_since s (snd r)
            = EvCloseSocket conn :: sink_events (self s) exception
     | None => r = (Raise AttributeError, s)
     end.
Proof.
  intros r. subst r. unfold on_error, ws_close. cbv [bind get_self raise].
  destruct (ws_connection (self s)) as [conn|]; [|split; reflexivity].
  cbv [emit tick]. rewrite on_exception_run. simpl. split; [reflexivity|].
  split; [reflexivity|].
  apply events_since_trace. simpl. rewrite <- app_assoc. reflexivity.
Qed.

(** ** More on the recovery thread *)

Section Recovery.

Variable w : World.
Variable messages : Messages.


(** What [on_close] does. *)
Lemma on_close_run (code : Z) (s : Sys) :
  on_close code s
  = (Ok tt,
     {| self := set_connected false (self s);
        environment_config := environment_config s;
        now := now s;
        trace := trace s ++ EvLog (LogClosed code)
                   :: (if (code =? 1008)%Z
                       then [EvLog LogClosed1008; EvSpawnReconnection] else []) |}).
Proof.
  unfold on_close, bind, get_self, put_self, log, emit. simpl.
  destruct (code =? 1008)%Z; simpl; rewrite <- ?app_assoc; reflexivity.
Qed.

(** X18. [disable_auto_reconnect] switches the recovery off and keeps the
    configured maximum and delay.  From then on a run of
    [_attempt_reconnection] returns at once and does nothing, in every
    world: no log record, no wait, no call of [connect].  A closure with
    code 1008 still starts the recovery thread, and only such a closure
    does; its run does nothing. *)
Theorem disable_auto_reconnect_stops_recovery (s : Sys) :
  let s1 := snd (disable_auto_reconnect s) in
  fst (disable_auto_reconnect s) = Ok tt
  /\ self s1 = set_reconnect false (max_reconnect_attempts (self s))
                 (reconnect_delay (self s)) (self s)
  /\ _attempt_reconnection w messages s1 = (Ok tt, s1)
  /\ forall code,
       let s2 := snd (on_close code s1) in
       _attempt_reconnection w messages s2 = (Ok tt, s2)
       /\ (In EvSpawnReconnection (events_since s1 s2) <-> code = 1008%Z).
Proof.
  intros s1. split; [reflexivity|]. split; [reflexivity|]. split; [reflexivity|].
  intros code s2. unfold s2. rewrite on_close_run. split; [reflexivity|].
  set (tail := if (code =? 1008)%Z
              then [EvLog LogClosed1008; EvSpawnReconnection] else []).
  set (s3 := {| self := set_connected false (self s1);
                environment_config := environment_config s1;
                now := now s1;
                trace := trace s1 ++ EvLog (LogClosed code) :: tail |}).
  change (snd (Ok tt, s3)) with s3.
  rewrite (events_since_trace s1 s3 (EvLog (LogClosed code) :: tail) eq_refl).
  unfold tail. destruct (Z.eqb_spec code 1008) as [Heq|Hne]; simpl.
  - split; [intros _; exact Heq | intros _; auto].
  - split; [|intros Heq; contradiction].
    intros [H | []]. discriminate H.
Qed.

(** The loop of the recovery raises only what the exception handler raises
    when it is told of the exhaustion. *)
Lemma reconnection_loop_raises (sink : option handler) (remaining : nat)
    (attempt max_attempts : Z) (delay : Q) (s : Sys) (e : exn) :
  exception_handler (self s) = sink ->
  fst (reconnection_loop w messages remaining attempt max_attempts delay s) = Raise e ->
  exists h,
    sink = Some h
    /\ run_exception_handler w h (ApiException (exhausted_message max_attempts)) = Some e.
Proof.
  revert attempt delay s. induction remaining as [|k IH]; intros attempt delay s Hs.
  - rewrite exhausted_run. simpl. unfold sink_result. rewrite Hs.
    destruct sink as [h|]; [|discriminate].
    destruct (run_exception_handler w h _) as [e'|] eqn:He; [|discriminate].
    intros [= ->]. exists h. auto.
  - destruct (spec_attempt_once w messages (fun c => exception_handler c = sink)
                (fun _ => True)
                (fun n cb c _ H => match cb with CbOpen => H | CbClose _ => H end)
                false
                (fun c _ => match exception_handler c as o
                                  return match o with
                                         | None => True
                                         | Some h => false = false /\ forall e, True
                                         end
                            with
                            | None => Logic.I
                            | Some h => conj eq_refl (fun _ => Logic.I)
                            end)
                (fun n c H => conj H H) (fun _ _ => Logic.I) (fun _ _ => Logic.I)
                (fun _ _ => conj Logic.I Logic.I) attempt max_attempts delay s Hs)
      as (H1 & _ & _ & Htot).
    destruct (Htot eq_refl) as [b Hb].
    destruct (attempt_once w messages attempt max_attempts delay s) as [r1 s1] eqn:E1.
    simpl in Hb, H1. subst r1. destruct b.
    + simpl. unfold bind. rewrite E1. discriminate.
    + rewrite (reconnection_loop_next w messages k attempt max_attempts delay s s1 E1).
      apply IH, H1.
Qed.

(** X19. No exception leaves a run of [_attempt_reconnection] except one
    raised by the exception handler when the run gives it the
    [ApiException] of the exhaustion: what sleeping, refreshing the token,
    connecting or replaying raises inside an attempt is caught and
    logged, whatever the world does and whatever the delay is. *)
Theorem reconnection_raises_only_from_sink (s : Sys) (e : exn) :
  fst (_attempt_reconnection w messages s) = Raise e ->
  exists h,
    exception_handler (self s) = Some h
    /\ run_exception_handler w h
         (ApiException (exhausted_message (max_reconnect_attempts (self s)))) = Some e.
Proof.
  unfold _attempt_reconnection, bind, get_self.
  destruct (auto_reconnect (self s)); simpl; [|discriminate].
  apply reconnection_loop_raises. reflexivity.
Qed.

End Recovery.


Lemma reconnection_raises_only_from_sink_example :
  let s := sample_sys (set_exception_handler_field (Some 9%nat)
                         (set_reconnect true 0 2 dropped_client)) in
  exists h,
    exception_handler (self s) = Some h
    /\ run_exception_handler strict_world h
         (ApiException (exhausted_message (max_reconnect_attempts (self s))))
       = Some (CallbackError 9).
Proof.
  intros s.
  apply (reconnection_raises_only_from_sink strict_world sample_messages s
           (CallbackError 9)).
  reflexivity.
Defined.
